(** * A3C trainer (src/a3c.py): shared optimizer and worker loop

    A shallow embedding of [SharedAdam] and [ActorCriticWorker] and the
    properties of them that the specification states.

    Conventions of the embedding.
    - Python floats and the elements of torch tensors are idealised as real
      numbers extended with one absorbing non-finite value ([NaN]); rounding
      and the two infinities are not modelled.
    - A tensor is the list of its elements; an elementwise operation on
      tensors of different sizes is an error (broadcasting is not modelled).
    - A Python exception is the result [None].
    - The step counter of a parameter, a one-element float32 tensor in the
      code, is a natural number; the two agree for the first [2^24]
      increments.
    - The policy network and the game are outside the repository's core:
      what a forward pass, a backward pass and an environment step return is
      an input of the model (an [observation] per iteration).  Of the
      network, the heads of [forward] are modelled on top of the logits and
      the critic's output ([ActorCriticNetwork]).
    - The module [config_a3c] is not part of the sources; its constants are
      the fields of the record [config]. *)

From Stdlib Require Import Reals Lra Lia ZArith String Ascii List Bool DecimalString
  DecimalPos.
From stdpp Require Import gmap strings list.

Open Scope Z_scope.

(** ** Numbers *)

Inductive float : Type :=
| Fin (x : R)
| NaN.

Definition is_finite (a : float) : bool :=
  match a with Fin _ => true | NaN => false end.

Definition fadd (a b : float) : float :=
  match a, b with Fin x, Fin y => Fin (x + y) | _, _ => NaN end.

Definition fsub (a b : float) : float :=
  match a, b with Fin x, Fin y => Fin (x - y) | _, _ => NaN end.

Definition fmul (a b : float) : float :=
  match a, b with Fin x, Fin y => Fin (x * y) | _, _ => NaN end.

(** Division by zero gives a non-finite tensor element, not an exception. *)
Definition fdiv (a b : float) : float :=
  match a, b with
  | Fin x, Fin y => if Req_dec_T y 0 then NaN else Fin (x / y)
  | _, _ => NaN
  end.

Definition fsqrt (a : float) : float :=
  match a with
  | Fin x => if Rlt_dec x 0 then NaN else Fin (sqrt x)
  | NaN => NaN
  end.

(** ** Tensors *)

Abbreviation tensor := (list float).

Definition zeros_like (t : tensor) : tensor := map (fun _ => Fin 0) t.

(** [t.mul_(c)] *)
Definition mul_ (c : R) (t : tensor) : tensor := map (fmul (Fin c)) t.

(** A binary elementwise operation; a size mismatch raises. *)
Definition elementwise (f : float -> float -> float) (a b : tensor) : option tensor :=
  if (length a =? length b)%nat then Some (zip_with f a b) else None.

(** [t.add_(alpha, other)] and [t.add(alpha, other)]: [t + alpha * other] *)
Definition add_ (alpha : R) (other t : tensor) : option tensor :=
  elementwise (fun x y => fadd x (fmul (Fin alpha) y)) t other.

(** [t.addcmul_(v, t1, t2)]: [t + v * t1 * t2] *)
Definition addcmul_ (v : R) (t1 t2 t : tensor) : option tensor :=
  m ← elementwise fmul t1 t2;
  elementwise (fun x y => fadd x (fmul (Fin v) y)) t m.

(** [t.addcdiv_(v, t1, t2)]: [t + v * t1 / t2] *)
Definition addcdiv_ (v : R) (t1 t2 t : tensor) : option tensor :=
  q ← elementwise fdiv t1 t2;
  elementwise (fun x y => fadd x (fmul (Fin v) y)) t q.

(** [t.sqrt().add_(c)] *)
Definition sqrt_add (c : R) (t : tensor) : tensor :=
  map (fun x => fadd (fsqrt x) (Fin c)) t.

(** ** SharedAdam *)

Module SharedAdam.

(** A parameter [p] of the network together with the optimizer's entry
    [self.state[p]] for it: the dictionary [self.state] is keyed by the
    parameter, so each parameter has its own ['step'], ['exp_avg'] and
    ['exp_avg_sq']. *)
Record param : Type := Param {
  data : tensor;
  grad : option tensor;
  state_step : nat;
  state_exp_avg : tensor;
  state_exp_avg_sq : tensor
}.

Record group : Type := Group {
  lr : R;
  betas : R * R;
  eps : R;
  weight_decay : R;
  params : list param
}.

(** [self.param_groups] *)
Abbreviation optimizer := (list group).

(** [__init__]: the base class builds one group with torch's defaults
    (betas 0.9 and 0.999, eps 1e-8, no weight decay); the loop of lines
    108-113 gives every parameter a zero counter and zero moments. *)
Definition init_param (d : tensor) : param :=
  {| data := d; grad := None; state_step := 0;
     state_exp_avg := zeros_like d; state_exp_avg_sq := zeros_like d |}.

Definition init (ps : list tensor) (learning_rate : R) : optimizer :=
  [ {| lr := learning_rate; betas := (0.9, 0.999)%R; eps := 1e-8%R;
       weight_decay := 0%R; params := map init_param ps |} ].

(** Lines 159-162, with Python's exceptions: [math.sqrt] of a negative
    number and a float division by zero. *)
Definition step_size (g : group) (t : nat) : option R :=
  let '(beta1, beta2) := betas g in
  let bias_correction1 := (1 - beta1 ^ t)%R in
  let bias_correction2 := (1 - beta2 ^ t)%R in
  if Rlt_dec bias_correction2 0 then None
  else if Req_dec_T bias_correction1 0 then None
  else Some (lr g * sqrt bias_correction2 / bias_correction1)%R.

(** The body of the inner loop, lines 140-164. *)
Definition step_param (g : group) (p : param) : option param :=
  match grad p with
  | None => Some p
  | Some grad0 =>
      let '(beta1, beta2) := betas g in
      let t := S (state_step p) in
      grad1 ← (if Req_dec_T (weight_decay g) 0 then Some grad0
               else add_ (weight_decay g) (data p) grad0);
      exp_avg ← add_ (1 - beta1) grad1 (mul_ beta1 (state_exp_avg p));
      exp_avg_sq ← addcmul_ (1 - beta2) grad1 grad1 (mul_ beta2 (state_exp_avg_sq p));
      let denom := sqrt_add (eps g) exp_avg_sq in
      size ← step_size g t;
      data1 ← addcdiv_ (- size) exp_avg denom (data p);
      Some {| data := data1; grad := grad p; state_step := t;
              state_exp_avg := exp_avg; state_exp_avg_sq := exp_avg_sq |}
  end.

Definition step_group (g : group) : option group :=
  ps ← mapM (step_param g) (params g);
  Some {| lr := lr g; betas := betas g; eps := eps g;
          weight_decay := weight_decay g; params := ps |}.

(** [step()], called without a closure. *)
Definition step (opt : optimizer) : option optimizer :=
  mapM step_group opt.

(** [zero_grad()]: an existing gradient is zeroed in place. *)
Definition zero_grad_param (p : param) : param :=
  {| data := data p; grad := zeros_like <$> grad p; state_step := state_step p;
     state_exp_avg := state_exp_avg p; state_exp_avg_sq := state_exp_avg_sq p |}.

Definition with_params (g : group) (ps : list param) : group :=
  {| lr := lr g; betas := betas g; eps := eps g;
     weight_decay := weight_decay g; params := ps |}.

Definition zero_grad (opt : optimizer) : optimizer :=
  map (fun g => with_params g (map zero_grad_param (params g))) opt.

(** The parameters of the global network, in order. *)
Definition parameters (opt : optimizer) : list param :=
  concat (map params opt).

Definition state_dict (opt : optimizer) : list tensor :=
  map data (parameters opt).

(** Two parameters with the same values, counter and moments. *)
Definition same_state (p q : param) : Prop :=
  data q = data p /\
  state_step q = state_step p /\
  state_exp_avg q = state_exp_avg p /\
  state_exp_avg_sq q = state_exp_avg_sq p.

(** What torch's Adam constructor checks of the betas. *)
Definition valid_group (g : group) : Prop :=
  (0 <= fst (betas g) < 1)%R /\ (0 <= snd (betas g) < 1)%R.

(** Gradient and moments have the size of the parameter. *)
Definition shaped (p : param) : bool :=
  (length (state_exp_avg p) =? length (data p))%nat
  && (length (state_exp_avg_sq p) =? length (data p))%nat
  && match grad p with
     | Some gr => (length gr =? length (data p))%nat
     | None => true
     end.

Definition wf_group (g : group) : Prop :=
  valid_group g /\ forallb shaped (params g) = true.

Definition wf (opt : optimizer) : Prop := Forall wf_group opt.

End SharedAdam.

(** ** Values flowing through the worker *)

(** A Python number or a zero-dimensional tensor, with the flag torch keeps
    to know whether gradients flow through it. *)
Record scalar : Type := Scalar {
  item : float;
  requires_grad : bool
}.

(** A Python number takes no part in the autograd graph. *)
Definition number (x : R) : scalar := Scalar (Fin x) false.

Definition sadd (a b : scalar) : scalar :=
  Scalar (fadd (item a) (item b)) (requires_grad a || requires_grad b).

Definition ssub (a b : scalar) : scalar :=
  Scalar (fsub (item a) (item b)) (requires_grad a || requires_grad b).

Definition smul (a b : scalar) : scalar :=
  Scalar (fmul (item a) (item b)) (requires_grad a || requires_grad b).

(** [a ** 2] *)
Definition ssquare (a : scalar) : scalar :=
  Scalar (fmul (item a) (item a)) (requires_grad a).

(** [a.detach()]: the same value, cut from the graph. *)
Definition detach (a : scalar) : scalar := Scalar (item a) false.

(** ** Python and numpy primitives *)

(** [a % b] on integers; Python's result has the sign of [b], as
    [Z.modulo] has. *)
Definition py_mod (a b : Z) : option Z :=
  if b =? 0 then None else Some (a mod b).

(** [l[i]] with Python's negative indices and [IndexError]. *)
Definition getitem {A : Type} (l : list A) (i : Z) : option A :=
  let n := Z.of_nat (length l) in
  if (i <? - n) || (n <=? i) then None
  else l !! Z.to_nat (if i <? 0 then i + n else i).

(** A [for] loop over [l] whose body updates the accumulators or raises. *)
Fixpoint for_each {A S : Type} (body : S -> A -> option S) (acc : S) (l : list A)
  : option S :=
  match l with
  | [] => Some acc
  | x :: l' => acc' ← body acc x; for_each body acc' l'
  end.

(** [np.linspace(start, stop, num)] with the default [endpoint=True]:
    [arange(num) * step + start], the last sample overwritten by [stop]. *)
Definition linspace (start stop : R) (num : Z) : option (list R) :=
  if num <? 0 then None
  else
    let n := Z.to_nat num in
    let div := num - 1 in
    let delta := (stop - start)%R in
    let y := map (fun k : nat =>
                    if 0 <? div then (INR k * (delta / IZR div) + start)%R
                    else (INR k * delta + start)%R) (seq 0 n) in
    Some (if 1 <? num then <[(n - 1)%nat := stop]> y else y).

(** [str(i)] *)
Definition str (i : Z) : string := NilZero.string_of_int (Z.to_int i).

Fixpoint zeros (n : nat) : string :=
  match n with
  | O => EmptyString
  | S n' => String "0" (zeros n')
  end.

(** [s.zfill(width)]: zeros go after a leading sign. *)
Definition zfill (width : nat) (s : string) : string :=
  let pad := zeros (width - String.length s) in
  match s with
  | String c rest =>
      if (Ascii.eqb c "+" || Ascii.eqb c "-")%bool
      then String c (pad ++ rest)%string
      else (pad ++ s)%string
  | EmptyString => pad
  end.

(** ** Configuration *)

Record config : Type := Config {
  LEARNING_RATE : R;
  DISCOUNT : R;
  ENTROPY_COEFF : R;
  VALUE_LOSS_COEFF : R;
  MAX_GRAD_NORM : R;
  INITIAL_EXPLORATION : R;
  FINAL_EXPLORATION : R;
  FINAL_EXPLORATION_FRAME : Z;
  BUFFER_UPDATE_FREQ : Z;
  SAVE_NETWORK_FREQ : Z;
  TRAIN_ITERATIONS : Z;
  EXPERIMENT_NAME : string
}.

(** ** ActorCriticWorker *)

Module ActorCriticWorker.

Abbreviation loc := nat.

(** The store of Python list objects: a list object is its address. *)
Abbreviation heap := (list (list scalar)).

Definition alloc (h : heap) : loc * heap := (length h, h ++ [[]]).

(** [l.append(x)] on the list object at [l] *)
Definition append (l : loc) (x : scalar) (h : heap) : option heap :=
  xs ← h !! l;
  Some (<[l := xs ++ [x]]> h).

Definition keys : list string := ["value"; "action_prob"; "reward"; "entropy"]%string.

Record worker : Type := Worker {
  id : Z;
  (** the local copy of the parameters *)
  net : list tensor;
  (** the shared optimizer; it holds the parameters of the global network *)
  shared_opt : SharedAdam.optimizer;
  (** the dictionary [self.buffer], from key to list object *)
  buffer : gmap string loc;
  store : heap;
  buffer_length : Z;
  epsilon : list R;
  (** the variables [loss] and [eplen] of [train]; [None] is unbound *)
  loss : option scalar;
  eplen : Z;
  (** the files written by [torch.save] *)
  saved : list (string * list tensor)
}.

(** What the network and the game return during one iteration. *)
Record observation : Type := Observation {
  value : scalar;
  log_prob : scalar;
  entropy : scalar;
  reward : scalar;
  done : bool;
  (** the value of [next_state], computed by [optimize_model] *)
  next_value : scalar;
  (** [lp.grad] of the local parameters after [loss.backward()] and clipping *)
  grads : list (option tensor)
}.

(** [{k: [] for k in [...]}]: one new list per key. *)
Definition new_buffer (h : heap) : gmap string loc * heap :=
  foldl (fun '(d, h) k => let '(l, h') := alloc h in (<[k := l]> d, h'))
        (∅, h) keys.

(** [dict.fromkeys(d, [])]: the argument [[]] is evaluated once, and every
    key of [d] is bound to that one list. *)
Definition fromkeys (d : gmap string loc) (h : heap) : gmap string loc * heap :=
  let '(l, h') := alloc h in ((fun _ => l) <$> d, h').

(** [self.buffer[k][i]] *)
Definition buffer_get (d : gmap string loc) (h : heap) (k : string) (i : Z)
  : option scalar :=
  l ← d !! k;
  xs ← h !! l;
  getitem xs i.

(** The list object a key is bound to. *)
Definition view (d : gmap string loc) (h : heap) (k : string) : option (list scalar) :=
  l ← d !! k;
  h !! l.

(** All four keys are bound to the list object at [l]. *)
Definition aliased_at (w : worker) (l : loc) : Prop :=
  forall k, k ∈ keys -> buffer w !! k = Some l.

Definition aliased (w : worker) : Prop := exists l, aliased_at w l.

(** The four keys share one list object of the store. *)
Definition shares_one_list (w : worker) : Prop :=
  exists l xs, aliased_at w l /\ store w !! l = Some xs.

(** Every key is bound to an empty list. *)
Definition cleared (w : worker) : Prop :=
  forall k, k ∈ keys -> view (buffer w) (store w) k = Some [].

(** [gp._grad = lp.grad] over [zip] of the local and global parameters. *)
Definition with_grad (p : SharedAdam.param) (g : option tensor) : SharedAdam.param :=
  {| SharedAdam.data := SharedAdam.data p; SharedAdam.grad := g;
     SharedAdam.state_step := SharedAdam.state_step p;
     SharedAdam.state_exp_avg := SharedAdam.state_exp_avg p;
     SharedAdam.state_exp_avg_sq := SharedAdam.state_exp_avg_sq p |}.

Fixpoint set_grads_params (gs : list (option tensor)) (ps : list SharedAdam.param)
  : list SharedAdam.param :=
  match gs, ps with
  | g :: gs', p :: ps' => with_grad p g :: set_grads_params gs' ps'
  | _, _ => ps
  end.

Fixpoint set_grads (gs : list (option tensor)) (opt : SharedAdam.optimizer)
  : SharedAdam.optimizer :=
  match opt with
  | [] => []
  | g :: opt' =>
      SharedAdam.with_params g (set_grads_params gs (SharedAdam.params g))
      :: set_grads (drop (length (SharedAdam.params g)) gs) opt'
  end.

(** Lines 255-260: the gradients of the local network are handed to the
    global parameters and the shared optimizer steps. *)
Definition push (gs : list (option tensor)) (opt : SharedAdam.optimizer)
  : option SharedAdam.optimizer :=
  let opt1 := SharedAdam.zero_grad opt in
  let opt2 := set_grads gs opt1 in
  SharedAdam.step opt2.

(** A sequence of pushes, one list of local gradients per call. *)
Definition apply_calls (calls : list (list (option tensor)))
    (opt : SharedAdam.optimizer) : option SharedAdam.optimizer :=
  for_each (fun o gs => push gs o) opt calls.

Section WithConfig.

Variable cfg : config.

(** [__init__], lines 184-217. *)
Definition init (i : Z) (shared : SharedAdam.optimizer) : option worker :=
  eps ← linspace (INITIAL_EXPLORATION cfg) (FINAL_EXPLORATION cfg)
                 (FINAL_EXPLORATION_FRAME cfg);
  let '(d, h) := new_buffer [] in
  Some {| id := i; net := SharedAdam.state_dict shared; shared_opt := shared;
          buffer := d; store := h; buffer_length := 0; epsilon := eps;
          loss := None; eplen := 0; saved := [] |}.

(** The exploration rate of iteration [i], line 285. *)
Definition eps_at (eps : list R) (i : Z) : option R :=
  getitem eps (Z.min i (FINAL_EXPLORATION_FRAME cfg - 1)).

(** The body of the loop of lines 241-249 on the accumulators
    [(loss_value, loss_policy, gae)]. *)
Definition loss_body (d : gmap string loc) (h : heap) (value_1 : scalar)
    (acc : scalar * scalar * scalar) (i : Z) : option (scalar * scalar * scalar) :=
  let '(loss_value, loss_policy, gae) := acc in
  r ← buffer_get d h "reward" i;
  let value_target := sadd (smul (number (DISCOUNT cfg)) value_1) r in
  v ← buffer_get d h "value" i;
  let advantage := ssub value_1 v in
  let loss_value := sadd loss_value (ssquare advantage) in
  r' ← buffer_get d h "reward" i;
  v_next ← buffer_get d h "value" (i + 1);
  v' ← buffer_get d h "value" i;
  let delta_t := ssub (sadd r' (smul (number (DISCOUNT cfg)) v_next)) v' in
  let gae := sadd (smul gae (number (DISCOUNT cfg))) delta_t in
  lp ← buffer_get d h "action_prob" i;
  e ← buffer_get d h "entropy" i;
  let loss_policy :=
    ssub loss_policy
         (ssub (smul lp (detach gae)) (smul (number (ENTROPY_COEFF cfg)) e)) in
  Some (loss_value, loss_policy, gae).

(** [reversed(range(n))] *)
Definition reversed_range (n : Z) : list Z :=
  rev (map Z.of_nat (seq 0 (Z.to_nat n))).

Definition bootstrap (o : observation) : scalar :=
  if done o then number 0 else next_value o.

(** Lines 231-249: the bootstrap value is appended to the list under
    ['value'], then the loop runs; the result is the store after the append
    and the accumulators. *)
Definition losses (d : gmap string loc) (h : heap) (n : Z) (value_1 : scalar)
  : option (heap * (scalar * scalar * scalar)) :=
  l ← d !! "value";
  h1 ← append l value_1 h;
  acc ← for_each (loss_body d h1 value_1) (number 0, number 0, number 0)
               (reversed_range n);
  Some (h1, acc).

Definition total_loss (acc : scalar * scalar * scalar) : scalar :=
  let '(loss_value, loss_policy, _) := acc in
  sadd loss_policy (smul (number (VALUE_LOSS_COEFF cfg)) loss_value).

(** [optimize_model], lines 231-265. *)
Definition optimize_model (w : worker) (o : observation) : option (worker * scalar) :=
  '(h1, acc) ← losses (buffer w) (store w) (buffer_length w) (bootstrap o);
  let loss0 := total_loss acc in
  opt3 ← push (grads o) (shared_opt w);
  Some ({| id := id w; net := SharedAdam.state_dict opt3; shared_opt := opt3;
           buffer := buffer w; store := h1; buffer_length := buffer_length w;
           epsilon := epsilon w; loss := loss w; eplen := eplen w;
           saved := saved w |}, loss0).

(** Lines 292-296 and 300: the four appends of a collection step. *)
Definition collect (w : worker) (o : observation) : option worker :=
  lv ← buffer w !! "value";
  h1 ← append lv (value o) (store w);
  la ← buffer w !! "action_prob";
  h2 ← append la (log_prob o) h1;
  lr ← buffer w !! "reward";
  h3 ← append lr (reward o) h2;
  le ← buffer w !! "entropy";
  h4 ← append le (entropy o) h3;
  Some {| id := id w; net := net w; shared_opt := shared_opt w;
          buffer := buffer w; store := h4;
          buffer_length := buffer_length w + 1;
          epsilon := epsilon w; loss := loss w; eplen := eplen w + 1;
          saved := saved w |}.

(** Lines 305-315: optimize, clear the buffer, reset the counters. *)
Definition flush (w : worker) (o : observation) : option worker :=
  '(w1, l) ← optimize_model w o;
  let '(d, h) := fromkeys (buffer w1) (store w1) in
  Some {| id := id w1; net := net w1; shared_opt := shared_opt w1;
          buffer := d; store := h; buffer_length := 0;
          epsilon := epsilon w1; loss := Some l;
          eplen := if done o then 0 else eplen w1;
          saved := saved w1 |}.

(** The flush condition of line 304. *)
Definition flush_due (w : worker) (o : observation) : option bool :=
  m ← py_mod (buffer_length w) (BUFFER_UPDATE_FREQ cfg);
  Some ((m =? 0) || done o).

(** The file name of line 321. *)
Definition checkpoint_path (i : Z) : string :=
  (EXPERIMENT_NAME cfg ++ "/" ++ zfill 7 (str i) ++ ".pt")%string.

(** Lines 318-321. *)
Definition save_network (w : worker) (i : Z) : worker :=
  {| id := id w; net := net w; shared_opt := shared_opt w;
     buffer := buffer w; store := store w; buffer_length := buffer_length w;
     epsilon := epsilon w; loss := loss w; eplen := eplen w;
     saved := saved w ++ [(checkpoint_path i, SharedAdam.state_dict (shared_opt w))] |}.

(** One iteration of the loop of [train], lines 283-329.  Line 326 reads
    [loss], which is unbound until the first flush. *)
Definition train_iteration (o : observation) (i : Z) (w : worker) : option worker :=
  _ ← eps_at (epsilon w) i;
  w1 ← collect w o;
  due ← flush_due w1 o;
  w2 ← (if due : bool then flush w1 o else Some w1);
  s ← py_mod i (SAVE_NETWORK_FREQ cfg);
  let w3 := if s =? 0 then save_network w2 i else w2 in
  if (i mod 100 =? 0) && (id w3 =? 2)
  then _ ← loss w3; Some w3
  else Some w3.

(** Whether the iteration that starts in [w] and observes [o] flushes:
    line 304 after the increment of line 296. *)
Definition flushes (w : worker) (o : observation) : bool :=
  ((buffer_length w + 1) mod BUFFER_UPDATE_FREQ cfg =? 0) || done o.

(** The value loss in the words of the specification: the advantage of
    step [i] is the discounted value target, [discount * value_1 + reward_i],
    minus the stored value, summed in reverse chronological order. *)
Definition value_loss_spec (rewards values : list scalar) (value_1 : scalar) : scalar :=
  foldr (fun '(r, v) acc =>
           let value_target := sadd (smul (number (DISCOUNT cfg)) value_1) r in
           sadd acc (ssquare (ssub value_target v)))
        (number 0) (zip rewards values).

(** The policy loss and the advantage accumulator in the words of the
    specification, over the sequences of the buffered steps taken in
    reverse order: [delta_i = reward_i + discount * value_(i+1) - value_i],
    the value that follows the last step being the bootstrap value
    [value_1]; [gae = gae * discount + delta_i]; and
    [policy_loss -= log_prob_i * gae - entropy_coeff * entropy_i] with
    [gae] detached.  The result is the pair [(policy_loss, gae)]. *)
Fixpoint policy_loss_spec (rewards values log_probs entropies : list scalar)
    (value_1 : scalar) : scalar * scalar :=
  match rewards, values, log_probs, entropies with
  | r :: rewards', v :: values', lp :: log_probs', e :: entropies' =>
      let '(policy_loss, gae) :=
        policy_loss_spec rewards' values' log_probs' entropies' value_1 in
      let v_next := default value_1 (head values') in
      let delta := ssub (sadd r (smul (number (DISCOUNT cfg)) v_next)) v in
      let gae := sadd (smul gae (number (DISCOUNT cfg))) delta in
      (ssub policy_loss
            (ssub (smul lp (detach gae)) (smul (number (ENTROPY_COEFF cfg)) e)),
       gae)
  | _, _, _, _ => (number 0, number 0)
  end.

(** The indices among [i], ..., [i + n - 1] at which line 318 holds. *)
Fixpoint save_indices (i : Z) (n : nat) : list Z :=
  match n with
  | O => []
  | S n' =>
      (if i mod SAVE_NETWORK_FREQ cfg =? 0 then [i] else [])
      ++ save_indices (i + 1) n'
  end.

(** [n] iterations from index [i] on; [env] gives the observation of each
    iteration. *)
Fixpoint iterate (env : Z -> observation) (n : nat) (i : Z) (w : worker)
  : option worker :=
  match n with
  | O => Some w
  | S n' => w' ← train_iteration (env i) i w; iterate env n' (i + 1) w'
  end.

(** [train]: [for i in range(1, cfg.TRAIN_ITERATIONS)]. *)
Definition train (env : Z -> observation) (w : worker) : option worker :=
  iterate env (Z.to_nat (TRAIN_ITERATIONS cfg - 1)) 1 w.

End WithConfig.

End ActorCriticWorker.

(** ** Concrete inputs *)

Module Examples.

(** A network of two one-element parameters under a fresh optimizer. *)
Definition two_tensors : SharedAdam.optimizer :=
  SharedAdam.init [[Fin 1]; [Fin 1]] 1.

(** The same, the first parameter holding a gradient and the second none. *)
Definition first_has_gradient : SharedAdam.optimizer :=
  ActorCriticWorker.set_grads [Some [Fin 1]; None] two_tensors.

(** Two pushes: the backward pass of the first reaches only the first
    parameter, the backward pass of the second reaches both. *)
Definition two_calls : list (list (option tensor)) :=
  [ [Some [Fin 1]; None]; [Some [Fin 1]; Some [Fin 1]] ].

Definition cfg : config :=
  {| LEARNING_RATE := 1e-4; DISCOUNT := 0.99; ENTROPY_COEFF := 0.01;
     VALUE_LOSS_COEFF := 0.5; MAX_GRAD_NORM := 40;
     INITIAL_EXPLORATION := 1; FINAL_EXPLORATION := 0.1;
     FINAL_EXPLORATION_FRAME := 4; BUFFER_UPDATE_FREQ := 5;
     SAVE_NETWORK_FREQ := 2; TRAIN_ITERATIONS := 5;
     EXPERIMENT_NAME := "exp" |}.

(** A step that ends the episode: value 0, reward 1; the backward pass
    reaches the first parameter only. *)
Definition terminal_step : ActorCriticWorker.observation :=
  {| ActorCriticWorker.value := Scalar (Fin 0) true;
     ActorCriticWorker.log_prob := Scalar (Fin (-1)) true;
     ActorCriticWorker.entropy := Scalar (Fin 0.5) true;
     ActorCriticWorker.reward := number 1;
     ActorCriticWorker.done := true;
     ActorCriticWorker.next_value := Scalar (Fin 0) true;
     ActorCriticWorker.grads := [Some [Fin 1]; None] |}.

(** A step in the middle of an episode. *)
Definition calm_step : ActorCriticWorker.observation :=
  {| ActorCriticWorker.value := Scalar (Fin 0.5) true;
     ActorCriticWorker.log_prob := Scalar (Fin (-1)) true;
     ActorCriticWorker.entropy := Scalar (Fin 0.5) true;
     ActorCriticWorker.reward := number 1;
     ActorCriticWorker.done := false;
     ActorCriticWorker.next_value := Scalar (Fin 0.25) true;
     ActorCriticWorker.grads := [Some [Fin 1]; None] |}.

(** A terminal step on which the network returned a non-finite value; the
    gradient of the first parameter is non-finite too. *)
Definition nan_step : ActorCriticWorker.observation :=
  {| ActorCriticWorker.value := Scalar NaN true;
     ActorCriticWorker.log_prob := Scalar (Fin (-1)) true;
     ActorCriticWorker.entropy := Scalar (Fin 0.5) true;
     ActorCriticWorker.reward := number 1;
     ActorCriticWorker.done := true;
     ActorCriticWorker.next_value := Scalar (Fin 0) true;
     ActorCriticWorker.grads := [Some [NaN]; None] |}.

(** The episode ends on the first iteration and goes on afterwards. *)
Definition env (i : Z) : ActorCriticWorker.observation :=
  if i =? 1 then terminal_step else calm_step.

End Examples.

(** ** Notions used by the properties of the optimizer and of the buffer *)

(** Whether the [j]-th local parameter holds a gradient. *)
Definition has_gradient (j : nat) (gs : list (option tensor)) : bool :=
  match gs !! j with
  | Some (Some _) => true
  | _ => false
  end.

(** The number of calls in which the [j]-th local parameter holds a
    gradient. *)
Fixpoint times_touched (j : nat) (calls : list (list (option tensor))) : nat :=
  match calls with
  | [] => 0
  | gs :: calls' => ((if has_gradient j gs then 1 else 0) + times_touched j calls')%nat
  end.

(** One local gradient per parameter, each of the size of its parameter. *)
Definition fits (gs : list (option tensor)) (ps : list tensor) : Prop :=
  Forall2 (fun (g : option tensor) (d : tensor) =>
             match g with
             | Some gr => length gr = length d
             | None => True
             end) gs ps.

(** The values and both moments of a parameter have the size of [d]. *)
Definition sized (p : SharedAdam.param) (d : tensor) : Prop :=
  length (SharedAdam.data p) = length d /\
  length (SharedAdam.state_exp_avg p) = length d /\
  length (SharedAdam.state_exp_avg_sq p) = length d.

(** An optimizer of one group with valid betas over parameters of the sizes
    of [ps]: what [SharedAdam.__init__] builds and what pushes keep. *)
Definition one_group (ps : list tensor) (opt : SharedAdam.optimizer) : Prop :=
  exists g, opt = [g] /\ SharedAdam.valid_group g /\
            Forall2 sized (SharedAdam.params g) ps.

(** The four keys are bound to four different lists of the store, which
    hold [vs], [lps], [rs] and [es]. *)
Definition separate (w : ActorCriticWorker.worker) (vs lps rs es : list scalar) : Prop :=
  exists lv la lr le,
    ActorCriticWorker.buffer w !! "value"%string = Some lv /\
    ActorCriticWorker.buffer w !! "action_prob"%string = Some la /\
    ActorCriticWorker.buffer w !! "reward"%string = Some lr /\
    ActorCriticWorker.buffer w !! "entropy"%string = Some le /\
    NoDup [lv; la; lr; le] /\
    ActorCriticWorker.store w !! lv = Some vs /\
    ActorCriticWorker.store w !! la = Some lps /\
    ActorCriticWorker.store w !! lr = Some rs /\
    ActorCriticWorker.store w !! le = Some es.

(** The lists of the buffer agree with the counter [buffer_length]: either
    the keys hold four lists of that length, or they share one list of four
    times that length. *)
Definition consistent (w : ActorCriticWorker.worker) : Prop :=
  0 <= ActorCriticWorker.buffer_length w /\
  ((exists vs lps rs es,
       separate w vs lps rs es /\
       Z.of_nat (length vs) = ActorCriticWorker.buffer_length w /\
       Z.of_nat (length lps) = ActorCriticWorker.buffer_length w /\
       Z.of_nat (length rs) = ActorCriticWorker.buffer_length w /\
       Z.of_nat (length es) = ActorCriticWorker.buffer_length w) \/
   (exists l xs,
       ActorCriticWorker.aliased_at w l /\
       ActorCriticWorker.store w !! l = Some xs /\
       Z.of_nat (length xs) = 4 * ActorCriticWorker.buffer_length w)).

(** The iteration indices [i], [i + 1], ..., [i + n - 1]. *)
Definition indices (i : Z) (n : nat) : list Z :=
  map (fun k => i + Z.of_nat k) (seq 0 n).

(** The number a string of decimal digits stands for, leading zeros
    allowed; [None] when a character is not a digit. *)
Definition read_index (s : string) : option Z :=
  Z.of_uint <$> NilEmpty.uint_of_string s.

(** The discounted return of the rewards [rs] followed by the bootstrap
    value [b]: [r_0 + discount * (r_1 + discount * (... + discount * b))]. *)
Fixpoint discounted_return (discount : R) (rs : list R) (b : R) : R :=
  match rs with
  | [] => b
  | r :: rs' => (r + discount * discounted_return discount rs' b)%R
  end.

(** The sum of the squares of [b - x] over the values [xs], added up from
    the last value to the first. *)
Definition squared_gaps (xs : list R) (b : R) : R :=
  foldr (fun x acc => (acc + (b - x) * (b - x))%R) 0%R xs.

(** ** The heads of [ActorCriticNetwork.forward]

    The convolutional trunk and the two linear heads are network outputs:
    the logits [y] of the actor (one per action, [cfg.N_ACTIONS] of them)
    and the output [v] of the critic enter as inputs, and so do the three
    random draws of a call: [u] of [random.random()], [sampled] of the
    categorical sample and [coin] of [np.random.choice].  The batch holds
    one state, as in every call of this file, the logits are finite, and
    the network has at least two actions: with fewer, the [squeeze] of
    line 75 leaves no dimension to sample over. *)
Module ActorCriticNetwork.

Definition sum (l : list R) : R := fold_right Rplus 0%R l.

(** [torch.nn.Softmax] and [torch.nn.LogSoftmax] over the actions. *)
Definition softmax (y : list R) : list R :=
  (fun x => exp x / sum (exp <$> y))%R <$> y.

Definition log_softmax (y : list R) : list R :=
  (fun x => x - ln (sum (exp <$> y)))%R <$> y.

(** [-(action_probs * log_action_probs).sum(axis=-1)]. *)
Definition entropy (y : list R) : R :=
  (- sum (zip_with Rmult (softmax y) (log_softmax y)))%R.

(** [np.random.choice(a, p=[0.95, 0.05], size=1)]: raises unless [p] has
    [a] entries, and draws 0 or 1 otherwise. *)
Definition choice (a : nat) (coin : bool) : option nat :=
  if (a =? 2)%nat then Some (if coin then 1%nat else 0%nat) else None.

(** [t.gather(-1, action)]: raises when the index is out of range. *)
Definition gather (t : list R) (action : nat) : option R := t !! action.

(** The result of [forward]: action, entropy, log probability, value. *)
Definition forward (y : list R) (v : R) (eps u : R) (sampled : nat) (coin : bool)
  : option (nat * R * R * R) :=
  let action_probs := softmax y in
  let log_action_probs := log_softmax y in
  action ← (if Rle_dec u eps then choice (length y) coin else Some sampled);
  log_prob ← gather log_action_probs action;
  Some (action, entropy y, log_prob, v).

End ActorCriticNetwork.

(** ** Trainer

    [Trainer.train] starts one process per worker; every process runs
    [actor_critic_worker_entrypoint] on the one shared network and
    optimizer, and all of them write to the one file system.  Of the
    executions this allows, the model has those in which the processes are
    scheduled one after the other. *)
Module Trainer.

(** The files the processes share. *)
Abbreviation files := (list (string * list tensor)).

(** A worker that starts on the files written so far. *)
Definition on_files (fs : files) (w : ActorCriticWorker.worker)
  : ActorCriticWorker.worker :=
  {| ActorCriticWorker.id := ActorCriticWorker.id w;
     ActorCriticWorker.net := ActorCriticWorker.net w;
     ActorCriticWorker.shared_opt := ActorCriticWorker.shared_opt w;
     ActorCriticWorker.buffer := ActorCriticWorker.buffer w;
     ActorCriticWorker.store := ActorCriticWorker.store w;
     ActorCriticWorker.buffer_length := ActorCriticWorker.buffer_length w;
     ActorCriticWorker.epsilon := ActorCriticWorker.epsilon w;
     ActorCriticWorker.loss := ActorCriticWorker.loss w;
     ActorCriticWorker.eplen := ActorCriticWorker.eplen w;
     ActorCriticWorker.saved := fs |}.

(** [actor_critic_worker_entrypoint], lines 347-348. *)
Definition actor_critic_worker_entrypoint (cfg : config)
    (env : Z -> ActorCriticWorker.observation) (id : Z)
    (opt : SharedAdam.optimizer) (fs : files) : option ActorCriticWorker.worker :=
  w ← ActorCriticWorker.init cfg id opt;
  ActorCriticWorker.train cfg env (on_files fs w).

(** The workers [id], [id + 1], ..., [n] of them, each running to the end
    of its loop before the next one is scheduled; [envs id] is what worker
    [id] observes.  The result is the shared optimizer and the files at the
    end. *)
Fixpoint run_in_turn (cfg : config) (envs : Z -> Z -> ActorCriticWorker.observation)
    (n : nat) (id : Z) (opt : SharedAdam.optimizer) (fs : files)
  : option (SharedAdam.optimizer * files) :=
  match n with
  | O => Some (opt, fs)
  | S n' =>
      w ← actor_critic_worker_entrypoint cfg (envs id) id opt fs;
      run_in_turn cfg envs n' (id + 1)
                  (ActorCriticWorker.shared_opt w) (ActorCriticWorker.saved w)
  end.

(** The number of iterations all workers have started when worker [id] of
    such a run starts iteration [i] of its loop: the global iteration. *)
Definition global_iteration (cfg : config) (id i : Z) : Z :=
  id * (TRAIN_ITERATIONS cfg - 1) + i.

(** The paths in the words of the specification: one write at every
    multiple of the interval among the global iterations [1], ..., [total],
    named by the global iteration. *)
Definition checkpoints_spec (cfg : config) (total : nat) : list string :=
  ActorCriticWorker.checkpoint_path cfg <$> ActorCriticWorker.save_indices cfg 1 total.

End Trainer.

(** ** Concrete inputs at the edges of the configuration *)

Module EdgeCases.

(** An environment in which no episode ever ends. *)
Definition calm_env (i : Z) : ActorCriticWorker.observation := Examples.calm_step.

Definition with_frequencies (horizon update_freq save_freq iterations : Z) : config :=
  {| LEARNING_RATE := 1e-4; DISCOUNT := 0.99; ENTROPY_COEFF := 0.01;
     VALUE_LOSS_COEFF := 0.5; MAX_GRAD_NORM := 40;
     INITIAL_EXPLORATION := 1; FINAL_EXPLORATION := 0.1;
     FINAL_EXPLORATION_FRAME := horizon; BUFFER_UPDATE_FREQ := update_freq;
     SAVE_NETWORK_FREQ := save_freq; TRAIN_ITERATIONS := iterations;
     EXPERIMENT_NAME := "exp" |}.

(** A flush threshold above the first logging iteration. *)
Definition cfg_sparse : config := with_frequencies 4 200 2 150.

(** A flush after every step. *)
Definition cfg_eager : config := with_frequencies 4 1 2 5.

(** A zero flush threshold. *)
Definition cfg_no_flush : config := with_frequencies 4 0 2 5.

(** An exploration schedule of one sample. *)
Definition cfg_constant : config := with_frequencies 1 5 2 5.

(** The shared parameter group of [Examples.two_tensors], without its
    parameters. *)
Definition defaults : SharedAdam.group :=
  {| SharedAdam.lr := 1; SharedAdam.betas := (0.9, 0.999)%R;
     SharedAdam.eps := 1e-8%R; SharedAdam.weight_decay := 0%R;
     SharedAdam.params := [] |}.

(** A fresh one-element parameter that holds a gradient. *)
Definition fresh_with_gradient : SharedAdam.param :=
  ActorCriticWorker.with_grad (SharedAdam.init_param [Fin 1]) (Some [Fin 1]).

(** Two actions with equal logits. *)
Definition even_logits : list R := [0%R; 0%R].

End EdgeCases.

(** * Properties *)

(** ** The Python and numpy primitives on small inputs *)

Example py_mod_negative_dividend : py_mod (-1) 5 = Some 4.
Proof. reflexivity. Qed.

Example py_mod_negative_divisor : py_mod 7 (-5) = Some (-3).
Proof. reflexivity. Qed.

Example py_mod_zero_divisor : py_mod 7 0 = None.
Proof. reflexivity. Qed.

Example getitem_last : getitem [10; 20; 30] (-1) = Some 30.
Proof. reflexivity. Qed.

Example getitem_out_of_range : getitem [10; 20; 30] 3 = None.
Proof. reflexivity. Qed.

Example zfill_pads : zfill 7 (str 42) = "0000042"%string.
Proof. reflexivity. Qed.

Example zfill_keeps_long : zfill 7 (str 123456789) = "123456789"%string.
Proof. reflexivity. Qed.

Example zfill_sign : zfill 4 (str (-5)) = "-005"%string.
Proof. reflexivity. Qed.

Example linspace_three : linspace 1 0 3 = Some [1; 0.5; 0]%R.
Proof. unfold linspace. simpl. change (3 - 1) with 2. repeat f_equal; lra. Qed.

Example linspace_one : linspace 1 0 1 = Some [1%R].
Proof. unfold linspace. simpl. repeat f_equal; lra. Qed.

Example linspace_negative : linspace 1 0 (-1) = None.
Proof. reflexivity. Qed.

Example reversed_range_three : ActorCriticWorker.reversed_range 3 = [2; 1; 0].
Proof. reflexivity. Qed.

Example fromkeys_shares :
  let '(d, h) := ActorCriticWorker.new_buffer [] in
  let '(d', h') := ActorCriticWorker.fromkeys d h in
  d !! "value"%string = Some 0%nat /\ d !! "reward"%string = Some 2%nat /\
  d' !! "value"%string = Some 4%nat /\ d' !! "reward"%string = Some 4%nat /\
  h' = [[]; []; []; []; []].
Proof. vm_compute. auto. Qed.

(** ** Elementwise operations *)

Lemma elementwise_same_length f (a b : tensor) :
  length a = length b -> elementwise f a b = Some (zip_with f a b).
Proof.
  intros E. unfold elementwise. rewrite E, Nat.eqb_refl. reflexivity.
Qed.

Lemma elementwise_length f (a b c : tensor) :
  elementwise f a b = Some c -> length c = length a /\ length b = length a.
Proof.
  unfold elementwise. destruct (Nat.eqb_spec (length a) (length b)) as [E|]; [|discriminate].
  intros [= <-]. rewrite length_zip_with. lia.
Qed.

Lemma mul__length c (t : tensor) : length (mul_ c t) = length t.
Proof. apply length_map. Qed.

Lemma sqrt_add_length c (t : tensor) : length (sqrt_add c t) = length t.
Proof. apply length_map. Qed.

(** ** SharedAdam *)

Lemma pow_below_one (b : R) (t : nat) :
  (0 <= b < 1)%R -> (0 < t)%nat -> (0 <= b ^ t < 1)%R.
Proof.
  intros Hb Ht. destruct t as [|t]; [lia|]. clear Ht.
  induction t as [|t IH].
  - simpl. lra.
  - change (b ^ S (S t))%R with (b * b ^ S t)%R. nra.
Qed.

Lemma step_size_valid (g : SharedAdam.group) (t : nat) :
  SharedAdam.valid_group g -> (0 < t)%nat ->
  SharedAdam.step_size g t =
    Some (SharedAdam.lr g * sqrt (1 - snd (SharedAdam.betas g) ^ t)
          / (1 - fst (SharedAdam.betas g) ^ t))%R.
Proof.
  unfold SharedAdam.valid_group, SharedAdam.step_size.
  destruct (SharedAdam.betas g) as [b1 b2]. simpl. intros [H1 H2] Ht.
  pose proof (pow_below_one b1 t H1 Ht). pose proof (pow_below_one b2 t H2 Ht).
  destruct (Rlt_dec _ _); [lra|]. destruct (Req_dec_T _ _); [lra|]. reflexivity.
Qed.

Lemma step_param_null (g : SharedAdam.group) (p : SharedAdam.param) :
  SharedAdam.grad p = None -> SharedAdam.step_param g p = Some p.
Proof. intros E. unfold SharedAdam.step_param. rewrite E. reflexivity. Qed.

(** What one pass of the inner loop does to a parameter with a gradient. *)
Lemma step_param_touched (g : SharedAdam.group) (p p' : SharedAdam.param) gr :
  SharedAdam.grad p = Some gr ->
  SharedAdam.step_param g p = Some p' ->
  SharedAdam.state_step p' = S (SharedAdam.state_step p) /\
  SharedAdam.grad p' = Some gr /\
  exists size,
    SharedAdam.step_size g (SharedAdam.state_step p') = Some size /\
    addcdiv_ (- size) (SharedAdam.state_exp_avg p')
             (sqrt_add (SharedAdam.eps g) (SharedAdam.state_exp_avg_sq p'))
             (SharedAdam.data p) = Some (SharedAdam.data p').
Proof.
  intros E. unfold SharedAdam.step_param. rewrite E.
  destruct (SharedAdam.betas g) as [b1 b2].
  intros H. simplify_option_eq. eauto.
Qed.

Lemma step_param_total (g : SharedAdam.group) (p : SharedAdam.param) :
  SharedAdam.valid_group g -> SharedAdam.shaped p = true ->
  exists p', SharedAdam.step_param g p = Some p' /\ SharedAdam.shaped p' = true.
Proof.
  intros V S. unfold SharedAdam.step_param.
  unfold SharedAdam.shaped in S. apply andb_prop in S as [S S3]. apply andb_prop in S as [S1 S2].
  apply Nat.eqb_eq in S1, S2.
  destruct (SharedAdam.grad p) as [gr|] eqn:E.
  2:{ exists p. split; [reflexivity|]. unfold SharedAdam.shaped. rewrite E.
      rewrite S1, S2, !Nat.eqb_refl. reflexivity. }
  apply Nat.eqb_eq in S3.
  rewrite (step_size_valid g (S (SharedAdam.state_step p)) V) by lia.
  destruct (SharedAdam.betas g) as [b1 b2]. simpl.
  assert (exists grad1, (if Req_dec_T (SharedAdam.weight_decay g) 0 then Some gr
            else add_ (SharedAdam.weight_decay g) (SharedAdam.data p) gr) = Some grad1
            /\ length grad1 = length (SharedAdam.data p)) as (grad1 & -> & L1).
  { destruct (Req_dec_T _ _); [eauto|]. unfold add_.
    rewrite elementwise_same_length by lia. eexists; split; [reflexivity|].
    rewrite length_zip_with. lia. }
  simpl. unfold add_, addcmul_, addcdiv_.
  rewrite (elementwise_same_length _ (mul_ _ _) grad1) by (rewrite mul__length; lia).
  simpl. rewrite (elementwise_same_length fmul grad1 grad1) by lia. simpl.
  rewrite (elementwise_same_length _ (mul_ _ _) (zip_with fmul grad1 grad1))
    by (rewrite mul__length, length_zip_with; lia).
  simpl.
  rewrite (elementwise_same_length fdiv)
    by (rewrite sqrt_add_length, !length_zip_with, !mul__length; lia).
  simpl. rewrite elementwise_same_length
    by (rewrite !length_zip_with, sqrt_add_length, !length_zip_with, !mul__length; lia).
  simpl. eexists; split; [reflexivity|].
  unfold SharedAdam.shaped; simpl.
  rewrite !length_zip_with, sqrt_add_length, !length_zip_with, !mul__length.
  rewrite !andb_true_iff, !Nat.eqb_eq. lia.
Qed.

Lemma step_group_inv (g g' : SharedAdam.group) :
  SharedAdam.step_group g = Some g' ->
  SharedAdam.lr g' = SharedAdam.lr g /\
  SharedAdam.betas g' = SharedAdam.betas g /\
  SharedAdam.eps g' = SharedAdam.eps g /\
  SharedAdam.weight_decay g' = SharedAdam.weight_decay g /\
  Forall2 (fun p p' => SharedAdam.step_param g p = Some p')
          (SharedAdam.params g) (SharedAdam.params g').
Proof.
  unfold SharedAdam.step_group. intros H.
  destruct (mapM _ _) as [ps|] eqn:E; [|discriminate].
  simpl in H. injection H as <-. simpl.
  apply mapM_Some_1 in E. auto.
Qed.

Lemma step_inv (opt opt' : SharedAdam.optimizer) :
  SharedAdam.step opt = Some opt' ->
  Forall2 (fun g g' => SharedAdam.step_group g = Some g') opt opt'.
Proof. apply mapM_Some_1. Qed.

Lemma step_group_total (g : SharedAdam.group) :
  SharedAdam.wf_group g ->
  exists g', SharedAdam.step_group g = Some g' /\ SharedAdam.wf_group g'.
Proof.
  intros [V S]. unfold SharedAdam.step_group.
  assert (exists ps, mapM (SharedAdam.step_param g) (SharedAdam.params g) = Some ps
                     /\ forallb SharedAdam.shaped ps = true) as (ps & -> & Hps).
  { induction (SharedAdam.params g) as [|p l IH].
    - exists []. split; reflexivity.
    - simpl in S. apply andb_prop in S as [Sp Sl].
      destruct (IH Sl) as (ps & E & Hps).
      destruct (step_param_total g p V Sp) as (p' & Ep & Sp').
      exists (p' :: ps). split.
      + apply mapM_Some_2. constructor; [exact Ep|]. apply mapM_Some_1, E.
      + simpl. rewrite Sp', Hps. reflexivity. }
  simpl. eexists. split; [reflexivity|]. split; [exact V|exact Hps].
Qed.

Lemma step_total (opt : SharedAdam.optimizer) :
  SharedAdam.wf opt ->
  exists opt', SharedAdam.step opt = Some opt' /\ SharedAdam.wf opt'.
Proof.
  unfold SharedAdam.wf, SharedAdam.step. induction 1 as [|g l Hg Hl IH].
  - exists []. split; [reflexivity|constructor].
  - destruct IH as (l' & E & W). destruct (step_group_total g Hg) as (g' & Eg & Wg).
    exists (g' :: l'). split.
    + apply mapM_Some_2. constructor; [exact Eg|]. apply mapM_Some_1, E.
    + constructor; assumption.
Qed.

(** C10. A parameter whose gradient is [None] when [step] runs is passed
    over without an exception, and the call leaves its values, both moment
    estimates, its step counter and its gradient as they were. *)
Theorem step_skips_null_gradient
    (opt opt' : SharedAdam.optimizer) (i j : nat)
    (g : SharedAdam.group) (p : SharedAdam.param) :
  SharedAdam.step opt = Some opt' ->
  opt !! i = Some g ->
  SharedAdam.params g !! j = Some p ->
  SharedAdam.grad p = None ->
  SharedAdam.step_param g p = Some p /\
  exists g', opt' !! i = Some g' /\ SharedAdam.params g' !! j = Some p.
Proof.
  intros Hs Hg Hp Hn. split; [apply step_param_null, Hn|].
  apply step_inv in Hs.
  destruct (Forall2_lookup_l _ _ _ _ _ Hs Hg) as (g' & Hg' & Eg).
  exists g'. split; [exact Hg'|].
  apply step_group_inv in Eg as (_ & _ & _ & _ & Hps).
  destruct (Forall2_lookup_l _ _ _ _ _ Hps Hp) as (p' & Hp' & Ep).
  rewrite (step_param_null g p Hn) in Ep. injection Ep as <-. exact Hp'.
Qed.

Lemma first_has_gradient_wf : SharedAdam.wf Examples.first_has_gradient.
Proof.
  repeat constructor; simpl; lra.
Qed.

Lemma step_skips_null_gradient_witness :
  exists opt',
    SharedAdam.step Examples.first_has_gradient = Some opt' /\
    exists g', opt' !! 0%nat = Some g' /\
               SharedAdam.params g' !! 1%nat = Some (SharedAdam.init_param [Fin 1]).
Proof.
  destruct (step_total _ first_has_gradient_wf) as (opt' & E & _).
  exists opt'. split; [exact E|].
  eapply step_skips_null_gradient; [exact E|reflexivity..].
Defined.

Lemma step_size_formula (g : SharedAdam.group) (t : nat) (size : R) :
  SharedAdam.step_size g t = Some size ->
  size = (SharedAdam.lr g * sqrt (1 - snd (SharedAdam.betas g) ^ t)
          / (1 - fst (SharedAdam.betas g) ^ t))%R.
Proof.
  unfold SharedAdam.step_size. destruct (SharedAdam.betas g) as [b1 b2]. simpl.
  destruct (Rlt_dec _ _); [discriminate|]. destruct (Req_dec_T _ _); [discriminate|].
  congruence.
Qed.

(** C1, as the code has it. Every parameter has a step counter of its own.
    A call of [step] increments the counter of each parameter that has a
    gradient once, and updates the parameter in place with the step size
    [lr * sqrt (1 - beta2^t) / (1 - beta1^t)], where [t] is that
    parameter's own counter after the increment. *)
Theorem step_uses_own_counter
    (opt opt' : SharedAdam.optimizer) (i j : nat)
    (g : SharedAdam.group) (p : SharedAdam.param) (gr : tensor) :
  SharedAdam.step opt = Some opt' ->
  opt !! i = Some g ->
  SharedAdam.params g !! j = Some p ->
  SharedAdam.grad p = Some gr ->
  exists g' p',
    opt' !! i = Some g' /\ SharedAdam.params g' !! j = Some p' /\
    SharedAdam.state_step p' = S (SharedAdam.state_step p) /\
    let t := SharedAdam.state_step p' in
    let size := (SharedAdam.lr g * sqrt (1 - snd (SharedAdam.betas g) ^ t)
                 / (1 - fst (SharedAdam.betas g) ^ t))%R in
    SharedAdam.step_size g t = Some size /\
    addcdiv_ (- size) (SharedAdam.state_exp_avg p')
             (sqrt_add (SharedAdam.eps g) (SharedAdam.state_exp_avg_sq p'))
             (SharedAdam.data p) = Some (SharedAdam.data p').
Proof.
  intros Hs Hg Hp Hgr. apply step_inv in Hs.
  destruct (Forall2_lookup_l _ _ _ _ _ Hs Hg) as (g' & Hg' & Eg).
  apply step_group_inv in Eg as (_ & _ & _ & _ & Hps).
  destruct (Forall2_lookup_l _ _ _ _ _ Hps Hp) as (p' & Hp' & Ep).
  destruct (step_param_touched g p p' gr Hgr Ep) as (Ht & _ & size & Hsize & Hdata).
  exists g', p'. repeat split; try assumption.
  - simpl. rewrite Hsize. f_equal. apply step_size_formula, Hsize.
  - simpl. rewrite <- (step_size_formula _ _ _ Hsize). exact Hdata.
Qed.

Lemma step_uses_own_counter_witness :
  exists opt' g' p',
    SharedAdam.step Examples.first_has_gradient = Some opt' /\
    opt' !! 0%nat = Some g' /\ SharedAdam.params g' !! 0%nat = Some p' /\
    SharedAdam.state_step p' = 1%nat.
Proof.
  destruct (step_total _ first_has_gradient_wf) as (opt' & E & _).
  destruct (step_uses_own_counter Examples.first_has_gradient opt' 0 0 _ _ [Fin 1]
              E eq_refl eq_refl eq_refl) as (g' & p' & Hg' & Hp' & Ht & _).
  exists opt', g', p'. auto.
Defined.

Lemma step_param_data_length (g : SharedAdam.group) (p p' : SharedAdam.param) :
  SharedAdam.step_param g p = Some p' ->
  length (SharedAdam.data p') = length (SharedAdam.data p).
Proof.
  unfold SharedAdam.step_param. destruct (SharedAdam.grad p); [|congruence].
  destruct (SharedAdam.betas g) as [b1 b2]. intros H. simplify_option_eq.
  unfold addcdiv_ in *. simplify_option_eq.
  match goal with H : elementwise _ (SharedAdam.data p) _ = Some _ |- _ =>
    apply elementwise_length in H as [H _]; exact H end.
Qed.

(** C1 fails as stated: after two pushes to a fresh optimizer of two
    parameters, the first push reaching only the first parameter, both
    parameters hold a gradient and were updated by the second push, the
    first with the counter 2 and the second with the counter 1, which is not
    the number of calls. *)
Lemma shared_counter_counterexample :
  exists g p q,
    ActorCriticWorker.apply_calls Examples.two_calls Examples.two_tensors
      = Some [SharedAdam.with_params g [p; q]] /\
    is_Some (SharedAdam.grad p) /\ is_Some (SharedAdam.grad q) /\
    SharedAdam.state_step p = 2%nat /\ SharedAdam.state_step q = 1%nat /\
    SharedAdam.state_step q <> length Examples.two_calls.
Proof.
  pose (g0 := {| SharedAdam.lr := 1; SharedAdam.betas := (0.9, 0.999)%R;
                 SharedAdam.eps := 1e-8%R; SharedAdam.weight_decay := 0%R;
                 SharedAdam.params := [] |}).
  assert (V : SharedAdam.valid_group g0) by (split; simpl; lra).
  pose (a0 := ActorCriticWorker.with_grad (SharedAdam.init_param [Fin 1]) (Some [Fin 1])).
  pose (b0 := SharedAdam.init_param [Fin 1]).
  destruct (step_param_total g0 a0 V eq_refl) as (a1 & Ea & Sa).
  pose proof (step_param_touched g0 a0 a1 [Fin 1] eq_refl Ea) as (Ta & _).
  pose proof (step_param_data_length g0 a0 a1 Ea) as La.
  pose (a1' := ActorCriticWorker.with_grad (SharedAdam.zero_grad_param a1) (Some [Fin 1])).
  pose (b1' := ActorCriticWorker.with_grad (SharedAdam.zero_grad_param b0) (Some [Fin 1])).
  assert (Sa' : SharedAdam.shaped a1' = true).
  { unfold SharedAdam.shaped in *. simpl.
    apply andb_prop in Sa as [-> _]. rewrite La. reflexivity. }
  destruct (step_param_total g0 a1' V Sa') as (a2 & Ea2 & _).
  destruct (step_param_total g0 b1' V eq_refl) as (b2 & Eb2 & _).
  pose proof (step_param_touched g0 a1' a2 [Fin 1] eq_refl Ea2) as (Ta2 & Ga2 & _).
  pose proof (step_param_touched g0 b1' b2 [Fin 1] eq_refl Eb2) as (Tb2 & Gb2 & _).
  exists g0, a2, b2. split.
  - unfold ActorCriticWorker.apply_calls, Examples.two_calls. simpl for_each.
    assert (E1 : ActorCriticWorker.push [Some [Fin 1]; None] Examples.two_tensors
                 = Some [SharedAdam.with_params g0 [a1; b0]]).
    { unfold ActorCriticWorker.push, SharedAdam.step. simpl.
      unfold SharedAdam.step_group. simpl.
      change (SharedAdam.step_param _ (ActorCriticWorker.with_grad _ (Some [Fin 1])))
        with (SharedAdam.step_param g0 a0).
      rewrite Ea. reflexivity. }
    rewrite E1. simpl.
    unfold ActorCriticWorker.push, SharedAdam.step. simpl.
    unfold SharedAdam.step_group. simpl.
    change (SharedAdam.step_param _ (ActorCriticWorker.with_grad (SharedAdam.zero_grad_param a1) _))
      with (SharedAdam.step_param g0 a1').
    rewrite Ea2. simpl.
    change (SharedAdam.step_param _ (ActorCriticWorker.with_grad _ (Some [Fin 1])))
      with (SharedAdam.step_param g0 b1').
    rewrite Eb2. reflexivity.
  - rewrite Ga2, Gb2, Ta2, Tb2. simpl. rewrite Ta. simpl.
    repeat split; eauto.
Qed.

(** ** The losses *)

Lemma buffer_get_view d h k i :
  ActorCriticWorker.buffer_get d h k i =
  ActorCriticWorker.view d h k ≫= fun xs => getitem xs i.
Proof.
  unfold ActorCriticWorker.buffer_get, ActorCriticWorker.view.
  destruct (d !! k); reflexivity.
Qed.

Lemma reversed_range_succ (n : Z) :
  0 <= n ->
  ActorCriticWorker.reversed_range (n + 1) = n :: ActorCriticWorker.reversed_range n.
Proof.
  intros Hn. unfold ActorCriticWorker.reversed_range.
  replace (Z.to_nat (n + 1)) with (S (Z.to_nat n)) by lia.
  rewrite seq_S, map_app, rev_app_distr. simpl. f_equal. lia.
Qed.

(** C2, at an input on which the code and the claim differ. A fresh
    worker buffers one step with value 0 and reward 1 that ends the episode,
    so the bootstrap value is 0: the loop of [optimize_model] leaves the
    value loss at [(0 - 0)^2 = 0], because the advantage of line 244 is
    [value_1 - value_i] and the value target of line 243 is not used, while
    the value loss of the specification is [(0.99 * 0 + 1 - 0)^2 = 1]. *)
Theorem value_loss_at_failing_input :
  exists w0 w1 h lv pl gae,
    ActorCriticWorker.init Examples.cfg 0 Examples.two_tensors = Some w0 /\
    ActorCriticWorker.collect w0 Examples.terminal_step = Some w1 /\
    ActorCriticWorker.losses Examples.cfg (ActorCriticWorker.buffer w1)
      (ActorCriticWorker.store w1) (ActorCriticWorker.buffer_length w1)
      (ActorCriticWorker.bootstrap Examples.terminal_step) = Some (h, (lv, pl, gae)) /\
    item lv = Fin 0 /\
    item (ActorCriticWorker.value_loss_spec Examples.cfg
            [ActorCriticWorker.reward Examples.terminal_step]
            [ActorCriticWorker.value Examples.terminal_step]
            (ActorCriticWorker.bootstrap Examples.terminal_step)) = Fin 1.
Proof.
  do 6 eexists. split; [vm_compute; reflexivity|].
  split; [vm_compute; reflexivity|].
  split; [vm_compute; reflexivity|].
  split; vm_compute; f_equal; lra.
Qed.

Section Losses.

Variable cfg : config.

(** One pass of the loop body, read off the buffer. *)
Lemma loss_body_inv d h value_1 loss_value loss_policy gae i acc' :
  ActorCriticWorker.loss_body cfg d h value_1 (loss_value, loss_policy, gae) i = Some acc' ->
  exists r v v_next lp e,
    ActorCriticWorker.buffer_get d h "reward" i = Some r /\
    ActorCriticWorker.buffer_get d h "value" i = Some v /\
    ActorCriticWorker.buffer_get d h "value" (i + 1) = Some v_next /\
    ActorCriticWorker.buffer_get d h "action_prob" i = Some lp /\
    ActorCriticWorker.buffer_get d h "entropy" i = Some e /\
    let delta := ssub (sadd r (smul (number (DISCOUNT cfg)) v_next)) v in
    let gae' := sadd (smul gae (number (DISCOUNT cfg))) delta in
    acc' = (sadd loss_value (ssquare (ssub value_1 v)),
            ssub loss_policy
                 (ssub (smul lp (detach gae')) (smul (number (ENTROPY_COEFF cfg)) e)),
            gae').
Proof.
  unfold ActorCriticWorker.loss_body. intros H.
  destruct (ActorCriticWorker.buffer_get d h "reward" i) as [r|]; [|discriminate].
  simpl in H.
  destruct (ActorCriticWorker.buffer_get d h "value" i) as [v|]; [|discriminate].
  simpl in H.
  destruct (ActorCriticWorker.buffer_get d h "value" (i + 1)) as [vn|]; [|discriminate].
  simpl in H.
  destruct (ActorCriticWorker.buffer_get d h "action_prob" i) as [lp|]; [|discriminate].
  simpl in H.
  destruct (ActorCriticWorker.buffer_get d h "entropy" i) as [e|]; [|discriminate].
  simpl in H. injection H as <-.
  exists r, v, vn, lp, e. repeat split; reflexivity.
Qed.

Lemma loss_body_ext d1 h1 d2 h2 value_1 acc i :
  (forall k, k ∈ ActorCriticWorker.keys ->
             ActorCriticWorker.view d1 h1 k = ActorCriticWorker.view d2 h2 k) ->
  ActorCriticWorker.loss_body cfg d1 h1 value_1 acc i =
  ActorCriticWorker.loss_body cfg d2 h2 value_1 acc i.
Proof.
  intros Hv. unfold ActorCriticWorker.loss_body.
  destruct acc as [[lv pl] gae].
  rewrite !buffer_get_view.
  rewrite !(Hv "reward"), !(Hv "value"), !(Hv "action_prob"), !(Hv "entropy")
    by (unfold ActorCriticWorker.keys; set_solver).
  reflexivity.
Qed.

Lemma for_each_ext {A S : Type} (f g : S -> A -> option S) acc l :
  (forall a x, f a x = g a x) -> for_each f acc l = for_each g acc l.
Proof.
  intros E. revert acc. induction l as [|x l IH]; intros acc; [reflexivity|].
  simpl. rewrite E. destruct (g acc x); simpl; auto.
Qed.


Lemma append_agree (l : nat) (x : scalar) (h1 h2 h1' : list (list scalar)) :
  h1 !! l = h2 !! l ->
  ActorCriticWorker.append l x h1 = Some h1' ->
  exists h2', ActorCriticWorker.append l x h2 = Some h2' /\
              forall l', h1 !! l' = h2 !! l' -> h1' !! l' = h2' !! l'.
Proof.
  unfold ActorCriticWorker.append. intros E H.
  destruct (h1 !! l) as [xs|] eqn:E1; [|discriminate]. simpl in H. injection H as <-.
  rewrite <- E. simpl. eexists. split; [reflexivity|].
  intros l' E'. destruct (decide (l = l')) as [<-|Hne].
  - rewrite !list_lookup_insert_eq; [reflexivity| |].
    + apply lookup_lt_is_Some. rewrite <- E. eauto.
    + apply lookup_lt_is_Some. eauto.
  - rewrite !list_lookup_insert_ne by assumption. exact E'.
Qed.

Lemma append_none_agree (l : nat) (x : scalar) (h1 h2 : list (list scalar)) :
  h1 !! l = h2 !! l ->
  ActorCriticWorker.append l x h1 = None -> ActorCriticWorker.append l x h2 = None.
Proof.
  unfold ActorCriticWorker.append. intros <-. destruct (h1 !! l); [discriminate|reflexivity].
Qed.

(** C9. The accumulated value loss and policy loss (and the advantage
    accumulator) depend only on the coefficients, the buffer length, the
    bootstrap value and the sequences the buffer's keys are bound to: two
    workers that agree on these compute the same losses, whatever else
    differs in their states. *)
Theorem losses_deterministic
    (w1 w2 : ActorCriticWorker.worker) (o1 o2 : ActorCriticWorker.observation) :
  ActorCriticWorker.buffer w1 = ActorCriticWorker.buffer w2 ->
  (forall k l, k ∈ ActorCriticWorker.keys ->
               ActorCriticWorker.buffer w1 !! k = Some l ->
               ActorCriticWorker.store w1 !! l = ActorCriticWorker.store w2 !! l) ->
  ActorCriticWorker.buffer_length w1 = ActorCriticWorker.buffer_length w2 ->
  ActorCriticWorker.bootstrap o1 = ActorCriticWorker.bootstrap o2 ->
  snd <$> ActorCriticWorker.losses cfg (ActorCriticWorker.buffer w1)
            (ActorCriticWorker.store w1) (ActorCriticWorker.buffer_length w1)
            (ActorCriticWorker.bootstrap o1)
  = snd <$> ActorCriticWorker.losses cfg (ActorCriticWorker.buffer w2)
              (ActorCriticWorker.store w2) (ActorCriticWorker.buffer_length w2)
              (ActorCriticWorker.bootstrap o2).
Proof.
  intros Ed Hs <- <-. rewrite <- Ed. unfold ActorCriticWorker.losses.
  destruct (ActorCriticWorker.buffer w1 !! "value") as [l|] eqn:El; [|reflexivity].
  simpl.
  assert (Hl : ActorCriticWorker.store w1 !! l = ActorCriticWorker.store w2 !! l).
  { apply (Hs "value"); [unfold ActorCriticWorker.keys; set_solver|exact El]. }
  destruct (ActorCriticWorker.append l _ (ActorCriticWorker.store w1)) as [h1|] eqn:E1.
  2:{ rewrite (append_none_agree _ _ _ _ Hl E1). reflexivity. }
  destruct (append_agree _ _ _ _ _ Hl E1) as (h2 & -> & Hagree). simpl.
  rewrite (for_each_ext _ (ActorCriticWorker.loss_body cfg (ActorCriticWorker.buffer w1) h2
                             (ActorCriticWorker.bootstrap o1))).
  - destruct (for_each _ _ _); reflexivity.
  - intros acc i. apply loss_body_ext. intros k Hk.
    unfold ActorCriticWorker.view.
    destruct (ActorCriticWorker.buffer w1 !! k) as [l'|] eqn:Ek; [|reflexivity].
    simpl. apply Hagree. eapply Hs; eassumption.
Qed.

End Losses.

(** ** The training loop *)

Section Loop.

Import ActorCriticWorker.

Variable cfg : config.

Lemma collect_inv (w w1 : worker) (o : observation) :
  collect w o = Some w1 ->
  exists lv la lr le h1 h2 h3,
    buffer w !! "value" = Some lv /\ append lv (value o) (store w) = Some h1 /\
    buffer w !! "action_prob" = Some la /\ append la (log_prob o) h1 = Some h2 /\
    buffer w !! "reward" = Some lr /\ append lr (reward o) h2 = Some h3 /\
    buffer w !! "entropy" = Some le /\ append le (entropy o) h3 = Some (store w1) /\
    buffer w1 = buffer w /\ buffer_length w1 = buffer_length w + 1 /\
    shared_opt w1 = shared_opt w /\ saved w1 = saved w /\ id w1 = id w /\
    loss w1 = loss w.
Proof.
  unfold collect. intros H.
  destruct (buffer w !! "value") as [lv|]; [|discriminate]. simpl in H.
  destruct (append lv _ _) as [h1|] eqn:E1; [|discriminate]. simpl in H.
  destruct (buffer w !! "action_prob") as [la|]; [|discriminate]. simpl in H.
  destruct (append la _ _) as [h2|] eqn:E2; [|discriminate]. simpl in H.
  destruct (buffer w !! "reward") as [lr|]; [|discriminate]. simpl in H.
  destruct (append lr _ _) as [h3|] eqn:E3; [|discriminate]. simpl in H.
  destruct (buffer w !! "entropy") as [le|]; [|discriminate]. simpl in H.
  destruct (append le _ _) as [h4|] eqn:E4; [|discriminate]. simpl in H.
  injection H as <-. simpl. exists lv, la, lr, le, h1, h2, h3. auto 20.
Qed.

Lemma optimize_model_inv (w w' : worker) (o : observation) (l : scalar) :
  optimize_model cfg w o = Some (w', l) ->
  exists acc,
    losses cfg (buffer w) (store w) (buffer_length w) (bootstrap o) = Some (store w', acc) /\
    l = total_loss cfg acc /\
    push (grads o) (shared_opt w) = Some (shared_opt w') /\
    net w' = SharedAdam.state_dict (shared_opt w') /\
    buffer w' = buffer w /\ buffer_length w' = buffer_length w /\
    saved w' = saved w /\ id w' = id w.
Proof.
  unfold optimize_model. intros H.
  destruct (losses _ _ _ _ _) as [[h1 acc]|]; [|discriminate]. simpl in H.
  destruct (push _ _) as [opt3|]; [|discriminate]. simpl in H.
  injection H as <- <-. simpl. exists acc. auto 10.
Qed.

Lemma flush_inv (w w' : worker) (o : observation) :
  flush cfg w o = Some w' ->
  exists w1 l,
    optimize_model cfg w o = Some (w1, l) /\
    buffer w' = (fun _ => length (store w1)) <$> buffer w /\
    store w' = store w1 ++ [[]] /\
    buffer_length w' = 0 /\
    loss w' = Some l /\
    shared_opt w' = shared_opt w1 /\ saved w' = saved w /\ id w' = id w.
Proof.
  unfold flush. intros H.
  destruct (optimize_model cfg w o) as [[w1 l]|] eqn:E; [|discriminate]. simpl in H.
  injection H as <-. simpl.
  destruct (optimize_model_inv _ _ _ _ E) as (acc & _ & _ & _ & _ & Eb & _ & Es & Ei).
  exists w1, l. rewrite Eb. auto 10.
Qed.

Lemma train_iteration_inv (o : observation) (i : Z) (w w' : worker) :
  train_iteration cfg o i w = Some w' ->
  exists w1 w2,
    collect w o = Some w1 /\
    BUFFER_UPDATE_FREQ cfg <> 0 /\
    (if flushes cfg w o then flush cfg w1 o = Some w2 else w2 = w1) /\
    SAVE_NETWORK_FREQ cfg <> 0 /\
    w' = (if i mod SAVE_NETWORK_FREQ cfg =? 0 then save_network cfg w2 i else w2).
Proof.
  unfold train_iteration. intros H.
  destruct (eps_at cfg _ _); [|discriminate]. simpl in H.
  destruct (collect w o) as [w1|] eqn:Ec; [|discriminate]. simpl in H.
  destruct (collect_inv _ _ _ Ec) as (lv & la & lr & le & h1 & h2 & h3 & _ & _ & _ & _ & _ & _ & _ & _ & _ & El & _).
  unfold flush_due, py_mod in H. rewrite El in H.
  destruct (Z.eqb_spec (BUFFER_UPDATE_FREQ cfg) 0) as [|Hf]; [discriminate|]. simpl in H.
  fold (flushes cfg w o) in H.
  destruct (Z.eqb_spec (SAVE_NETWORK_FREQ cfg) 0) as [|Hs].
  { destruct (flushes cfg w o); [destruct (flush cfg w1 o)|]; discriminate. }
  assert (exists w2, (if flushes cfg w o then flush cfg w1 o else Some w1) = Some w2 /\
     (let w3 := if i mod SAVE_NETWORK_FREQ cfg =? 0 then save_network cfg w2 i else w2 in
      if (i mod 100 =? 0) && (id w3 =? 2) then loss w3 ≫= (fun _ => Some w3) else Some w3) = Some w')
    as (w2 & E2 & E3).
  { destruct (if flushes cfg w o then flush cfg w1 o else Some w1) as [w2|]; [|discriminate].
    exists w2. split; [reflexivity|exact H]. }
  exists w1, w2. repeat split; try assumption.
  - destruct (flushes cfg w o); congruence.
  - simpl in E3. destruct (_ && _); [|congruence].
    destruct (loss _); [simpl in E3; congruence|discriminate].
Qed.


Lemma iterate_invariant (P : worker -> Prop) (env : Z -> observation) :
  (forall o i w w', P w -> train_iteration cfg o i w = Some w' -> P w') ->
  forall n i w w', P w -> iterate cfg env n i w = Some w' -> P w'.
Proof.
  intros Hstep. induction n as [|n IH]; intros i w w' HP H; simpl in H.
  - injection H as <-. exact HP.
  - destruct (train_iteration cfg (env i) i w) as [w1|] eqn:E; [|discriminate].
    simpl in H. eapply IH; [|exact H]. eapply Hstep; eassumption.
Qed.

Lemma init_inv (i : Z) (shared : SharedAdam.optimizer) (w : worker) :
  init cfg i shared = Some w ->
  buffer_length w = 0 /\ saved w = [] /\ shared_opt w = shared /\ id w = i /\
  linspace (INITIAL_EXPLORATION cfg) (FINAL_EXPLORATION cfg)
           (FINAL_EXPLORATION_FRAME cfg) = Some (epsilon w).
Proof.
  unfold init. destruct (linspace _ _ _) as [eps|]; [|discriminate].
  simpl. intros [= <-]. simpl. auto.
Qed.

Lemma saved_or_not_fields (b : bool) (w : worker) (i : Z) :
  let w' := if b then save_network cfg w i else w in
  buffer w' = buffer w /\ store w' = store w /\ buffer_length w' = buffer_length w.
Proof. destruct b; simpl; auto. Qed.

Lemma flush_cleared (w w' : worker) (o : observation) :
  (forall k, k ∈ keys -> is_Some (buffer w !! k)) ->
  flush cfg w o = Some w' ->
  let l := (length (store w') - 1)%nat in
  (forall k, k ∈ keys -> buffer w' !! k = Some l) /\ store w' !! l = Some [].
Proof.
  intros Hk H. destruct (flush_inv _ _ _ H) as (w1 & l & _ & Eb & Es & _).
  rewrite Es, Eb, length_app. simpl.
  replace (length (store w1) + 1 - 1)%nat with (length (store w1)) by lia.
  split.
  - intros k Hin. rewrite lookup_fmap. destruct (Hk k Hin) as [x ->]. reflexivity.
  - rewrite lookup_app_r by lia. rewrite Nat.sub_diag. reflexivity.
Qed.

Lemma collect_keys (w w1 : worker) (o : observation) :
  collect w o = Some w1 -> forall k, k ∈ keys -> is_Some (buffer w1 !! k).
Proof.
  intros H k Hk.
  destruct (collect_inv _ _ _ H)
    as (lv & la & lr & le & h1 & h2 & h3 & Ev & _ & Ea & _ & Er & _ & Ee & _ & -> & _).
  unfold keys in Hk. repeat (apply elem_of_cons in Hk as [->|Hk]); eauto.
  inversion Hk.
Qed.

(** C5. With a positive flush threshold, the buffer length at the start of
    every collection step of a worker is below the threshold; the step
    flushes exactly when the length reaches the threshold or the game
    reports the end of the episode; a flush leaves every key bound to an
    empty list and the length at zero, and a step that does not flush adds
    one to the length. *)
Theorem buffer_length_bounded
    (env : Z -> observation) (i0 : Z) (shared : SharedAdam.optimizer)
    (w0 w w' : worker) (n : nat) (o : observation) (i : Z) :
  0 < BUFFER_UPDATE_FREQ cfg ->
  init cfg i0 shared = Some w0 ->
  iterate cfg env n 1 w0 = Some w ->
  train_iteration cfg o i w = Some w' ->
  0 <= buffer_length w < BUFFER_UPDATE_FREQ cfg /\
  flushes cfg w o = ((buffer_length w + 1 =? BUFFER_UPDATE_FREQ cfg) || done o) /\
  (if flushes cfg w o
   then buffer_length w' = 0 /\ cleared w'
   else buffer_length w' = buffer_length w + 1).
Proof.
  intros Hf H0 Hn Hs.
  assert (Hstep : forall o i w w',
             0 <= buffer_length w < BUFFER_UPDATE_FREQ cfg ->
             train_iteration cfg o i w = Some w' ->
             flushes cfg w o = ((buffer_length w + 1 =? BUFFER_UPDATE_FREQ cfg) || done o) /\
             (if flushes cfg w o then buffer_length w' = 0 /\ cleared w'
              else buffer_length w' = buffer_length w + 1)).
  { clear. intros o i w w' Hb H.
    destruct (train_iteration_inv _ _ _ _ H) as (w1 & w2 & Ec & _ & Efl & _ & ->).
    assert (Hfl : flushes cfg w o
                  = ((buffer_length w + 1 =? BUFFER_UPDATE_FREQ cfg) || done o)).
    { unfold flushes. f_equal.
      destruct (Z.eqb_spec (buffer_length w + 1) (BUFFER_UPDATE_FREQ cfg)) as [E|E].
      - rewrite E, Z_mod_same_full. reflexivity.
      - rewrite Z.mod_small by lia. apply Z.eqb_neq. lia. }
    split; [exact Hfl|].
    destruct (saved_or_not_fields (i mod SAVE_NETWORK_FREQ cfg =? 0) w2 i) as (Eb & Es & El).
    destruct (flushes cfg w o).
    - destruct (flush_inv _ _ _ Efl) as (_ & _ & _ & _ & _ & E0 & _).
      split; [rewrite El; exact E0|].
      destruct (flush_cleared _ _ _ (collect_keys _ _ _ Ec) Efl) as [Hk Hl].
      intros k Hin. unfold view. rewrite Eb, Es, (Hk k Hin). simpl. exact Hl.
    - subst w2. rewrite El.
      destruct (collect_inv _ _ _ Ec)
        as (lv & la & lr & le & h1 & h2 & h3 & _ & _ & _ & _ & _ & _ & _ & _ & _ & E & _).
      exact E. }
  assert (Hinv : 0 <= buffer_length w < BUFFER_UPDATE_FREQ cfg).
  { apply (iterate_invariant (fun w => 0 <= buffer_length w < BUFFER_UPDATE_FREQ cfg)
             env) with (n := n) (i := 1) (w := w0); [| |exact Hn].
    - intros o1 i1 wa wb Ha Hb. destruct (Hstep _ _ _ _ Ha Hb) as [Efl Hres].
      rewrite Efl in Hres.
      destruct (Z.eqb_spec (buffer_length wa + 1) (BUFFER_UPDATE_FREQ cfg)); simpl in Hres.
      + destruct Hres as [-> _]. lia.
      + destruct (done o1); [destruct Hres as [-> _]|]; lia.
    - destruct (init_inv _ _ _ H0) as (-> & _). lia. }
  split; [exact Hinv|]. apply (Hstep o i); assumption.
Qed.

End Loop.

Section Aliasing.

Import ActorCriticWorker.

Variable cfg : config.

Lemma append_lookup (l : nat) (x : scalar) (h h' : list (list scalar)) (xs : list scalar) :
  h !! l = Some xs -> append l x h = Some h' ->
  h' !! l = Some (xs ++ [x]) /\ length h' = length h.
Proof.
  unfold append. intros E H. rewrite E in H. simpl in H. injection H as <-.
  rewrite length_insert. split; [|reflexivity].
  apply list_lookup_insert_eq. apply lookup_lt_is_Some. eauto.
Qed.

(** In an aliased buffer the four appends of a collection step all reach
    the one shared list. *)
Lemma collect_aliased (w w1 : worker) (o : observation) (l : nat) (xs : list scalar) :
  aliased_at w l -> store w !! l = Some xs ->
  collect w o = Some w1 ->
  aliased_at w1 l /\
  store w1 !! l = Some (xs ++ [value o; log_prob o; reward o; entropy o]).
Proof.
  intros Ha Hl H.
  destruct (collect_inv _ _ _ H)
    as (lv & la & lr & le & h1 & h2 & h3 & Ev & A1 & Ea & A2 & Er & A3 & Ee & A4 & Eb & _).
  unfold aliased_at in *. rewrite Eb. split; [exact Ha|].
  rewrite (Ha "value") in Ev by (unfold keys; set_solver).
  rewrite (Ha "action_prob") in Ea by (unfold keys; set_solver).
  rewrite (Ha "reward") in Er by (unfold keys; set_solver).
  rewrite (Ha "entropy") in Ee by (unfold keys; set_solver).
  injection Ev as <-. injection Ea as <-. injection Er as <-. injection Ee as <-.
  destruct (append_lookup _ _ _ _ _ Hl A1) as [L1 _].
  destruct (append_lookup _ _ _ _ _ L1 A2) as [L2 _].
  destruct (append_lookup _ _ _ _ _ L2 A3) as [L3 _].
  destruct (append_lookup _ _ _ _ _ L3 A4) as [L4 _].
  rewrite L4. f_equal. rewrite <- !app_assoc. reflexivity.
Qed.

(** The bindings after a flush, whatever they were before. *)
Lemma flush_aliased (w w' : worker) (o : observation) :
  (forall k, k ∈ keys -> is_Some (buffer w !! k)) ->
  flush cfg w o = Some w' ->
  exists l, aliased_at w' l /\ store w' !! l = Some [].
Proof.
  intros Hk H. destruct (flush_cleared cfg _ _ _ Hk H) as [Ha Hl]. eauto.
Qed.

Lemma train_iteration_aliased (o : observation) (i : Z) (w w' : worker) :
  flushes cfg w o = true \/ shares_one_list w ->
  train_iteration cfg o i w = Some w' ->
  shares_one_list w'.
Proof.
  intros Hc H.
  destruct (train_iteration_inv cfg _ _ _ _ H) as (w1 & w2 & Ec & _ & Efl & _ & ->).
  destruct (saved_or_not_fields cfg (i mod SAVE_NETWORK_FREQ cfg =? 0) w2 i) as (Eb & Es & _).
  unfold shares_one_list, aliased_at. rewrite Eb, Es.
  destruct (flushes cfg w o).
  - destruct (flush_aliased _ _ _ (collect_keys _ _ _ Ec) Efl) as (l & Ha & Hl). eauto.
  - subst w2. destruct Hc as [|(l & xs & Ha & Hl)]; [discriminate|].
    destruct (collect_aliased _ _ _ _ _ Ha Hl Ec) as [Ha1 Hl1]. eauto.
Qed.

(** C3. Once an iteration has flushed, all four keys of the buffer are
    bound to one and the same list, in the state the flush leaves and after
    any number of further iterations; a later collection step puts its
    value, log-probability, reward and entropy, in this order, at the end of
    that one list, and leaves the keys bound to it. *)
Theorem buffer_aliased_after_flush
    (env : Z -> observation) (o o' : observation) (i j : Z) (n : nat)
    (w w1 w2 w3 : worker) :
  flushes cfg w o = true ->
  train_iteration cfg o i w = Some w1 ->
  iterate cfg env n (i + 1) w1 = Some w2 ->
  train_iteration cfg o' j w2 = Some w3 ->
  exists l xs,
    aliased_at w2 l /\ store w2 !! l = Some xs /\
    aliased w3 /\
    (flushes cfg w2 o' = false ->
     aliased_at w3 l /\
     store w3 !! l = Some (xs ++ [value o'; log_prob o'; reward o'; entropy o'])).
Proof.
  intros Hfl H1 Hn H3.
  assert (S1 : shares_one_list w1).
  { eapply train_iteration_aliased; [left; exact Hfl|exact H1]. }
  assert (S2 : shares_one_list w2).
  { eapply (iterate_invariant cfg shares_one_list); [|exact S1|exact Hn].
    intros oa ia wa wb Ha Hb. eapply train_iteration_aliased; [right; exact Ha|exact Hb]. }
  destruct S2 as (l & xs & Ha & Hl). exists l, xs. split; [exact Ha|]. split; [exact Hl|].
  split.
  - destruct (train_iteration_aliased o' j w2 w3) as (l' & _ & Ha' & _);
      [right; exists l, xs; auto|exact H3|]. exists l'. exact Ha'.
  - intros Hno.
    destruct (train_iteration_inv cfg _ _ _ _ H3) as (wa & wb & Ec & _ & Efl & _ & ->).
    rewrite Hno in Efl. subst wb.
    destruct (saved_or_not_fields cfg (j mod SAVE_NETWORK_FREQ cfg =? 0) wa j) as (Eb & Es & _).
    unfold aliased_at. rewrite Eb, Es.
    exact (collect_aliased _ _ _ _ _ Ha Hl Ec).
Qed.

End Aliasing.

Section Checkpoints.

Import ActorCriticWorker.

Variable cfg : config.

Lemma save_indices_spec (i : Z) (n : nat) (j : Z) :
  j ∈ save_indices cfg i n <-> i <= j < i + Z.of_nat n /\ j mod SAVE_NETWORK_FREQ cfg = 0.
Proof.
  revert i. induction n as [|n IH]; intros i; simpl.
  - rewrite elem_of_nil. lia.
  - rewrite elem_of_app, IH.
    destruct (Z.eqb_spec (i mod SAVE_NETWORK_FREQ cfg) 0) as [E|E].
    + rewrite list_elem_of_singleton. split.
      * intros [->|H]; [split; [lia|exact E]|]. split; [lia|apply H].
      * intros [H1 H2]. destruct (decide (j = i)) as [->|]; [left; reflexivity|right]. split; [lia|exact H2].
    + rewrite elem_of_nil. split.
      * intros [[]|H]. split; [lia|apply H].
      * intros [H1 H2]. right. split; [|exact H2].
        destruct (decide (j = i)) as [->|]; [contradiction|lia].
Qed.

Lemma str_nonneg_head (j : Z) :
  0 <= j ->
  exists c rest, str j = String c rest /\ (Ascii.eqb c "+" || Ascii.eqb c "-")%bool = false.
Proof.
  intros Hj. unfold str. destruct j as [|p|p]; [| |lia].
  - exists "0"%char, EmptyString. split; reflexivity.
  - simpl. destruct (Pos.to_uint p); simpl; eauto.
Qed.

Lemma zfill_nonneg (width : nat) (j : Z) :
  0 <= j -> zfill width (str j) = (zeros (width - String.length (str j)) ++ str j)%string.
Proof.
  intros Hj. destruct (str_nonneg_head j Hj) as (c & rest & E & Hc).
  unfold zfill. rewrite E, Hc. reflexivity.
Qed.

Lemma train_iteration_saved (o : observation) (i : Z) (w w' : worker) :
  train_iteration cfg o i w = Some w' ->
  saved w' = saved w ++
    (if i mod SAVE_NETWORK_FREQ cfg =? 0
     then [(checkpoint_path cfg i, SharedAdam.state_dict (shared_opt w'))] else []).
Proof.
  intros H.
  destruct (train_iteration_inv cfg _ _ _ _ H) as (w1 & w2 & Ec & _ & Efl & _ & ->).
  assert (E2 : saved w2 = saved w).
  { destruct (collect_inv _ _ _ Ec)
      as (lv & la & lr & le & h1 & h2 & h3 & _ & _ & _ & _ & _ & _ & _ & _ & _ & _ & _ & Es & _).
    destruct (flushes cfg w o).
    - destruct (flush_inv cfg _ _ _ Efl) as (_ & _ & _ & _ & _ & _ & _ & _ & E & _). congruence.
    - congruence. }
  destruct (i mod SAVE_NETWORK_FREQ cfg =? 0); simpl.
  - rewrite E2. reflexivity.
  - rewrite app_nil_r. exact E2.
Qed.

Lemma iterate_saved (env : Z -> observation) (n : nat) (i : Z) (w w' : worker) :
  iterate cfg env n i w = Some w' ->
  exists news,
    saved w' = saved w ++ news /\
    news.*1 = checkpoint_path cfg <$> save_indices cfg i n /\
    Forall (fun e => exists (m : nat) (wj : worker),
                (m < n)%nat /\ iterate cfg env (S m) i w = Some wj /\
                (i + Z.of_nat m) mod SAVE_NETWORK_FREQ cfg = 0 /\
                e = (checkpoint_path cfg (i + Z.of_nat m),
                     SharedAdam.state_dict (shared_opt wj))) news.
Proof.
  revert i w. induction n as [|n IH]; intros i w H.
  - simpl in H. injection H as <-. exists []. rewrite app_nil_r. repeat split. constructor.
  - simpl in H. destruct (train_iteration cfg (env i) i w) as [w1|] eqn:E1; [|discriminate].
    simpl in H. destruct (IH _ _ H) as (news & Es & Ep & Hc).
    pose proof (train_iteration_saved _ _ _ _ E1) as E1s.
    exists ((if i mod SAVE_NETWORK_FREQ cfg =? 0
             then [(checkpoint_path cfg i, SharedAdam.state_dict (shared_opt w1))] else [])
            ++ news).
    split; [rewrite Es, E1s, app_assoc; reflexivity|]. split.
    + simpl. rewrite fmap_app, Ep. destruct (_ =? 0); reflexivity.
    + apply Forall_app. split.
      * destruct (Z.eqb_spec (i mod SAVE_NETWORK_FREQ cfg) 0) as [E0|]; constructor; [|constructor].
        exists 0%nat, w1. split; [lia|]. split; [simpl; rewrite E1; reflexivity|].
        rewrite Z.add_0_r. auto.
      * eapply Forall_impl; [exact Hc|]. intros e (m & wj & Hm & Hit & Hmod & ->).
        exists (S m), wj. split; [lia|]. split.
        -- change (iterate cfg env (S (S m)) i w)
             with (train_iteration cfg (env i) i w ≫= fun w' => iterate cfg env (S m) (i + 1) w').
           rewrite E1. exact Hit.
        -- replace (i + Z.of_nat (S m)) with (i + 1 + Z.of_nat m) by lia. auto.
Qed.

(** C8, as the code has it.  The iteration index is the variable [i] of the
    loop of [train], which every worker counts for itself from 1 to below
    [TRAIN_ITERATIONS]; the code has no counter of global iterations.  When
    the first [n] iterations of a worker have run, it has written one
    checkpoint for every index of its own up to [n] that is a multiple of
    the configured interval, in order, and nothing else; the file of its
    iteration [j] is named by the experiment name and [j] padded with zeros
    to seven digits, and holds the parameters of the global network as they
    are at the end of that iteration. *)
Theorem checkpoints_written
    (env : Z -> observation) (i0 : Z) (shared : SharedAdam.optimizer)
    (w0 w' : worker) (n : nat) :
  init cfg i0 shared = Some w0 ->
  iterate cfg env n 1 w0 = Some w' ->
  train cfg env w0 = iterate cfg env (Z.to_nat (TRAIN_ITERATIONS cfg - 1)) 1 w0 /\
  (saved w').*1 = checkpoint_path cfg <$> save_indices cfg 1 n /\
  (forall j, j ∈ save_indices cfg 1 n <->
             1 <= j <= Z.of_nat n /\ j mod SAVE_NETWORK_FREQ cfg = 0) /\
  (forall j, 0 <= j ->
     checkpoint_path cfg j
     = (EXPERIMENT_NAME cfg ++ "/"
        ++ (zeros (7 - String.length (str j)) ++ str j) ++ ".pt")%string) /\
  Forall (fun e => exists (j : Z) (wj : worker),
              1 <= j <= Z.of_nat n /\ j mod SAVE_NETWORK_FREQ cfg = 0 /\
              iterate cfg env (Z.to_nat j) 1 w0 = Some wj /\
              e = (checkpoint_path cfg j, SharedAdam.state_dict (shared_opt wj)))
         (saved w').
Proof.
  intros H0 Ht. split; [reflexivity|].
  destruct (iterate_saved _ _ _ _ _ Ht) as (news & Es & Ep & Hc).
  destruct (init_inv cfg _ _ _ H0) as (_ & E0 & _). rewrite E0 in Es. simpl in Es. subst news.
  split; [exact Ep|]. split; [|split].
  - intros j. rewrite save_indices_spec. lia.
  - intros j Hj. unfold checkpoint_path. rewrite zfill_nonneg by exact Hj. reflexivity.
  - eapply Forall_impl; [exact Hc|]. intros e (m & wj & Hm & Hit & Hmod & ->).
    exists (1 + Z.of_nat m), wj. split; [lia|]. split; [exact Hmod|].
    replace (Z.to_nat (1 + Z.of_nat m)) with (S m) by lia. auto.
Qed.

End Checkpoints.

(** ** The exploration schedule *)

Section Schedule.

Import ActorCriticWorker.

Variable cfg : config.

(** The samples of [linspace] in closed form. *)
Lemma linspace_lookup (start stop : R) (num : Z) (k : nat) :
  2 <= num -> (k < Z.to_nat num)%nat ->
  exists eps,
    linspace start stop num = Some eps /\ length eps = Z.to_nat num /\
    eps !! k = Some (start + INR k * ((stop - start) / IZR (num - 1)))%R.
Proof.
  intros Hn Hk. unfold linspace.
  destruct (Z.ltb_spec num 0) as [|_]; [lia|].
  destruct (Z.ltb_spec 0 (num - 1)) as [_|]; [|lia].
  destruct (Z.ltb_spec 1 num) as [_|]; [|lia].
  eexists. split; [reflexivity|].
  rewrite length_insert, length_map, length_seq. split; [reflexivity|].
  destruct (decide (k = Z.to_nat num - 1)%nat) as [->|Hne].
  - rewrite list_lookup_insert_eq by (rewrite length_map, length_seq; lia).
    f_equal. rewrite INR_IZR_INZ.
    replace (Z.of_nat (Z.to_nat num - 1)) with (num - 1) by lia.
    assert (IZR (num - 1) <> 0%R) by (apply not_0_IZR; lia).
    field. assumption.
  - rewrite list_lookup_insert_ne by lia.
    rewrite list_lookup_fmap, lookup_seq_lt by lia. simpl. f_equal. lra.
Qed.

Lemma eps_at_lookup (eps : list R) (i : Z) :
  2 <= FINAL_EXPLORATION_FRAME cfg ->
  length eps = Z.to_nat (FINAL_EXPLORATION_FRAME cfg) ->
  0 <= i ->
  eps_at cfg eps i = eps !! Z.to_nat (Z.min i (FINAL_EXPLORATION_FRAME cfg - 1)).
Proof.
  intros Hn Hl Hi. unfold eps_at, getitem. rewrite Hl.
  set (m := Z.min i (FINAL_EXPLORATION_FRAME cfg - 1)).
  assert (0 <= m < FINAL_EXPLORATION_FRAME cfg) by lia.
  destruct (Z.ltb_spec m (- Z.of_nat (Z.to_nat (FINAL_EXPLORATION_FRAME cfg)))); [lia|].
  destruct (Z.leb_spec (Z.of_nat (Z.to_nat (FINAL_EXPLORATION_FRAME cfg))) m); [lia|].
  simpl. destruct (Z.ltb_spec m 0); [lia|]. reflexivity.
Qed.

(** C6. For a horizon of at least two samples and a final exploration rate
    that is not above the initial one, the schedule built by [__init__] and
    read by [train] starts at the initial rate, is at the final rate at the
    horizon, never increases, and stays at the final rate from the horizon
    on. *)
Theorem epsilon_schedule (i0 : Z) (shared : SharedAdam.optimizer) :
  2 <= FINAL_EXPLORATION_FRAME cfg ->
  (FINAL_EXPLORATION cfg <= INITIAL_EXPLORATION cfg)%R ->
  exists w,
    init cfg i0 shared = Some w /\
    eps_at cfg (epsilon w) 0 = Some (INITIAL_EXPLORATION cfg) /\
    eps_at cfg (epsilon w) (FINAL_EXPLORATION_FRAME cfg) = Some (FINAL_EXPLORATION cfg) /\
    (forall i j, 0 <= i <= j ->
       exists a b, eps_at cfg (epsilon w) i = Some a /\
                   eps_at cfg (epsilon w) j = Some b /\ (b <= a)%R) /\
    (forall i, FINAL_EXPLORATION_FRAME cfg <= i ->
       eps_at cfg (epsilon w) i = Some (FINAL_EXPLORATION cfg)).
Proof.
  intros Hn Hle.
  set (N := FINAL_EXPLORATION_FRAME cfg) in *.
  set (a := INITIAL_EXPLORATION cfg) in *. set (b := FINAL_EXPLORATION cfg) in *.
  destruct (linspace_lookup a b N 0 Hn ltac:(lia)) as (eps & El & Hlen & _).
  assert (Hk : forall k : nat, (k < Z.to_nat N)%nat ->
             eps !! k = Some (a + INR k * ((b - a) / IZR (N - 1)))%R).
  { intros k Hk. destruct (linspace_lookup a b N k Hn Hk) as (eps' & El' & _ & E).
    congruence. }
  assert (Hpos : (0 < IZR (N - 1))%R) by (apply IZR_lt; lia).
  assert (Hat : forall i, 0 <= i ->
             eps_at cfg eps i
             = Some (a + IZR (Z.min i (N - 1)) * ((b - a) / IZR (N - 1)))%R).
  { intros i Hi. rewrite eps_at_lookup by assumption. fold N.
    rewrite Hk by lia. rewrite INR_IZR_INZ, Z2Nat.id by lia. reflexivity. }
  assert (Hend : forall i, N - 1 <= i -> eps_at cfg eps i = Some b).
  { intros i Hi. rewrite Hat by lia. rewrite Z.min_r by lia. f_equal. field. lra. }
  unfold init. fold N a b. rewrite El. simpl. eexists. split; [reflexivity|]. simpl.
  split; [|split; [|split]].
  - rewrite Hat by lia. rewrite Z.min_l by lia. f_equal. lra.
  - apply Hend. lia.
  - intros i j Hij. do 2 eexists. rewrite !Hat by lia. split; [reflexivity|].
    split; [reflexivity|].
    assert (IZR (Z.min i (N - 1)) <= IZR (Z.min j (N - 1)))%R by (apply IZR_le; lia).
    assert ((b - a) / IZR (N - 1) <= 0)%R.
    { pose proof (Rinv_0_lt_compat _ Hpos). unfold Rdiv. nra. }
    nra.
  - intros i Hi. apply Hend. lia.
Qed.

End Schedule.

(** ** Pushing gradients *)

Section Pushes.

Import ActorCriticWorker.

Lemma set_grads_params_same gs ps :
  Forall2 SharedAdam.same_state ps (set_grads_params gs ps).
Proof.
  assert (R : forall l, Forall2 SharedAdam.same_state l l).
  { induction l; constructor; [repeat split|assumption]. }
  revert gs. induction ps as [|p ps IH]; intros gs.
  - destruct gs; constructor.
  - destruct gs as [|g gs]; simpl.
    + apply R.
    + constructor; [repeat split|apply IH].
Qed.

Lemma set_grads_same gs opt :
  Forall2 (fun g g' => Forall2 SharedAdam.same_state (SharedAdam.params g) (SharedAdam.params g'))
          opt (set_grads gs opt).
Proof.
  revert gs. induction opt as [|g opt IH]; intros gs; simpl; constructor.
  - simpl. apply set_grads_params_same.
  - apply IH.
Qed.

Lemma zero_grad_same opt :
  Forall2 (fun g g' => Forall2 SharedAdam.same_state (SharedAdam.params g) (SharedAdam.params g'))
          opt (SharedAdam.zero_grad opt).
Proof.
  unfold SharedAdam.zero_grad. induction opt as [|g opt IH]; simpl; constructor.
  - simpl. induction (SharedAdam.params g); simpl; constructor; [repeat split|assumption].
  - apply IH.
Qed.

(** What a push does to the counter of a parameter that ends with a
    gradient. *)
Lemma push_counts (gs : list (option tensor)) (opt opt' : SharedAdam.optimizer)
    (i j : nat) (g' : SharedAdam.group) (p' : SharedAdam.param) :
  push gs opt = Some opt' ->
  opt' !! i = Some g' -> SharedAdam.params g' !! j = Some p' ->
  is_Some (SharedAdam.grad p') ->
  exists g p, opt !! i = Some g /\ SharedAdam.params g !! j = Some p /\
              SharedAdam.state_step p' = S (SharedAdam.state_step p).
Proof.
  unfold push. intros Hs Hg' Hp' Hgr. apply step_inv in Hs.
  destruct (Forall2_lookup_r _ _ _ _ _ Hs Hg') as (g2 & Hg2 & Eg).
  apply step_group_inv in Eg as (_ & _ & _ & _ & Hps).
  destruct (Forall2_lookup_r _ _ _ _ _ Hps Hp') as (p2 & Hp2 & Ep).
  destruct (Forall2_lookup_r _ _ _ _ _ (set_grads_same gs _) Hg2) as (g1 & Hg1 & E1).
  destruct (Forall2_lookup_r _ _ _ _ _ E1 Hp2) as (p1 & Hp1 & (_ & S1 & _)).
  destruct (Forall2_lookup_r _ _ _ _ _ (zero_grad_same opt) Hg1) as (g & Hg & E0).
  destruct (Forall2_lookup_r _ _ _ _ _ E0 Hp1) as (p & Hp & (_ & S0 & _)).
  exists g, p. split; [exact Hg|]. split; [exact Hp|].
  destruct (SharedAdam.grad p2) as [gr|] eqn:Egr.
  - destruct (step_param_touched _ _ _ _ Egr Ep) as (-> & _). congruence.
  - rewrite (step_param_null _ _ Egr) in Ep. injection Ep as <-.
    rewrite Egr in Hgr. destruct Hgr as [? [=]].
Qed.

Lemma push_total (gs : list (option tensor)) (opt : SharedAdam.optimizer) :
  SharedAdam.wf (set_grads gs (SharedAdam.zero_grad opt)) ->
  exists opt', push gs opt = Some opt'.
Proof. intros W. destruct (step_total _ W) as (opt' & E & _). exists opt'. exact E. Qed.

End Pushes.

Section Cycle.

Import ActorCriticWorker.

Variable cfg : config.

(** C7, as the code has it. [optimize_model] has no test of the loss: every
    cycle that returns has pushed its gradients through [step], finite loss
    or not, and every parameter that holds a gradient afterwards has had
    its step counter incremented. *)
Theorem optimize_model_always_steps
    (w w' : worker) (o : observation) (l : scalar)
    (i j : nat) (g' : SharedAdam.group) (p' : SharedAdam.param) :
  optimize_model cfg w o = Some (w', l) ->
  shared_opt w' !! i = Some g' -> SharedAdam.params g' !! j = Some p' ->
  is_Some (SharedAdam.grad p') ->
  push (grads o) (shared_opt w) = Some (shared_opt w') /\
  exists g p, shared_opt w !! i = Some g /\ SharedAdam.params g !! j = Some p /\
              SharedAdam.state_step p' = S (SharedAdam.state_step p).
Proof.
  intros H Hg' Hp' Hgr.
  destruct (optimize_model_inv cfg _ _ _ _ H) as (acc & _ & _ & Ep & _).
  split; [exact Ep|]. eapply push_counts; eassumption.
Qed.

End Cycle.


Section CycleExamples.

Import ActorCriticWorker.

Lemma push_touches (gs : list (option tensor)) (opt opt' : SharedAdam.optimizer)
    (i j : nat) (g : SharedAdam.group) (p : SharedAdam.param) (gr : tensor) :
  push gs opt = Some opt' ->
  set_grads gs (SharedAdam.zero_grad opt) !! i = Some g ->
  SharedAdam.params g !! j = Some p ->
  SharedAdam.grad p = Some gr ->
  exists g' p', opt' !! i = Some g' /\ SharedAdam.params g' !! j = Some p' /\
                SharedAdam.state_step p' = S (SharedAdam.state_step p) /\
                SharedAdam.grad p' = Some gr.
Proof.
  unfold push. intros Hs Hg Hp Hgr. apply step_inv in Hs.
  destruct (Forall2_lookup_l _ _ _ _ _ Hs Hg) as (g' & Hg' & Eg).
  apply step_group_inv in Eg as (_ & _ & _ & _ & Hps).
  destruct (Forall2_lookup_l _ _ _ _ _ Hps Hp) as (p' & Hp' & Ep).
  destruct (step_param_touched _ _ _ _ Hgr Ep) as (Ht & Hg2 & _).
  eauto 10.
Qed.

(** A cycle on a non-finite loss, from a fresh worker. *)
Lemma nonfinite_cycle :
  exists w0 w1 w2 l g1 p1 g2 p2,
    init Examples.cfg 0 Examples.two_tensors = Some w0 /\
    collect w0 Examples.nan_step = Some w1 /\
    optimize_model Examples.cfg w1 Examples.nan_step = Some (w2, l) /\
    is_finite (item l) = false /\
    shared_opt w1 !! 0%nat = Some g1 /\ SharedAdam.params g1 !! 0%nat = Some p1 /\
    shared_opt w2 !! 0%nat = Some g2 /\ SharedAdam.params g2 !! 0%nat = Some p2 /\
    SharedAdam.state_step p1 = 0%nat /\ SharedAdam.state_step p2 = 1%nat /\
    is_Some (SharedAdam.grad p2).
Proof.
  destruct (push_total [Some [NaN]; None] Examples.two_tensors) as (opt' & Ep).
  { repeat constructor; simpl; lra. }
  destruct (push_touches _ _ _ 0%nat 0%nat _ _ [NaN] Ep eq_refl eq_refl eq_refl)
    as (g2 & p2 & Hg2 & Hp2 & Hc & Hgr).
  assert (exists h acc,
             losses Examples.cfg (fst (new_buffer []))
               [[Scalar NaN true]; [Scalar (Fin (-1)) true]; [number 1];
                [Scalar (Fin 0.5) true]] 1 (number 0) = Some (h, acc)
             /\ item (total_loss Examples.cfg acc) = NaN) as (h & acc & El & En).
  { do 2 eexists. split; vm_compute; reflexivity. }
  do 2 eexists. eexists _, (total_loss Examples.cfg acc), _, _, g2, p2.
  split; [vm_compute; reflexivity|].
  split; [vm_compute; reflexivity|].
  split.
  { unfold optimize_model.
    change (losses _ _ _ _ _)
      with (losses Examples.cfg (fst (new_buffer []))
              [[Scalar NaN true]; [Scalar (Fin (-1)) true]; [number 1];
               [Scalar (Fin 0.5) true]] 1 (number 0)).
    rewrite El. simpl.
    change (push _ _) with (push [Some [NaN]; None] Examples.two_tensors).
    rewrite Ep. simpl. reflexivity. }
  split; [rewrite En; reflexivity|]. simpl.
  split; [reflexivity|]. split; [reflexivity|].
  split; [exact Hg2|]. split; [exact Hp2|]. split; [reflexivity|].
  split; [exact Hc|]. rewrite Hgr. eauto.
Qed.

(** C7 fails as stated: from a fresh worker, a terminal step on which the
    network returns a non-finite value gives a non-finite loss, and the
    cycle still takes the step counter of the first shared parameter from 0
    to 1. *)
Lemma nonfinite_loss_counterexample :
  exists w1 w2 l g1 p1 g2 p2,
    optimize_model Examples.cfg w1 Examples.nan_step = Some (w2, l) /\
    is_finite (item l) = false /\
    shared_opt w1 !! 0%nat = Some g1 /\ SharedAdam.params g1 !! 0%nat = Some p1 /\
    shared_opt w2 !! 0%nat = Some g2 /\ SharedAdam.params g2 !! 0%nat = Some p2 /\
    SharedAdam.state_step p1 = 0%nat /\ SharedAdam.state_step p2 = 1%nat /\
    shared_opt w2 <> shared_opt w1.
Proof.
  destruct nonfinite_cycle
    as (w0 & w1 & w2 & l & g1 & p1 & g2 & p2 & _ & _ & Ho & Hl & Hg1 & Hp1 & Hg2 & Hp2 & H0 & H1 & _).
  exists w1, w2, l, g1, p1, g2, p2. repeat split; try assumption.
  intros E. rewrite E in Hg2. congruence.
Qed.

Lemma optimize_model_always_steps_witness :
  exists w1 w2 l,
    optimize_model Examples.cfg w1 Examples.nan_step = Some (w2, l) /\
    push (grads Examples.nan_step) (shared_opt w1) = Some (shared_opt w2).
Proof.
  destruct nonfinite_cycle
    as (w0 & w1 & w2 & l & g1 & p1 & g2 & p2 & _ & _ & Ho & _ & _ & _ & Hg2 & Hp2 & _ & _ & Hgr).
  exists w1, w2, l. split; [exact Ho|].
  exact (proj1 (optimize_model_always_steps Examples.cfg w1 w2 Examples.nan_step l
                  0%nat 0%nat g2 p2 Ho Hg2 Hp2 Hgr)).
Defined.

End CycleExamples.

(** ** A run on concrete inputs *)

Section Runs.

Import ActorCriticWorker.

(** An iteration that flushes, step by step. *)
Lemma train_iteration_flush (cfg : config) (o : observation) (i : Z) (w w1 : worker)
    (h : list (list scalar)) (acc : scalar * scalar * scalar)
    (opt' : SharedAdam.optimizer) :
  is_Some (eps_at cfg (epsilon w) i) ->
  collect w o = Some w1 ->
  flush_due cfg w1 o = Some true ->
  losses cfg (buffer w1) (store w1) (buffer_length w1) (bootstrap o) = Some (h, acc) ->
  push (grads o) (shared_opt w1) = Some opt' ->
  SAVE_NETWORK_FREQ cfg <> 0 ->
  (i mod 100 =? 0) && (id w1 =? 2) = false ->
  let w2 := {| id := id w1; net := SharedAdam.state_dict opt'; shared_opt := opt';
               buffer := (fun _ => length h) <$> buffer w1; store := h ++ [[]];
               buffer_length := 0; epsilon := epsilon w1;
               loss := Some (total_loss cfg acc);
               eplen := if done o then 0 else eplen w1; saved := saved w1 |} in
  train_iteration cfg o i w
  = Some (if i mod SAVE_NETWORK_FREQ cfg =? 0 then save_network cfg w2 i else w2).
Proof.
  intros [e He] Hc Hd Hl Hp Hs Hlog. unfold train_iteration.
  rewrite He, Hc. simpl. rewrite Hd. simpl.
  unfold flush, optimize_model. rewrite Hl. simpl. rewrite Hp. simpl.
  unfold py_mod. destruct (Z.eqb_spec (SAVE_NETWORK_FREQ cfg) 0); [contradiction|].
  simpl. destruct (i mod SAVE_NETWORK_FREQ cfg =? 0); simpl; rewrite Hlog; reflexivity.
Qed.

(** The worker of [Examples]: the first iteration ends the episode and
    flushes, the next three collect. *)
Lemma example_run :
  exists w0 w1 w2 w3,
    init Examples.cfg 0 Examples.two_tensors = Some w0 /\
    flushes Examples.cfg w0 (Examples.env 1) = true /\
    train_iteration Examples.cfg (Examples.env 1) 1 w0 = Some w1 /\
    iterate Examples.cfg Examples.env 2 (1 + 1) w1 = Some w2 /\
    flushes Examples.cfg w2 (Examples.env 4) = false /\
    train_iteration Examples.cfg (Examples.env 4) 4 w2 = Some w3 /\
    iterate Examples.cfg Examples.env 3 1 w0 = Some w2 /\
    train Examples.cfg Examples.env w0 = Some w3.
Proof.
  destruct (push_total [Some [Fin 1]; None] Examples.two_tensors) as (opt' & Ep).
  { repeat constructor; simpl; lra. }
  evar (w0 : worker).
  assert (H0 : init Examples.cfg 0 Examples.two_tensors = Some w0)
    by (unfold w0; vm_compute; reflexivity).
  evar (w1 : worker).
  assert (H1 : train_iteration Examples.cfg (Examples.env 1) 1 w0 = Some w1).
  { unfold w1. eapply train_iteration_flush.
    - eexists. vm_compute. reflexivity.
    - vm_compute. reflexivity.
    - reflexivity.
    - vm_compute. reflexivity.
    - exact Ep.
    - discriminate.
    - reflexivity. }
  evar (w2 : worker).
  assert (H2 : iterate Examples.cfg Examples.env 2 (1 + 1) w1 = Some w2)
    by (unfold w2; vm_compute; reflexivity).
  evar (w3 : worker).
  assert (H3 : train_iteration Examples.cfg (Examples.env 4) 4 w2 = Some w3)
    by (unfold w3; vm_compute; reflexivity).
  assert (H4 : iterate Examples.cfg Examples.env 3 1 w0 = Some w2).
  { change (iterate Examples.cfg Examples.env 3 1 w0)
      with (train_iteration Examples.cfg (Examples.env 1) 1 w0
            ≫= fun w' => iterate Examples.cfg Examples.env 2 (1 + 1) w').
    rewrite H1. exact H2. }
  exists w0, w1, w2, w3. repeat split; try assumption; try reflexivity.
  unfold train.
  change (iterate Examples.cfg Examples.env _ 1 w0)
    with (train_iteration Examples.cfg (Examples.env 1) 1 w0
          ≫= fun w' => iterate Examples.cfg Examples.env 3 (1 + 1) w').
  rewrite H1. simpl mbind. unfold w1, w2, w3. vm_compute. reflexivity.
Qed.

End Runs.

(** ** Instances of the theorems above on the run of [example_run] *)

Section Instances.

Import ActorCriticWorker.

Lemma buffer_aliased_after_flush_witness :
  exists w0 w3,
    init Examples.cfg 0 Examples.two_tensors = Some w0 /\
    train Examples.cfg Examples.env w0 = Some w3 /\
    aliased w3.
Proof.
  destruct example_run as (w0 & w1 & w2 & w3 & H0 & Hf & H1 & H2 & Hnf & H3 & H4 & Ht).
  destruct (buffer_aliased_after_flush Examples.cfg Examples.env _ _ 1 4 2
              w0 w1 w2 w3 Hf H1 H2 H3) as (l & xs & _ & _ & Ha & _).
  exists w0, w3. auto.
Defined.

Lemma buffer_length_bounded_witness :
  exists w0 w2,
    init Examples.cfg 0 Examples.two_tensors = Some w0 /\
    iterate Examples.cfg Examples.env 3 1 w0 = Some w2 /\
    0 <= buffer_length w2 < 5.
Proof.
  destruct example_run as (w0 & w1 & w2 & w3 & H0 & Hf & H1 & H2 & Hnf & H3 & H4 & Ht).
  exists w0, w2. split; [exact H0|]. split; [exact H4|].
  exact (proj1 (buffer_length_bounded Examples.cfg Examples.env 0 Examples.two_tensors
                  w0 w2 w3 3 (Examples.env 4) 4 eq_refl H0 H4 H3)).
Defined.

Lemma checkpoints_written_witness :
  exists w0 w3,
    init Examples.cfg 0 Examples.two_tensors = Some w0 /\
    train Examples.cfg Examples.env w0 = Some w3 /\
    (saved w3).*1 = ["exp/0000002.pt"; "exp/0000004.pt"]%string.
Proof.
  destruct example_run as (w0 & w1 & w2 & w3 & H0 & Hf & H1 & H2 & Hnf & H3 & H4 & Ht).
  exists w0, w3. split; [exact H0|]. split; [exact Ht|].
  exact (proj1 (proj2 (checkpoints_written Examples.cfg Examples.env 0
                         Examples.two_tensors w0 w3 4 H0 Ht))).
Defined.

Lemma epsilon_schedule_witness :
  exists w,
    init Examples.cfg 0 Examples.two_tensors = Some w /\
    eps_at Examples.cfg (epsilon w) 0 = Some 1%R /\
    eps_at Examples.cfg (epsilon w) 4 = Some 0.1%R.
Proof.
  destruct (epsilon_schedule Examples.cfg 0 Examples.two_tensors)
    as (w & Hi & Ha & Hb & _).
  - simpl. lia.
  - simpl. lra.
  - exists w. auto.
Defined.

Lemma losses_deterministic_witness :
  exists wa wb,
    init Examples.cfg 0 Examples.two_tensors ≫= (fun w => collect w Examples.terminal_step)
      = Some wa /\
    init Examples.cfg 7 [] ≫= (fun w => collect w Examples.terminal_step) = Some wb /\
    snd <$> losses Examples.cfg (buffer wa) (store wa) (buffer_length wa)
              (bootstrap Examples.terminal_step)
    = snd <$> losses Examples.cfg (buffer wb) (store wb) (buffer_length wb)
                (bootstrap Examples.nan_step).
Proof.
  eexists _, _. split; [vm_compute; reflexivity|]. split; [vm_compute; reflexivity|].
  apply losses_deterministic.
  - reflexivity.
  - intros k l _ _. reflexivity.
  - reflexivity.
  - reflexivity.
Defined.

End Instances.

(** ** The losses after the first flush *)

Section AfterFlush.

Import ActorCriticWorker.

(** C4, at an input on which the code and the claim differ.  With a flush
    after every step, the first iteration of a fresh worker flushes and
    [dict.fromkeys] binds the four keys to one list.  The second iteration
    takes a step with value 0.5, log-probability -1, reward 1 and entropy
    0.5 and flushes again, with the bootstrap value 0.25 of the next state.
    The one list then is [0.5, -1, 1, 0.5, 0.25], and the loop of
    [optimize_model] reads entry 0 of it as the reward, the value, the
    log-probability and the entropy of the step and entry 1 as the value
    that follows: it ends with [gae = 0.5 + 0.99 * -1 - 0.5 = -0.99] and
    the policy loss [-(0.5 * -0.99 - 0.01 * 0.5) = 0.5], while the
    accumulation of the specification over the step gives
    [gae = 1 + 0.99 * 0.25 - 0.5 = 0.7475] and the policy loss
    [-(-1 * 0.7475 - 0.01 * 0.5) = 0.7525]. *)
Theorem policy_loss_at_failing_input :
  exists w0 w1 w2 h lv pl gae,
    init EdgeCases.cfg_eager 0 Examples.two_tensors = Some w0 /\
    train_iteration EdgeCases.cfg_eager (EdgeCases.calm_env 1) 1 w0 = Some w1 /\
    collect w1 (EdgeCases.calm_env 2) = Some w2 /\
    flush_due EdgeCases.cfg_eager w2 (EdgeCases.calm_env 2) = Some true /\
    losses EdgeCases.cfg_eager (buffer w2) (store w2) (buffer_length w2)
           (bootstrap (EdgeCases.calm_env 2)) = Some (h, (lv, pl, gae)) /\
    item gae = Fin (-0.99) /\ item pl = Fin 0.5 /\
    item (snd (policy_loss_spec EdgeCases.cfg_eager
                 [reward (EdgeCases.calm_env 2)] [value (EdgeCases.calm_env 2)]
                 [log_prob (EdgeCases.calm_env 2)] [entropy (EdgeCases.calm_env 2)]
                 (bootstrap (EdgeCases.calm_env 2)))) = Fin 0.7475 /\
    item (fst (policy_loss_spec EdgeCases.cfg_eager
                 [reward (EdgeCases.calm_env 2)] [value (EdgeCases.calm_env 2)]
                 [log_prob (EdgeCases.calm_env 2)] [entropy (EdgeCases.calm_env 2)]
                 (bootstrap (EdgeCases.calm_env 2)))) = Fin 0.7525.
Proof.
  destruct (push_total [Some [Fin 1]; None] Examples.two_tensors) as (opt' & Ep).
  { repeat constructor; simpl; lra. }
  evar (w0 : worker).
  assert (H0 : init EdgeCases.cfg_eager 0 Examples.two_tensors = Some w0)
    by (unfold w0; vm_compute; reflexivity).
  evar (w1 : worker).
  assert (H1 : train_iteration EdgeCases.cfg_eager (EdgeCases.calm_env 1) 1 w0 = Some w1).
  { unfold w1. eapply train_iteration_flush.
    - eexists. vm_compute. reflexivity.
    - vm_compute. reflexivity.
    - reflexivity.
    - vm_compute. reflexivity.
    - exact Ep.
    - discriminate.
    - reflexivity. }
  evar (w2 : worker).
  assert (H2 : collect w1 (EdgeCases.calm_env 2) = Some w2)
    by (unfold w1, w2; vm_compute; reflexivity).
  exists w0, w1, w2. do 4 eexists.
  split; [exact H0|]. split; [exact H1|]. split; [exact H2|].
  split; [reflexivity|].
  split; [unfold w2; vm_compute; reflexivity|].
  repeat split; vm_compute; f_equal; lra.
Qed.

End AfterFlush.

(** ** Several workers *)

Section Workers.

Import ActorCriticWorker.

(** C8 fails as stated.  Two workers run one after the other, four
    iterations each, with a checkpoint interval of 2.  The second worker
    starts iteration 2 of its own loop at global iteration 6 and iteration 4
    at global iteration 8, and writes the files numbered 2 and 4 again: the
    checkpoints at the multiples of the interval among the eight global
    iterations, named by the global iteration, would be those numbered 2,
    4, 6 and 8. *)
Lemma global_index_counterexample :
  exists opt fs,
    Trainer.run_in_turn Examples.cfg (fun _ => EdgeCases.calm_env) 2 0
                        Examples.two_tensors [] = Some (opt, fs) /\
    fs.*1 = ["exp/0000002.pt"; "exp/0000004.pt"; "exp/0000002.pt"; "exp/0000004.pt"]%string /\
    Trainer.global_iteration Examples.cfg 1 2 = 6 /\
    Trainer.global_iteration Examples.cfg 1 4 = 8 /\
    Trainer.checkpoints_spec Examples.cfg 8
    = ["exp/0000002.pt"; "exp/0000004.pt"; "exp/0000006.pt"; "exp/0000008.pt"]%string /\
    fs.*1 <> Trainer.checkpoints_spec Examples.cfg 8.
Proof.
  do 2 eexists. split; [vm_compute; reflexivity|].
  split; [vm_compute; reflexivity|].
  split; [reflexivity|]. split; [reflexivity|].
  split; [vm_compute; reflexivity|].
  vm_compute. discriminate.
Qed.

End Workers.

(** * Further properties of the code *)

(** ** What a step of the optimizer leaves alone *)

Section AdamFrame.

Lemma step_param_frame (g : SharedAdam.group) (p p' : SharedAdam.param) :
  SharedAdam.step_param g p = Some p' ->
  SharedAdam.grad p' = SharedAdam.grad p /\
  length (SharedAdam.data p') = length (SharedAdam.data p) /\
  length (SharedAdam.state_exp_avg p') = length (SharedAdam.state_exp_avg p) /\
  length (SharedAdam.state_exp_avg_sq p') = length (SharedAdam.state_exp_avg_sq p) /\
  (SharedAdam.state_step p <= SharedAdam.state_step p' <= S (SharedAdam.state_step p))%nat.
Proof.
  unfold SharedAdam.step_param.
  destruct (SharedAdam.grad p) as [gr|] eqn:E.
  2:{ intros [= <-]. rewrite E. repeat split; lia. }
  destruct (SharedAdam.betas g) as [b1 b2]. intros H.
  destruct (if Req_dec_T _ _ then _ else _) as [grad1|]; [|discriminate]. simpl in H.
  destruct (add_ _ _ _) as [m|] eqn:Em; [|discriminate]. simpl in H.
  destruct (addcmul_ _ _ _ _) as [v|] eqn:Ev; [|discriminate]. simpl in H.
  destruct (SharedAdam.step_size _ _); [|discriminate]. simpl in H.
  destruct (addcdiv_ _ _ _ _) as [d|] eqn:Ed; [|discriminate]. simpl in H.
  injection H as <-. simpl.
  unfold add_ in Em. apply elementwise_length in Em as [Em _]. rewrite mul__length in Em.
  unfold addcmul_ in Ev. destruct (elementwise fmul _ _); [|discriminate]. simpl in Ev.
  apply elementwise_length in Ev as [Ev _]. rewrite mul__length in Ev.
  unfold addcdiv_ in Ed. destruct (elementwise fdiv _ _); [|discriminate]. simpl in Ed.
  apply elementwise_length in Ed as [Ed _].
  repeat split; auto; lia.
Qed.

Lemma step_preserves (opt opt' : SharedAdam.optimizer) :
  SharedAdam.step opt = Some opt' ->
  Forall2 (fun g g' =>
             SharedAdam.lr g' = SharedAdam.lr g /\
             SharedAdam.betas g' = SharedAdam.betas g /\
             SharedAdam.eps g' = SharedAdam.eps g /\
             SharedAdam.weight_decay g' = SharedAdam.weight_decay g /\
             Forall2 (fun p p' =>
                        SharedAdam.grad p' = SharedAdam.grad p /\
                        length (SharedAdam.data p') = length (SharedAdam.data p) /\
                        length (SharedAdam.state_exp_avg p')
                          = length (SharedAdam.state_exp_avg p) /\
                        length (SharedAdam.state_exp_avg_sq p')
                          = length (SharedAdam.state_exp_avg_sq p) /\
                        (SharedAdam.state_step p <= SharedAdam.state_step p'
                         <= S (SharedAdam.state_step p))%nat)
                     (SharedAdam.params g) (SharedAdam.params g'))
          opt opt'.
Proof.
  intros H. apply step_inv in H.
  eapply Forall2_impl; [exact H|]. intros g g' Hg.
  apply step_group_inv in Hg as (E1 & E2 & E3 & E4 & Hps).
  repeat split; try assumption.
  eapply Forall2_impl; [exact Hps|]. intros p p'. apply step_param_frame.
Qed.

(** X1. [step] changes neither the hyperparameters nor the gradients, keeps the
    number of groups and of parameters and the size of every tensor, and a
    step counter moves by at most one and never down. *)
Theorem step_frame (opt opt' : SharedAdam.optimizer) :
  SharedAdam.step opt = Some opt' ->
  Forall2 (fun g g' =>
             SharedAdam.lr g' = SharedAdam.lr g /\
             SharedAdam.betas g' = SharedAdam.betas g /\
             SharedAdam.eps g' = SharedAdam.eps g /\
             SharedAdam.weight_decay g' = SharedAdam.weight_decay g /\
             Forall2 (fun p p' =>
                        SharedAdam.grad p' = SharedAdam.grad p /\
                        length (SharedAdam.data p') = length (SharedAdam.data p) /\
                        length (SharedAdam.state_exp_avg p')
                          = length (SharedAdam.state_exp_avg p) /\
                        length (SharedAdam.state_exp_avg_sq p')
                          = length (SharedAdam.state_exp_avg_sq p) /\
                        (SharedAdam.state_step p <= SharedAdam.state_step p'
                         <= S (SharedAdam.state_step p))%nat)
                     (SharedAdam.params g) (SharedAdam.params g'))
          opt opt'.
Proof. exact (step_preserves opt opt'). Qed.

End AdamFrame.

(** ** The assignment of the local gradients *)

Section GradientAssignment.

Import ActorCriticWorker.

Lemma set_grads_params_grads (gs : list (option tensor)) (ps : list SharedAdam.param) :
  SharedAdam.grad <$> set_grads_params gs ps
  = take (length ps) gs ++ drop (length gs) (SharedAdam.grad <$> ps).
Proof.
  revert gs. induction ps as [|p ps IH]; intros gs.
  - destruct gs; reflexivity.
  - destruct gs as [|g gs]; [reflexivity|]. simpl. f_equal. apply IH.
Qed.

Lemma set_grads_params_length (gs : list (option tensor)) (ps : list SharedAdam.param) :
  length (set_grads_params gs ps) = length ps.
Proof.
  revert gs. induction ps as [|p ps IH]; intros gs; destruct gs; simpl; auto.
Qed.

Lemma set_grads_grads (gs : list (option tensor)) (opt : SharedAdam.optimizer) :
  SharedAdam.grad <$> SharedAdam.parameters (set_grads gs opt)
  = take (length (SharedAdam.parameters opt)) gs
    ++ drop (length gs) (SharedAdam.grad <$> SharedAdam.parameters opt).
Proof.
  unfold SharedAdam.parameters. revert gs. induction opt as [|g opt IH]; intros gs.
  - simpl. rewrite drop_nil. reflexivity.
  - simpl. rewrite !fmap_app, IH, set_grads_params_grads, length_app, length_drop.
    set (ps := SharedAdam.params g). set (rest := concat (map SharedAdam.params opt)).
    destruct (decide (length ps <= length gs)%nat) as [Hle|Hgt].
    + rewrite (drop_ge (SharedAdam.grad <$> ps)) by (rewrite length_fmap; lia).
      rewrite app_nil_r, app_assoc. f_equal.
      * rewrite take_take_drop. reflexivity.
      * rewrite drop_app_ge by (rewrite length_fmap; lia). rewrite length_fmap. reflexivity.
    + rewrite (drop_ge gs) by lia. rewrite take_nil, app_nil_l.
      rewrite !take_ge by lia.
      replace (length gs - length ps)%nat with 0%nat by lia. rewrite drop_0.
      rewrite drop_app_le by (rewrite length_fmap; lia).
      rewrite app_assoc. reflexivity.
Qed.

Lemma zero_grad_parameters (opt : SharedAdam.optimizer) :
  SharedAdam.parameters (SharedAdam.zero_grad opt)
  = SharedAdam.zero_grad_param <$> SharedAdam.parameters opt.
Proof.
  unfold SharedAdam.parameters, SharedAdam.zero_grad.
  induction opt as [|g opt IH]; [reflexivity|].
  simpl. rewrite fmap_app, IH. reflexivity.
Qed.

Lemma parameters_same_state (o o' : SharedAdam.optimizer) :
  Forall2 (fun g g' => Forall2 SharedAdam.same_state
                         (SharedAdam.params g) (SharedAdam.params g')) o o' ->
  Forall2 SharedAdam.same_state (SharedAdam.parameters o) (SharedAdam.parameters o').
Proof.
  unfold SharedAdam.parameters. induction 1; simpl; [constructor|].
  apply Forall2_app; assumption.
Qed.

Lemma same_state_trans (a b c : list SharedAdam.param) :
  Forall2 SharedAdam.same_state a b -> Forall2 SharedAdam.same_state b c ->
  Forall2 SharedAdam.same_state a c.
Proof.
  intros Hab. revert c. induction Hab as [|x y a b Hxy Hab IH]; intros c Hbc.
  - inversion Hbc. constructor.
  - inversion Hbc as [|y' z b' c' Hyz Hbc']; subst. constructor; [|apply IH, Hbc'].
    destruct Hxy as (?&?&?&?), Hyz as (?&?&?&?). repeat split; congruence.
Qed.

(** The gradients and the state after [zero_grad] and the assignment. *)
Lemma set_grads_after_zero (gs : list (option tensor)) (opt : SharedAdam.optimizer) :
  SharedAdam.grad <$> SharedAdam.parameters (set_grads gs (SharedAdam.zero_grad opt))
  = take (length (SharedAdam.parameters opt)) gs
    ++ drop (length gs)
         (fmap zeros_like <$> (SharedAdam.grad <$> SharedAdam.parameters opt)) /\
  Forall2 SharedAdam.same_state
          (SharedAdam.parameters opt)
          (SharedAdam.parameters (set_grads gs (SharedAdam.zero_grad opt))).
Proof.
  split.
  - rewrite set_grads_grads, zero_grad_parameters, length_fmap.
    rewrite <- !list_fmap_compose. reflexivity.
  - eapply same_state_trans; apply parameters_same_state;
      [apply zero_grad_same|apply set_grads_same].
Qed.

(** X2. The loop [for lp, gp in zip(...): gp._grad = lp.grad] assigns by
    position over all parameters of the global network, whatever the groups
    of the optimizer: parameter [j] takes the [j]-th local gradient, a null
    one included; the parameters beyond the end of the local list keep the
    gradient they had and the local gradients beyond the last parameter are
    dropped; values, counters and moments are not touched. *)
Theorem set_grads_positional (gs : list (option tensor)) (opt : SharedAdam.optimizer) :
  SharedAdam.grad <$> SharedAdam.parameters (set_grads gs opt)
  = take (length (SharedAdam.parameters opt)) gs
    ++ drop (length gs) (SharedAdam.grad <$> SharedAdam.parameters opt) /\
  length (SharedAdam.parameters (set_grads gs opt)) = length (SharedAdam.parameters opt) /\
  Forall2 SharedAdam.same_state
          (SharedAdam.parameters opt) (SharedAdam.parameters (set_grads gs opt)).
Proof.
  assert (H : Forall2 SharedAdam.same_state
                (SharedAdam.parameters opt) (SharedAdam.parameters (set_grads gs opt)))
    by apply parameters_same_state, set_grads_same.
  split; [apply set_grads_grads|]. split; [|exact H].
  symmetry. eapply Forall2_length, H.
Qed.

End GradientAssignment.

(** ** Step counters over a sequence of pushes *)

Section Counters.

Import ActorCriticWorker.

Lemma step_parameters (opt opt' : SharedAdam.optimizer) :
  SharedAdam.step opt = Some opt' ->
  Forall2 (fun p p' => exists g, SharedAdam.step_param g p = Some p')
          (SharedAdam.parameters opt) (SharedAdam.parameters opt').
Proof.
  intros H. apply step_inv in H. unfold SharedAdam.parameters.
  induction H as [|g g' opt opt' Hg H IH]; simpl; [constructor|].
  apply Forall2_app; [|exact IH].
  apply step_group_inv in Hg as (_ & _ & _ & _ & Hps).
  eapply Forall2_impl; [exact Hps|]. intros p p' E. exists g. exact E.
Qed.

(** What one push does to the counters, when there is a local gradient,
    null or not, for every parameter. *)
Lemma push_counter (gs : list (option tensor)) (opt opt' : SharedAdam.optimizer)
    (j : nat) (p' : SharedAdam.param) :
  push gs opt = Some opt' ->
  length gs = length (SharedAdam.parameters opt) ->
  SharedAdam.parameters opt' !! j = Some p' ->
  exists p, SharedAdam.parameters opt !! j = Some p /\
            SharedAdam.state_step p'
            = ((if has_gradient j gs then 1 else 0) + SharedAdam.state_step p)%nat.
Proof.
  intros Hp Hlen Hj.
  destruct (set_grads_after_zero gs opt) as (Hgr & Hsame).
  unfold push in Hp. apply step_parameters in Hp.
  destruct (Forall2_lookup_r _ _ _ _ _ Hp Hj) as (q & Hq & g & Hstep).
  destruct (Forall2_lookup_r _ _ _ _ _ Hsame Hq) as (p & Hpj & _ & Hst & _).
  exists p. split; [exact Hpj|].
  assert (Hg : gs !! j = Some (SharedAdam.grad q)).
  { rewrite Hlen, take_ge, drop_ge, app_nil_r in Hgr by (rewrite ?length_fmap; lia).
    rewrite <- Hgr, list_lookup_fmap, Hq. reflexivity. }
  unfold has_gradient. rewrite Hg.
  destruct (SharedAdam.grad q) as [gr|] eqn:Egr.
  - destruct (step_param_touched _ _ _ _ Egr Hstep) as (-> & _). lia.
  - rewrite (step_param_null _ _ Egr) in Hstep. injection Hstep as <-. lia.
Qed.

Lemma push_parameters_length (gs : list (option tensor)) (opt opt' : SharedAdam.optimizer) :
  push gs opt = Some opt' ->
  length (SharedAdam.parameters opt') = length (SharedAdam.parameters opt).
Proof.
  intros Hp. destruct (set_grads_after_zero gs opt) as (_ & Hsame).
  unfold push in Hp. apply step_parameters in Hp.
  apply Forall2_length in Hp, Hsame. lia.
Qed.

Lemma apply_calls_counter (calls : list (list (option tensor)))
    (opt opt' : SharedAdam.optimizer) (j : nat) (p' : SharedAdam.param) :
  Forall (fun gs => length gs = length (SharedAdam.parameters opt)) calls ->
  apply_calls calls opt = Some opt' ->
  SharedAdam.parameters opt' !! j = Some p' ->
  exists p, SharedAdam.parameters opt !! j = Some p /\
            SharedAdam.state_step p' = (SharedAdam.state_step p + times_touched j calls)%nat.
Proof.
  unfold apply_calls. revert opt. induction calls as [|gs calls IH]; intros opt Hall H Hj.
  - simpl in H. injection H as <-. exists p'. split; [exact Hj|]. simpl. lia.
  - simpl in H. destruct (push gs opt) as [opt1|] eqn:E1; [|discriminate]. simpl in H.
    inversion Hall as [|? ? Hgs Hrest]; subst.
    destruct (IH opt1) as (p1 & Hp1 & Hc1); [|exact H|exact Hj|].
    { rewrite (push_parameters_length _ _ _ E1). exact Hrest. }
    destruct (push_counter _ _ _ _ _ E1 Hgs Hp1) as (p & Hp & Hc).
    exists p. split; [exact Hp|]. simpl. lia.
Qed.

Lemma times_touched_le (j : nat) (calls : list (list (option tensor))) :
  (times_touched j calls <= length calls)%nat.
Proof.
  induction calls as [|gs calls IH]; simpl; [lia|].
  destruct (has_gradient j gs); lia.
Qed.

(** X3. Starting from a fresh optimizer, the step counter of a parameter is the
    number of pushes in which the local network had a gradient for it; the
    pushes are those that hand over one gradient, null or not, per
    parameter, and there are at most [2^24] of them, so that the float32
    counter of the code has counted every one. *)
Theorem counter_counts_gradients (ps : list tensor) (learning_rate : R)
    (calls : list (list (option tensor))) (opt : SharedAdam.optimizer)
    (j : nat) (p : SharedAdam.param) :
  Z.of_nat (length calls) <= 2 ^ 24 ->
  Forall (fun gs => length gs = length ps) calls ->
  apply_calls calls (SharedAdam.init ps learning_rate) = Some opt ->
  SharedAdam.parameters opt !! j = Some p ->
  SharedAdam.state_step p = times_touched j calls /\
  Z.of_nat (SharedAdam.state_step p) <= 2 ^ 24.
Proof.
  intros Hbound Hall H Hj.
  assert (Hn : length (SharedAdam.parameters (SharedAdam.init ps learning_rate)) = length ps).
  { unfold SharedAdam.parameters, SharedAdam.init. simpl.
    rewrite app_nil_r, length_map. reflexivity. }
  destruct (apply_calls_counter calls (SharedAdam.init ps learning_rate) opt j p)
    as (p0 & Hp0 & Hc).
  - rewrite Hn. exact Hall.
  - exact H.
  - exact Hj.
  - unfold SharedAdam.parameters, SharedAdam.init in Hp0. simpl in Hp0.
    rewrite app_nil_r, list_lookup_fmap in Hp0.
    destruct (ps !! j); [|discriminate]. injection Hp0 as <-. simpl in Hc.
    split; [exact Hc|]. rewrite Hc. pose proof (times_touched_le j calls). lia.
Qed.

End Counters.

(** ** Pushes that cannot raise *)

Section PushTotal.

Import ActorCriticWorker.

Lemma shaped_after_assignment (gs : list (option tensor)) (qs : list SharedAdam.param)
    (ps : list tensor) :
  Forall2 sized qs ps -> fits gs ps ->
  forallb SharedAdam.shaped (set_grads_params gs (map SharedAdam.zero_grad_param qs)) = true /\
  Forall2 sized (set_grads_params gs (map SharedAdam.zero_grad_param qs)) ps.
Proof.
  intros Hq. revert gs. induction Hq as [|q d qs ps Hqd Hq IH]; intros gs Hf.
  - inversion Hf. split; [reflexivity|constructor].
  - inversion Hf as [|g d' gs' ps' Hg Hf']; subst. simpl.
    destruct (IH _ Hf') as [IH1 IH2]. destruct Hqd as (L1 & L2 & L3).
    split.
    + rewrite IH1, andb_true_r. unfold SharedAdam.shaped. simpl.
      rewrite L1, L2, L3, !Nat.eqb_refl. simpl.
      destruct g as [gr|]; [|reflexivity]. rewrite Hg. apply Nat.eqb_refl.
    + constructor; [|exact IH2]. repeat split; assumption.
Qed.

Lemma init_one_group (ps : list tensor) (learning_rate : R) :
  one_group ps (SharedAdam.init ps learning_rate).
Proof.
  eexists. split; [reflexivity|]. split; [split; simpl; lra|]. simpl.
  induction ps as [|d ps IH]; simpl; constructor; [|exact IH].
  unfold sized, SharedAdam.init_param, zeros_like. simpl. rewrite !length_map. auto.
Qed.

(** A push of fitting gradients does not raise and keeps the shape of the
    optimizer. *)
Lemma push_one_group (gs : list (option tensor)) (ps : list tensor)
    (opt : SharedAdam.optimizer) :
  one_group ps opt -> fits gs ps ->
  exists opt', push gs opt = Some opt' /\ one_group ps opt'.
Proof.
  intros (g & -> & V & Hs) Hf.
  destruct (shaped_after_assignment gs _ ps Hs Hf) as [Hsh Hsz].
  assert (W : SharedAdam.wf (set_grads gs (SharedAdam.zero_grad [g]))).
  { simpl. constructor; [|constructor]. split; [exact V|exact Hsh]. }
  destruct (step_total _ W) as (opt' & E & _).
  exists opt'. split; [exact E|].
  apply step_preserves in E. simpl in E.
  apply Forall2_cons_inv_l in E as (g' & l & (E1 & E2 & E3 & E4 & Hps) & Hl & ->).
  apply Forall2_nil_inv_l in Hl as ->.
  exists g'. split; [reflexivity|]. split.
  - unfold SharedAdam.valid_group in *. rewrite E2. exact V.
  - simpl in Hps. clear - Hps Hsz.
    revert Hps Hsz.
    generalize (set_grads_params gs (map SharedAdam.zero_grad_param (SharedAdam.params g))).
    intros l0 Hps Hsz. revert ps Hsz.
    induction Hps as [|q q' l1 l2 (_ & L1 & L2 & L3 & _) _ IH]; intros ps Hsz.
    + apply Forall2_nil_inv_l in Hsz as ->. constructor.
    + apply Forall2_cons_inv_l in Hsz as (d & ps' & (M1 & M2 & M3) & Hsz' & ->).
      constructor; [|apply IH, Hsz']. unfold sized. rewrite L1, L2, L3. auto.
Qed.

(** So does a sequence of pushes. *)
Lemma apply_calls_one_group (ps : list tensor) (calls : list (list (option tensor)))
    (opt0 : SharedAdam.optimizer) :
  Forall (fun gs => fits gs ps) calls -> one_group ps opt0 ->
  exists opt, apply_calls calls opt0 = Some opt /\ one_group ps opt.
Proof.
  unfold apply_calls. intros Hall. revert opt0.
  induction Hall as [|gs calls Hgs _ IH]; intros opt0 H0.
  - exists opt0. split; [reflexivity|exact H0].
  - destruct (push_one_group gs ps opt0 H0 Hgs) as (opt1 & E1 & H1).
    destruct (IH opt1 H1) as (opt & E & H). exists opt. split; [|exact H].
    simpl. rewrite E1. exact E.
Qed.

(** X4. From a fresh optimizer, with torch's default betas, no sequence of
    pushes raises, whatever the learning rate and the values of the
    gradients, as long as every push hands over one gradient, null or of
    the size of its parameter, per parameter; the parameters keep their
    sizes. *)
Theorem pushes_never_raise (ps : list tensor) (learning_rate : R)
    (calls : list (list (option tensor))) :
  Forall (fun gs => fits gs ps) calls ->
  exists opt,
    apply_calls calls (SharedAdam.init ps learning_rate) = Some opt /\
    length <$> SharedAdam.state_dict opt = length <$> ps.
Proof.
  intros Hall.
  destruct (apply_calls_one_group ps calls _ Hall (init_one_group ps learning_rate))
    as (opt & E & (g & -> & _ & Hs)).
  exists [g]. split; [exact E|].
  unfold SharedAdam.state_dict, SharedAdam.parameters. simpl. rewrite app_nil_r.
  clear - Hs. induction Hs as [|q d qs ps' (L & _) _ IH]; simpl; [reflexivity|].
  f_equal; [exact L|exact IH].
Qed.

End PushTotal.

(** ** The moving averages of a step *)

Section Moments.

Import ActorCriticWorker.

Lemma elementwise_lookup f (a b c : tensor) (k : nat) (x y : float) :
  elementwise f a b = Some c -> a !! k = Some x -> b !! k = Some y ->
  c !! k = Some (f x y).
Proof.
  unfold elementwise. destruct (_ =? _)%nat; [|discriminate]. intros [= <-] Ha Hb.
  rewrite lookup_zip_with, Ha. simpl. rewrite Hb. reflexivity.
Qed.

(** The moments after a step without weight decay, element by element. *)
Lemma step_param_elements (g : SharedAdam.group) (p p' : SharedAdam.param)
    (gr : tensor) (k : nat) (x m v gk : float) :
  SharedAdam.weight_decay g = 0%R ->
  SharedAdam.grad p = Some gr ->
  SharedAdam.step_param g p = Some p' ->
  SharedAdam.data p !! k = Some x ->
  SharedAdam.state_exp_avg p !! k = Some m ->
  SharedAdam.state_exp_avg_sq p !! k = Some v ->
  gr !! k = Some gk ->
  let beta1 := fst (SharedAdam.betas g) in
  let beta2 := snd (SharedAdam.betas g) in
  let m' := fadd (fmul (Fin beta1) m) (fmul (Fin (1 - beta1)) gk) in
  let v' := fadd (fmul (Fin beta2) v) (fmul (Fin (1 - beta2)) (fmul gk gk)) in
  SharedAdam.state_exp_avg p' !! k = Some m' /\
  SharedAdam.state_exp_avg_sq p' !! k = Some v' /\
  exists size,
    SharedAdam.step_size g (S (SharedAdam.state_step p)) = Some size /\
    SharedAdam.data p' !! k
    = Some (fadd x (fmul (Fin (- size))
                         (fdiv m' (fadd (fsqrt v') (Fin (SharedAdam.eps g)))))).
Proof.
  intros Hwd Hgr H Hx Hm Hv Hg. unfold SharedAdam.step_param in H. rewrite Hgr in H.
  destruct (SharedAdam.betas g) as [b1 b2]. simpl.
  rewrite Hwd in H. destruct (Req_dec_T 0 0) as [_|N]; [|contradiction]. simpl in H.
  destruct (add_ _ _ _) as [ea|] eqn:Em; [|discriminate]. simpl in H.
  destruct (addcmul_ _ _ _ _) as [es|] eqn:Ev; [|discriminate]. simpl in H.
  destruct (SharedAdam.step_size _ _) as [size|] eqn:Es; [|discriminate]. simpl in H.
  destruct (addcdiv_ _ _ _ _) as [d|] eqn:Ed; [|discriminate]. simpl in H.
  injection H as <-. simpl.
  assert (Hm' : ea !! k = Some (fadd (fmul (Fin b1) m) (fmul (Fin (1 - b1)) gk))).
  { unfold add_ in Em. eapply elementwise_lookup in Em; [exact Em| |exact Hg].
    unfold mul_. rewrite list_lookup_fmap, Hm. reflexivity. }
  assert (Hv' : es !! k
                = Some (fadd (fmul (Fin b2) v) (fmul (Fin (1 - b2)) (fmul gk gk)))).
  { unfold addcmul_ in Ev. destruct (elementwise fmul gr gr) as [sq|] eqn:Esq; [|discriminate].
    simpl in Ev. eapply elementwise_lookup in Ev; [exact Ev| |].
    - unfold mul_. rewrite list_lookup_fmap, Hv. reflexivity.
    - eapply elementwise_lookup in Esq; [exact Esq|exact Hg|exact Hg]. }
  split; [exact Hm'|]. split; [exact Hv'|]. exists size. split; [reflexivity|].
  unfold addcdiv_ in Ed. destruct (elementwise fdiv _ _) as [q|] eqn:Eq; [|discriminate].
  simpl in Ed. eapply elementwise_lookup in Ed; [exact Ed|exact Hx|].
  eapply elementwise_lookup in Eq; [exact Eq|exact Hm'|].
  unfold sqrt_add. rewrite list_lookup_fmap, Hv'. reflexivity.
Qed.

(** X5. Without weight decay, a step turns the moments of a parameter with a
    gradient into the exponential moving averages
    [beta1 * m + (1 - beta1) * g] and [beta2 * v + (1 - beta2) * g^2],
    element by element. *)
Theorem step_moving_averages (g : SharedAdam.group) (p p' : SharedAdam.param)
    (gr : tensor) (k : nat) (m v gk : R) :
  SharedAdam.weight_decay g = 0%R ->
  SharedAdam.grad p = Some gr ->
  SharedAdam.step_param g p = Some p' ->
  SharedAdam.state_exp_avg p !! k = Some (Fin m) ->
  SharedAdam.state_exp_avg_sq p !! k = Some (Fin v) ->
  gr !! k = Some (Fin gk) ->
  SharedAdam.state_exp_avg p' !! k
  = Some (Fin (fst (SharedAdam.betas g) * m + (1 - fst (SharedAdam.betas g)) * gk)) /\
  SharedAdam.state_exp_avg_sq p' !! k
  = Some (Fin (snd (SharedAdam.betas g) * v
               + (1 - snd (SharedAdam.betas g)) * (gk * gk))).
Proof.
  intros Hwd Hgr H Hm Hv Hg.
  assert (exists x, SharedAdam.data p !! k = Some x) as [x Hx].
  { apply lookup_lt_is_Some. destruct (step_param_frame _ _ _ H) as (_ & _ & L2 & _).
    pose proof H as H'. unfold SharedAdam.step_param in H'. rewrite Hgr in H'.
    destruct (SharedAdam.betas g) as [b1 b2].
    rewrite Hwd in H'. destruct (Req_dec_T 0 0) as [_|N]; [|contradiction]. simpl in H'.
    destruct (add_ _ _ _) as [ea|] eqn:Em; [|discriminate]. simpl in H'.
    destruct (addcmul_ _ _ _ _) as [es|] eqn:Ev; [|discriminate]. simpl in H'.
    destruct (SharedAdam.step_size _ _) as [size|]; [|discriminate]. simpl in H'.
    destruct (addcdiv_ _ _ _ _) as [d|] eqn:Ed; [|discriminate].
    unfold addcdiv_ in Ed. destruct (elementwise fdiv _ _) as [q|] eqn:Eq; [|discriminate].
    simpl in Ed. apply elementwise_length in Ed as [_ Ld].
    apply elementwise_length in Eq as [Lq _].
    unfold add_ in Em. apply elementwise_length in Em as [Lm _]. rewrite mul__length in Lm.
    apply lookup_lt_Some in Hm. lia. }
  destruct (step_param_elements g p p' gr k x (Fin m) (Fin v) (Fin gk) Hwd Hgr H Hx Hm Hv Hg)
    as (E1 & E2 & _).
  split; [exact E1|exact E2].
Qed.

End Moments.

(** ** The size of the first step *)

Section FirstStep.

Import ActorCriticWorker.

Lemma first_step_real (lr0 b1 b2 e gk : R) :
  (0 <= b1 < 1)%R -> (0 <= b2 < 1)%R -> (0 < e)%R -> (0 <= lr0)%R ->
  let v := (b2 * 0 + (1 - b2) * (gk * gk))%R in
  let m := (b1 * 0 + (1 - b1) * gk)%R in
  let size := (lr0 * sqrt (1 - b2 ^ 1) / (1 - b1 ^ 1))%R in
  (0 <= v)%R /\ (sqrt v + e <> 0)%R /\
  (Rabs (- size * (m / (sqrt v + e))) <= lr0)%R.
Proof.
  intros H1 H2 He Hl v m size.
  assert (Hv : (0 <= v)%R) by (unfold v; nra).
  split; [exact Hv|].
  pose proof (sqrt_pos v) as Hs.
  split; [lra|].
  set (s := sqrt (1 - b2)).
  assert (Hs0 : (0 < s)%R) by (apply sqrt_lt_R0; lra).
  assert (Esv : sqrt v = (s * Rabs gk)%R).
  { unfold v, s. replace (b2 * 0 + (1 - b2) * (gk * gk))%R with ((1 - b2) * Rsqr gk)%R
      by (unfold Rsqr; ring).
    rewrite sqrt_mult by (try apply Rle_0_sqr; lra). rewrite sqrt_Rsqr_abs. reflexivity. }
  unfold size, m. replace (1 - b2 ^ 1)%R with (1 - b2)%R by (simpl; ring).
  replace (1 - b1 ^ 1)%R with (1 - b1)%R by (simpl; ring).
  fold s. rewrite Esv.
  set (A := Rabs gk). set (D := (s * A + e)%R).
  assert (HA : (0 <= A)%R) by apply Rabs_pos.
  assert (HD : (0 < D)%R) by (unfold D; nra).
  assert (HgA : (- A <= gk <= A)%R).
  { unfold A. split; [pose proof (Rle_abs (- gk)); rewrite Rabs_Ropp in *; lra|apply Rle_abs]. }
  replace (- (lr0 * s / (1 - b1)) * ((b1 * 0 + (1 - b1) * gk) / D))%R
    with (- (lr0 * s * gk) * / D)%R by (field; split; lra).
  pose proof (Rinv_0_lt_compat D HD) as Ht.
  assert (HDt : (D * / D = 1)%R) by (apply Rinv_r; lra).
  set (t := (/ D)%R) in *.
  apply Rabs_le.
  assert (E1 : (lr0 = lr0 * (s * A + e) * t)%R) by (fold D; nra).
  assert (P1 : (0 <= lr0 * t * s * (A - gk))%R).
  { apply Rmult_le_pos; [|lra]. apply Rmult_le_pos; [|lra]. apply Rmult_le_pos; lra. }
  assert (P2 : (0 <= lr0 * t * s * (A + gk))%R).
  { apply Rmult_le_pos; [|lra]. apply Rmult_le_pos; [|lra]. apply Rmult_le_pos; lra. }
  assert (P3 : (0 <= lr0 * t * e)%R).
  { apply Rmult_le_pos; [|lra]. apply Rmult_le_pos; lra. }
  split; nra.
Qed.

(** X6. The first step on a parameter, with zero counter and zero moments and
    without weight decay, moves every finite element that has a finite
    gradient by at most the learning rate. *)
Theorem first_step_bounded (g : SharedAdam.group) (p p' : SharedAdam.param)
    (gr : tensor) (k : nat) (x gk : R) :
  SharedAdam.valid_group g ->
  SharedAdam.weight_decay g = 0%R ->
  (0 < SharedAdam.eps g)%R ->
  (0 <= SharedAdam.lr g)%R ->
  SharedAdam.state_step p = 0%nat ->
  SharedAdam.state_exp_avg p = zeros_like (SharedAdam.data p) ->
  SharedAdam.state_exp_avg_sq p = zeros_like (SharedAdam.data p) ->
  SharedAdam.grad p = Some gr ->
  SharedAdam.step_param g p = Some p' ->
  SharedAdam.data p !! k = Some (Fin x) ->
  gr !! k = Some (Fin gk) ->
  exists y, SharedAdam.data p' !! k = Some (Fin y) /\ (Rabs (y - x) <= SharedAdam.lr g)%R.
Proof.
  intros [V1 V2] Hwd He Hl Ht Hm Hv Hgr H Hx Hg.
  assert (Hz : zeros_like (SharedAdam.data p) !! k = Some (Fin 0)).
  { unfold zeros_like. rewrite list_lookup_fmap, Hx. reflexivity. }
  destruct (step_param_elements g p p' gr k (Fin x) (Fin 0) (Fin 0) (Fin gk) Hwd Hgr H Hx)
    as (_ & _ & size & Hsize & Hd); [rewrite Hm; exact Hz|rewrite Hv; exact Hz|exact Hg|].
  rewrite Ht in Hsize. apply step_size_formula in Hsize.
  destruct (first_step_real (SharedAdam.lr g) _ _ (SharedAdam.eps g) gk V1 V2 He Hl)
    as (P0 & Pd & Pb).
  simpl in Hd. destruct (Rlt_dec _ 0) as [Hneg|_]; [lra|]. simpl in Hd.
  destruct (Req_dec_T _ 0) as [Hz0|_]; [contradiction|].
  eexists. split; [exact Hd|].
  rewrite Hsize.
  match goal with |- (Rabs (?a + ?b - ?a) <= _)%R => replace (a + b - a)%R with b by ring end.
  exact Pb.
Qed.

End FirstStep.

(** ** Reads of the buffer *)

Ltac key_in := unfold ActorCriticWorker.keys; apply list_elem_of_In; simpl; auto 10.

Section Buffer.

Import ActorCriticWorker.

Variable cfg : config.

Lemma iterate_snoc (env : Z -> observation) (n : nat) (i : Z) (w : worker) :
  iterate cfg env (S n) i w
  = iterate cfg env n i w ≫= train_iteration cfg (env (i + Z.of_nat n)) (i + Z.of_nat n).
Proof.
  revert i w. induction n as [|n IH]; intros i w.
  - simpl. rewrite Z.add_0_r. destruct (train_iteration _ _ _ _); reflexivity.
  - change (iterate cfg env (S (S n)) i w)
      with (train_iteration cfg (env i) i w ≫= fun w' => iterate cfg env (S n) (i + 1) w').
    change (iterate cfg env (S n) i w)
      with (train_iteration cfg (env i) i w ≫= fun w' => iterate cfg env n (i + 1) w').
    destruct (train_iteration cfg (env i) i w) as [w1|]; [|reflexivity].
    change (iterate cfg env (S n) (i + 1) w1
            = iterate cfg env n (i + 1) w1
              ≫= train_iteration cfg (env (i + Z.of_nat (S n))) (i + Z.of_nat (S n))).
    rewrite IH. replace (i + 1 + Z.of_nat n) with (i + Z.of_nat (S n)) by lia. reflexivity.
Qed.

Lemma append_other (l l' : nat) (x : scalar) (h h' : list (list scalar)) :
  l <> l' -> append l x h = Some h' -> h' !! l' = h !! l'.
Proof.
  unfold append. intros Hne H. destruct (h !! l); [|discriminate]. simpl in H.
  injection H as <-. apply list_lookup_insert_ne. exact Hne.
Qed.

Lemma append_some (l : nat) (x : scalar) (h : list (list scalar)) (xs : list scalar) :
  h !! l = Some xs -> append l x h = Some (<[l := xs ++ [x]]> h).
Proof. unfold append. intros ->. reflexivity. Qed.

(** The appends of a collection step on four different lists. *)
Lemma collect_separate (w : worker) (o : observation) (vs lps rs es : list scalar) :
  separate w vs lps rs es ->
  exists w1, collect w o = Some w1 /\
             separate w1 (vs ++ [value o]) (lps ++ [log_prob o])
                         (rs ++ [reward o]) (es ++ [entropy o]).
Proof.
  intros (lv & la & lr & le & Ev & Ea & Er & Ee & Hnd & Sv & Sa & Sr & Se).
  apply NoDup_cons in Hnd as [N1 Hnd]. apply NoDup_cons in Hnd as [N2 Hnd].
  apply NoDup_cons in Hnd as [N3 _].
  assert (Nva : lv <> la) by set_solver. assert (Nvr : lv <> lr) by set_solver.
  assert (Nve : lv <> le) by set_solver. assert (Nar : la <> lr) by set_solver.
  assert (Nae : la <> le) by set_solver. assert (Nre : lr <> le) by set_solver.
  unfold collect. rewrite Ev. simpl. rewrite (append_some _ _ _ _ Sv). simpl.
  rewrite Ea. simpl.
  rewrite (append_some la _ _ lps) by (rewrite list_lookup_insert_ne by exact Nva; exact Sa).
  simpl. rewrite Er. simpl.
  rewrite (append_some lr _ _ rs)
    by (rewrite !list_lookup_insert_ne by congruence; exact Sr).
  simpl. rewrite Ee. simpl.
  rewrite (append_some le _ _ es)
    by (rewrite !list_lookup_insert_ne by congruence; exact Se).
  simpl. eexists. split; [reflexivity|].
  exists lv, la, lr, le. simpl.
  assert (Lv := lookup_lt_Some _ _ _ Sv). assert (La := lookup_lt_Some _ _ _ Sa).
  assert (Lr := lookup_lt_Some _ _ _ Sr). assert (Le := lookup_lt_Some _ _ _ Se).
  repeat split; try assumption.
  - repeat constructor; set_solver.
  - rewrite !list_lookup_insert_ne by congruence. apply list_lookup_insert_eq. exact Lv.
  - rewrite !list_lookup_insert_ne by congruence. apply list_lookup_insert_eq.
    rewrite length_insert. exact La.
  - rewrite list_lookup_insert_ne by congruence. apply list_lookup_insert_eq.
    rewrite !length_insert. exact Lr.
  - apply list_lookup_insert_eq. rewrite !length_insert. exact Le.
Qed.


Lemma init_separate (i0 : Z) (shared : SharedAdam.optimizer) (w0 : worker) :
  init cfg i0 shared = Some w0 -> separate w0 [] [] [] [] /\ buffer_length w0 = 0.
Proof.
  unfold init. destruct (linspace _ _ _); [|discriminate]. simpl. intros [= <-].
  split; [|reflexivity].
  exists 0%nat, 1%nat, 2%nat, 3%nat. simpl. repeat split; try reflexivity.
  apply (bool_decide_unpack _). reflexivity.
Qed.

Lemma getitem_some {A : Type} (xs : list A) (i : Z) :
  0 <= i < Z.of_nat (length xs) -> getitem xs i = xs !! Z.to_nat i /\ is_Some (getitem xs i).
Proof.
  intros Hi. unfold getitem.
  destruct (Z.ltb_spec i (- Z.of_nat (length xs))); [lia|].
  destruct (Z.leb_spec (Z.of_nat (length xs)) i); [lia|]. simpl.
  destruct (Z.ltb_spec i 0); [lia|]. split; [reflexivity|].
  apply lookup_lt_is_Some. lia.
Qed.

Lemma buffer_get_some (d : gmap string nat) (h : list (list scalar)) (k : string)
    (l : nat) (xs : list scalar) (i : Z) :
  d !! k = Some l -> h !! l = Some xs -> 0 <= i < Z.of_nat (length xs) ->
  buffer_get d h k i = xs !! Z.to_nat i /\ is_Some (buffer_get d h k i).
Proof.
  intros Hd Hh Hi. unfold buffer_get. rewrite Hd. simpl. rewrite Hh. simpl.
  apply getitem_some, Hi.
Qed.

Lemma for_each_some {A S : Type} (f : S -> A -> option S) (l : list A) :
  (forall acc x, x ∈ l -> is_Some (f acc x)) -> forall acc, is_Some (for_each f acc l).
Proof.
  induction l as [|x l IH]; intros H acc; simpl; [eauto|].
  destruct (H acc x) as [acc' ->]; [set_solver|]. simpl. apply IH.
  intros a y Hy. apply H. set_solver.
Qed.

Lemma reversed_range_elem (n i : Z) : i ∈ reversed_range n -> 0 <= i < n.
Proof.
  unfold reversed_range. rewrite list_elem_of_In, <- in_rev, in_map_iff.
  intros (k & <- & Hk). apply in_seq in Hk. lia.
Qed.

Lemma loss_body_some (d : gmap string nat) (h : list (list scalar)) (value_1 : scalar)
    (acc : scalar * scalar * scalar) (i : Z) :
  is_Some (buffer_get d h "reward" i) -> is_Some (buffer_get d h "value" i) ->
  is_Some (buffer_get d h "value" (i + 1)) ->
  is_Some (buffer_get d h "action_prob" i) -> is_Some (buffer_get d h "entropy" i) ->
  is_Some (loss_body cfg d h value_1 acc i).
Proof.
  intros [r Hr] [v Hv] [vn Hvn] [lp Hlp] [e He]. unfold loss_body.
  destruct acc as [[a b] c]. rewrite Hr. simpl. rewrite Hv. simpl. rewrite Hvn. simpl.
  rewrite Hlp. simpl. rewrite He. simpl. eauto.
Qed.

(** In a consistent state the loop of [optimize_model] finds every entry it
    reads. *)
Lemma losses_some (w : worker) (value_1 : scalar) :
  consistent w ->
  is_Some (losses cfg (buffer w) (store w) (buffer_length w) value_1).
Proof.
  intros [Hn [(vs & lps & rs & es & Hsep & Lv & La & Lr & Le)|(l & xs & Ha & Hl & Lx)]].
  - destruct Hsep as (lv & la & lr & le & Ev & Ea & Er & Ee & Hnd & Sv & Sa & Sr & Se).
    apply NoDup_cons in Hnd as [N1 _].
    assert (Nva : lv <> la) by set_solver. assert (Nvr : lv <> lr) by set_solver.
    assert (Nve : lv <> le) by set_solver.
    unfold losses. rewrite Ev. simpl. rewrite (append_some _ _ _ _ Sv). simpl.
    set (h1 := <[lv := vs ++ [value_1]]> (store w)).
    assert (Hv1 : h1 !! lv = Some (vs ++ [value_1])).
    { apply list_lookup_insert_eq. eapply lookup_lt_Some, Sv. }
    destruct (for_each_some (loss_body cfg (buffer w) h1 value_1)
                (reversed_range (buffer_length w))) with (acc := (number 0, number 0, number 0))
      as [acc ->]; [|simpl; eauto].
    intros acc i Hi. apply reversed_range_elem in Hi.
    apply loss_body_some.
    + eapply buffer_get_some;
        [exact Er|unfold h1; rewrite list_lookup_insert_ne by exact Nvr; exact Sr|lia].
    + eapply buffer_get_some; [exact Ev|exact Hv1|]. rewrite length_app. simpl. lia.
    + eapply buffer_get_some; [exact Ev|exact Hv1|]. rewrite length_app. simpl. lia.
    + eapply buffer_get_some;
        [exact Ea|unfold h1; rewrite list_lookup_insert_ne by exact Nva; exact Sa|lia].
    + eapply buffer_get_some;
        [exact Ee|unfold h1; rewrite list_lookup_insert_ne by exact Nve; exact Se|lia].
  - unfold losses. rewrite (Ha "value") by key_in. simpl.
    rewrite (append_some _ _ _ _ Hl). simpl.
    set (h1 := <[l := xs ++ [value_1]]> (store w)).
    assert (H1 : h1 !! l = Some (xs ++ [value_1])).
    { apply list_lookup_insert_eq. eapply lookup_lt_Some, Hl. }
    destruct (for_each_some (loss_body cfg (buffer w) h1 value_1)
                (reversed_range (buffer_length w))) with (acc := (number 0, number 0, number 0))
      as [acc ->]; [|simpl; eauto].
    intros acc i Hi. apply reversed_range_elem in Hi.
    assert (G : forall k j, k ∈ keys -> 0 <= j <= buffer_length w ->
                            is_Some (buffer_get (buffer w) h1 k j)).
    { intros k j Hk Hj. eapply buffer_get_some; [apply Ha, Hk|exact H1|].
      rewrite length_app. simpl. lia. }
    apply loss_body_some; apply G; first [key_in|lia].
Qed.

End Buffer.

(** ** The buffer and its counter in reachable states *)

Section Consistency.

Import ActorCriticWorker.

Variable cfg : config.

Lemma collect_consistent (w w1 : worker) (o : observation) :
  consistent w -> collect w o = Some w1 -> consistent w1.
Proof.
  intros [Hn Hc] H.
  destruct (collect_inv _ _ _ H)
    as (lv & la & lr & le & h1 & h2 & h3 & _ & _ & _ & _ & _ & _ & _ & _ & _ & Hl & _).
  split; [lia|]. rewrite Hl.
  destruct Hc as [(vs & lps & rs & es & Hsep & Lv & La & Lr & Le)|(l & xs & Ha & Hx & Lx)].
  - left. destruct (collect_separate w o _ _ _ _ Hsep) as (w1' & E & Hsep').
    rewrite H in E. injection E as <-.
    do 4 eexists. split; [exact Hsep'|]. rewrite !length_app. simpl. lia.
  - right. destruct (collect_aliased _ _ _ _ _ Ha Hx H) as [Ha' Hx'].
    exists l. eexists. split; [exact Ha'|]. split; [exact Hx'|].
    rewrite length_app. simpl. lia.
Qed.

Lemma collect_total (w : worker) (o : observation) :
  consistent w -> is_Some (collect w o).
Proof.
  intros [_ [(vs & lps & rs & es & Hsep & _)|(l & xs & Ha & Hx & _)]].
  - destruct (collect_separate w o _ _ _ _ Hsep) as (w1 & -> & _). eauto.
  - unfold collect.
    rewrite (Ha "value"), (Ha "action_prob"), (Ha "reward"), (Ha "entropy") by key_in.
    simpl. rewrite (append_some _ _ _ _ Hx). simpl.
    assert (L := lookup_lt_Some _ _ _ Hx).
    erewrite append_some by (apply list_lookup_insert_eq; exact L). simpl.
    erewrite append_some
      by (apply list_lookup_insert_eq; rewrite length_insert; exact L). simpl.
    erewrite append_some
      by (apply list_lookup_insert_eq; rewrite !length_insert; exact L). simpl.
    eauto.
Qed.

Lemma flush_consistent (w w' : worker) (o : observation) :
  (forall k, k ∈ keys -> is_Some (buffer w !! k)) ->
  flush cfg w o = Some w' -> consistent w'.
Proof.
  intros Hk H. destruct (flush_cleared cfg _ _ _ Hk H) as [Ha Hl].
  destruct (flush_inv cfg _ _ _ H) as (_ & _ & _ & _ & _ & E0 & _).
  split; [lia|]. right. eexists _, []. split; [exact Ha|]. split; [exact Hl|].
  rewrite E0. reflexivity.
Qed.

Lemma train_iteration_consistent (o : observation) (i : Z) (w w' : worker) :
  consistent w -> train_iteration cfg o i w = Some w' -> consistent w'.
Proof.
  intros Hc H.
  destruct (train_iteration_inv cfg _ _ _ _ H) as (w1 & w2 & Ec & _ & Efl & _ & ->).
  assert (H2 : consistent w2).
  { destruct (flushes cfg w o).
    - eapply flush_consistent; [|exact Efl]. eapply collect_keys; exact Ec.
    - subst w2. eapply collect_consistent; eassumption. }
  destruct (saved_or_not_fields cfg (i mod SAVE_NETWORK_FREQ cfg =? 0) w2 i) as (Eb & Es & El).
  unfold consistent, separate, aliased_at in *. rewrite Eb, Es, El. exact H2.
Qed.

Lemma reachable_consistent (env : Z -> observation) (i0 : Z)
    (shared : SharedAdam.optimizer) (w0 w : worker) (n : nat) :
  init cfg i0 shared = Some w0 -> iterate cfg env n 1 w0 = Some w -> consistent w.
Proof.
  intros H0 Hn.
  eapply (iterate_invariant cfg consistent); [| |exact Hn].
  - intros. eapply train_iteration_consistent; eassumption.
  - destruct (init_separate cfg _ _ _ H0) as [Hsep Hl].
    split; [lia|]. left. exists [], [], [], []. rewrite Hl. simpl. auto.
Qed.

Lemma reachable_reads
    (env : Z -> observation) (i0 : Z) (shared : SharedAdam.optimizer)
    (w0 w : worker) (n : nat) (o : observation) :
  init cfg i0 shared = Some w0 ->
  iterate cfg env n 1 w0 = Some w ->
  exists w1,
    collect w o = Some w1 /\
    buffer_length w1 = buffer_length w + 1 /\
    forall value_1,
      is_Some (losses cfg (buffer w1) (store w1) (buffer_length w1) value_1).
Proof.
  intros H0 Hn. pose proof (reachable_consistent _ _ _ _ _ _ H0 Hn) as Hc.
  destruct (collect_total w o Hc) as [w1 E]. exists w1. split; [exact E|].
  split.
  - destruct (collect_inv _ _ _ E)
      as (lv & la & lr & le & h1 & h2 & h3 & _ & _ & _ & _ & _ & _ & _ & _ & _ & Hl & _).
    exact Hl.
  - intros v. apply losses_some. eapply collect_consistent; eassumption.
Qed.

(** X7. In every state a worker reaches, the collection step finds its four
    keys and lists, and the loop of [optimize_model] over the buffer it
    leaves finds every entry it reads: neither raises [KeyError] or
    [IndexError], before the first flush and after it. *)
Theorem buffer_reads_never_raise
    (env : Z -> observation) (i0 : Z) (shared : SharedAdam.optimizer)
    (w0 w : worker) (n : nat) (o : observation) :
  init cfg i0 shared = Some w0 ->
  iterate cfg env n 1 w0 = Some w ->
  exists w1,
    collect w o = Some w1 /\
    buffer_length w1 = buffer_length w + 1 /\
    forall value_1,
      is_Some (losses cfg (buffer w1) (store w1) (buffer_length w1) value_1).
Proof. exact (reachable_reads env i0 shared w0 w n o). Qed.

End Consistency.

(** ** The buffer before and after the first flush *)

Section Cycles.

Import ActorCriticWorker.

Variable cfg : config.

Lemma indices_snoc (i : Z) (n : nat) : indices i (S n) = indices i n ++ [i + Z.of_nat n].
Proof. unfold indices. rewrite seq_S, map_app. reflexivity. Qed.

Lemma first_cycle_separate
    (env : Z -> observation) (i0 : Z) (shared : SharedAdam.optimizer)
    (w0 w : worker) (n : nat) :
  Z.of_nat n < BUFFER_UPDATE_FREQ cfg ->
  (forall i, 1 <= i <= Z.of_nat n -> done (env i) = false) ->
  init cfg i0 shared = Some w0 ->
  iterate cfg env n 1 w0 = Some w ->
  separate w (value ∘ env <$> indices 1 n) (log_prob ∘ env <$> indices 1 n)
             (reward ∘ env <$> indices 1 n) (entropy ∘ env <$> indices 1 n) /\
  buffer_length w = Z.of_nat n.
Proof.
  intros Hf Hd H0. revert w. induction n as [|n IH]; intros w Hn.
  - simpl in Hn. injection Hn as <-. destruct (init_separate cfg _ _ _ H0) as [Hs Hl].
    split; [exact Hs|exact Hl].
  - rewrite iterate_snoc in Hn.
    destruct (iterate cfg env n 1 w0) as [wn|] eqn:En; [|discriminate]. simpl in Hn.
    destruct (IH ltac:(lia) ltac:(intros; apply Hd; lia) wn eq_refl) as [Hs Hl].
    destruct (train_iteration_inv cfg _ _ _ _ Hn) as (w1 & w2 & Ec & _ & Efl & _ & ->).
    assert (Hno : flushes cfg wn (env (1 + Z.of_nat n)) = false).
    { unfold flushes. rewrite Hl, Hd by lia. rewrite orb_false_r.
      apply Z.eqb_neq. rewrite Z.mod_small by lia. lia. }
    rewrite Hno in Efl. subst w2.
    destruct (collect_separate wn (env (1 + Z.of_nat n)) _ _ _ _ Hs) as (w1' & E & Hs').
    rewrite Ec in E. injection E as <-.
    destruct (saved_or_not_fields cfg ((1 + Z.of_nat n) mod SAVE_NETWORK_FREQ cfg =? 0)
                w1 (1 + Z.of_nat n)) as (Eb & Es & El).
    unfold separate. rewrite Eb, Es, El, indices_snoc, !fmap_app. simpl.
    split; [exact Hs'|].
    destruct (collect_inv _ _ _ Ec)
      as (lv & la & lr & le & h1 & h2 & h3 & _ & _ & _ & _ & _ & _ & _ & _ & _ & E & _).
    lia.
Qed.

(** X8. Until the first flush the four keys hold four lists: the values, the
    log-probabilities, the rewards and the entropies of the steps taken so
    far, in the order of the steps, and [buffer_length] is their number. *)
Theorem first_cycle_keeps_sequences
    (env : Z -> observation) (i0 : Z) (shared : SharedAdam.optimizer)
    (w0 w : worker) (n : nat) :
  Z.of_nat n < BUFFER_UPDATE_FREQ cfg ->
  (forall i, 1 <= i <= Z.of_nat n -> done (env i) = false) ->
  init cfg i0 shared = Some w0 ->
  iterate cfg env n 1 w0 = Some w ->
  separate w (value ∘ env <$> indices 1 n) (log_prob ∘ env <$> indices 1 n)
             (reward ∘ env <$> indices 1 n) (entropy ∘ env <$> indices 1 n) /\
  buffer_length w = Z.of_nat n.
Proof. exact (first_cycle_separate env i0 shared w0 w n). Qed.

(** X9. In the collection step that follows a flush, the values of the step go
    to the one list all keys share: whatever the key, entry 0 is the value
    estimate of the step, entry 1 its log-probability, entry 2 its reward
    and entry 3 its entropy.  So the loop of [optimize_model] reads the
    value estimate as the reward of step 0 and the log-probability as the
    value that follows it. *)
Theorem reads_after_flush
    (o o' : observation) (i : Z) (w w1 w2 : worker) (k : string) :
  flushes cfg w o = true ->
  train_iteration cfg o i w = Some w1 ->
  collect w1 o' = Some w2 ->
  k ∈ keys ->
  buffer_get (buffer w2) (store w2) k 0 = Some (value o') /\
  buffer_get (buffer w2) (store w2) k 1 = Some (log_prob o') /\
  buffer_get (buffer w2) (store w2) k 2 = Some (reward o') /\
  buffer_get (buffer w2) (store w2) k 3 = Some (entropy o').
Proof.
  intros Hfl H1 Hc Hk.
  destruct (train_iteration_inv cfg _ _ _ _ H1) as (wa & wb & Eca & _ & Efl & _ & ->).
  rewrite Hfl in Efl.
  destruct (flush_cleared cfg _ _ _ (collect_keys _ _ _ Eca) Efl) as [Ha Hl].
  destruct (saved_or_not_fields cfg (i mod SAVE_NETWORK_FREQ cfg =? 0) wb i) as (Eb & Es & _).
  assert (Ha1 : aliased_at (if i mod SAVE_NETWORK_FREQ cfg =? 0 then save_network cfg wb i else wb)
                           (length (store wb) - 1)%nat).
  { unfold aliased_at. rewrite Eb. exact Ha. }
  assert (Hl1 : store (if i mod SAVE_NETWORK_FREQ cfg =? 0 then save_network cfg wb i else wb)
                  !! (length (store wb) - 1)%nat = Some []) by (rewrite Es; exact Hl).
  destruct (collect_aliased _ _ _ _ _ Ha1 Hl1 Hc) as [Ha2 Hl2]. simpl in Hl2.
  unfold buffer_get. rewrite (Ha2 k Hk). simpl. rewrite Hl2. simpl. auto.
Qed.

End Cycles.

(** ** Fields an iteration keeps *)

Section Failures.

Import ActorCriticWorker.

Variable cfg : config.

Lemma collect_fields (w w1 : worker) (o : observation) :
  collect w o = Some w1 ->
  net w1 = net w /\ epsilon w1 = epsilon w /\ eplen w1 = eplen w + 1.
Proof.
  unfold collect. intros H.
  destruct (buffer w !! "value"); [|discriminate]. simpl in H.
  destruct (append _ _ _); [|discriminate]. simpl in H.
  destruct (buffer w !! "action_prob"); [|discriminate]. simpl in H.
  destruct (append _ _ _); [|discriminate]. simpl in H.
  destruct (buffer w !! "reward"); [|discriminate]. simpl in H.
  destruct (append _ _ _); [|discriminate]. simpl in H.
  destruct (buffer w !! "entropy"); [|discriminate]. simpl in H.
  destruct (append _ _ _); [|discriminate]. simpl in H.
  injection H as <-. auto.
Qed.

Lemma flush_fields (w w' : worker) (o : observation) :
  flush cfg w o = Some w' ->
  net w' = SharedAdam.state_dict (shared_opt w') /\ epsilon w' = epsilon w /\
  eplen w' = (if done o then 0 else eplen w) /\ is_Some (loss w').
Proof.
  unfold flush, optimize_model. intros H.
  destruct (losses _ _ _ _ _) as [[h acc]|]; [|discriminate]. simpl in H.
  destruct (push _ _); [|discriminate]. simpl in H. injection H as <-. simpl. eauto.
Qed.

Lemma saved_or_not_others (b : bool) (w : worker) (i : Z) :
  let w' := if b then save_network cfg w i else w in
  net w' = net w /\ shared_opt w' = shared_opt w /\ epsilon w' = epsilon w /\
  id w' = id w /\ loss w' = loss w /\ eplen w' = eplen w.
Proof. destruct b; simpl; auto 10. Qed.

(** What an iteration does to the fields outside the buffer. *)
Lemma train_iteration_fields (o : observation) (i : Z) (w w' : worker) :
  train_iteration cfg o i w = Some w' ->
  epsilon w' = epsilon w /\ id w' = id w /\
  (net w = SharedAdam.state_dict (shared_opt w) ->
   net w' = SharedAdam.state_dict (shared_opt w')) /\
  eplen w' = (if done o then 0 else eplen w + 1) /\
  (if flushes cfg w o then is_Some (loss w') else loss w' = loss w).
Proof.
  intros H.
  destruct (train_iteration_inv cfg _ _ _ _ H) as (w1 & w2 & Ec & _ & Efl & _ & ->).
  destruct (saved_or_not_others (i mod SAVE_NETWORK_FREQ cfg =? 0) w2 i)
    as (E1 & E2 & E3 & E4 & E5 & E6).
  rewrite E1, E2, E3, E4, E5, E6.
  destruct (collect_fields _ _ _ Ec) as (C1 & C2 & C3).
  destruct (collect_inv _ _ _ Ec)
    as (lv & la & lr & le & h1 & h2 & h3 & _ & _ & _ & _ & _ & _ & _ & _ & _ & _ & Cs & _ & Ci & Cl).
  destruct (flushes cfg w o) eqn:Hfl.
  - destruct (flush_fields _ _ _ Efl) as (F1 & F2 & F3 & F4).
    destruct (flush_inv cfg _ _ _ Efl) as (_ & _ & _ & _ & _ & _ & _ & _ & _ & Fi).
    repeat split; try congruence. rewrite F3, C3. destruct (done o); reflexivity.
  - subst w2. unfold flushes in Hfl. apply orb_false_elim in Hfl as [_ Ed]. rewrite Ed.
    repeat split; congruence.
Qed.

Lemma reachable_fields
    (env : Z -> observation) (i0 : Z) (shared : SharedAdam.optimizer)
    (w0 w : worker) (n : nat) :
  init cfg i0 shared = Some w0 ->
  iterate cfg env n 1 w0 = Some w ->
  net w = SharedAdam.state_dict (shared_opt w) /\
  epsilon w = epsilon w0 /\ id w = i0.
Proof.
  intros H0 Hn.
  assert (I0 : net w0 = SharedAdam.state_dict (shared_opt w0) /\ id w0 = i0).
  { unfold init in H0. destruct (linspace _ _ _); [|discriminate]. simpl in H0.
    injection H0 as <-. simpl. auto. }
  destruct I0 as [N0 Id0].
  eapply (iterate_invariant cfg
            (fun w => net w = SharedAdam.state_dict (shared_opt w) /\
                      epsilon w = epsilon w0 /\ id w = i0)); [| |exact Hn]; [|auto].
  intros o i wa wb (A1 & A2 & A3) Hs.
  destruct (train_iteration_fields _ _ _ _ Hs) as (F1 & F2 & F3 & _).
  repeat split; [auto|congruence|congruence].
Qed.

(** X10. The local copy of the parameters is the copy of the shared ones at the
    start of every iteration of a worker that runs alone. *)
Theorem local_copy_in_sync
    (env : Z -> observation) (i0 : Z) (shared : SharedAdam.optimizer)
    (w0 w : worker) (n : nat) :
  init cfg i0 shared = Some w0 ->
  iterate cfg env n 1 w0 = Some w ->
  net w = SharedAdam.state_dict (shared_opt w) /\
  epsilon w = epsilon w0 /\ id w = i0.
Proof. exact (reachable_fields env i0 shared w0 w n). Qed.

End Failures.

(** ** When an iteration completes *)

Section Totality.

Import ActorCriticWorker.

Variable cfg : config.

Lemma linspace_length (start stop : R) (num : Z) (eps : list R) :
  linspace start stop num = Some eps -> length eps = Z.to_nat num.
Proof.
  unfold linspace. destruct (num <? 0); [discriminate|]. intros [= <-].
  destruct (1 <? num); rewrite ?length_insert, length_map, length_seq; reflexivity.
Qed.

Lemma init_epsilon_length (i0 : Z) (shared : SharedAdam.optimizer) (w0 : worker) :
  init cfg i0 shared = Some w0 ->
  length (epsilon w0) = Z.to_nat (FINAL_EXPLORATION_FRAME cfg) /\
  0 <= FINAL_EXPLORATION_FRAME cfg.
Proof.
  intros H. destruct (init_inv cfg _ _ _ H) as (_ & _ & _ & _ & E).
  split; [eapply linspace_length, E|].
  unfold linspace in E. destruct (Z.ltb_spec (FINAL_EXPLORATION_FRAME cfg) 0); [discriminate|lia].
Qed.

(** X12. A zero flush threshold or a zero checkpoint interval makes every
    iteration raise ([ZeroDivisionError]): [train] fails as soon as its
    loop runs once, and returns at once when [TRAIN_ITERATIONS] leaves the
    loop empty. *)
Theorem zero_frequency_raises (env : Z -> observation) (w : worker) :
  BUFFER_UPDATE_FREQ cfg = 0 \/ SAVE_NETWORK_FREQ cfg = 0 ->
  (forall o i w', train_iteration cfg o i w' = None) /\
  train cfg env w = (if TRAIN_ITERATIONS cfg <=? 1 then Some w else None).
Proof.
  intros Hz.
  assert (N : forall o i w', train_iteration cfg o i w' = None).
  { intros o i w'. destruct (train_iteration cfg o i w') as [w''|] eqn:E; [|reflexivity].
    destruct (train_iteration_inv cfg _ _ _ _ E) as (_ & _ & _ & Hb & _ & Hs & _).
    destruct Hz; contradiction. }
  split; [exact N|]. unfold train.
  destruct (Z.leb_spec (TRAIN_ITERATIONS cfg) 1).
  - replace (Z.to_nat (TRAIN_ITERATIONS cfg - 1)) with 0%nat by lia. reflexivity.
  - replace (Z.to_nat (TRAIN_ITERATIONS cfg - 1))
      with (S (Z.to_nat (TRAIN_ITERATIONS cfg - 2))) by lia.
    simpl. rewrite N. reflexivity.
Qed.

End Totality.

(** ** Logging and episode lengths *)

Section Logging.

Import ActorCriticWorker.

Variable cfg : config.

Lemma iterate_add (env : Z -> observation) (n m : nat) (i : Z) (w : worker) :
  iterate cfg env (n + m) i w
  = iterate cfg env n i w ≫= iterate cfg env m (i + Z.of_nat n).
Proof.
  revert i w. induction n as [|n IH]; intros i w.
  - simpl. rewrite Z.add_0_r. reflexivity.
  - change (iterate cfg env (S n + m) i w)
      with (train_iteration cfg (env i) i w ≫= fun w' => iterate cfg env (n + m) (i + 1) w').
    change (iterate cfg env (S n) i w)
      with (train_iteration cfg (env i) i w ≫= fun w' => iterate cfg env n (i + 1) w').
    destruct (train_iteration cfg (env i) i w) as [w1|]; [|reflexivity].
    change (iterate cfg env (n + m) (i + 1) w1
            = iterate cfg env n (i + 1) w1 ≫= iterate cfg env m (i + Z.of_nat (S n))).
    rewrite IH. replace (i + 1 + Z.of_nat n) with (i + Z.of_nat (S n)) by lia. reflexivity.
Qed.

(** An iteration that returns at a multiple of 100 in worker 2 has found
    [loss] bound. *)
Lemma train_iteration_logged (o : observation) (i : Z) (w w' : worker) :
  train_iteration cfg o i w = Some w' ->
  i mod 100 = 0 -> id w' = 2 -> is_Some (loss w').
Proof.
  unfold train_iteration. intros H Hm Hid.
  destruct (eps_at _ _ _); [|discriminate]. simpl in H.
  destruct (collect w o) as [w1|]; [|discriminate]. simpl in H.
  destruct (flush_due cfg w1 o) as [due|]; [|discriminate]. simpl in H.
  destruct (if due then flush cfg w1 o else Some w1) as [w2|]; [|discriminate]. simpl in H.
  destruct (py_mod i (SAVE_NETWORK_FREQ cfg)) as [s|]; [|discriminate]. simpl in H.
  set (w3 := if s =? 0 then save_network cfg w2 i else w2) in *.
  destruct (Z.eqb_spec (i mod 100) 0) as [_|]; [|contradiction]. simpl in H.
  destruct (Z.eqb_spec (id w3) 2) as [_|N].
  - destruct (loss w3) as [l|] eqn:El; [|discriminate]. simpl in H.
    injection H as <-. rewrite El. eauto.
  - injection H as <-. contradiction.
Qed.

Lemma first_cycle_loss
    (env : Z -> observation) (i0 : Z) (shared : SharedAdam.optimizer)
    (w0 w : worker) (n : nat) :
  Z.of_nat n < BUFFER_UPDATE_FREQ cfg ->
  (forall i, 1 <= i <= Z.of_nat n -> done (env i) = false) ->
  init cfg i0 shared = Some w0 ->
  iterate cfg env n 1 w0 = Some w ->
  loss w = None.
Proof.
  intros Hf Hd H0. revert w. induction n as [|n IH]; intros w Hn.
  - simpl in Hn. injection Hn as <-. unfold init in H0.
    destruct (linspace _ _ _); [|discriminate]. simpl in H0. injection H0 as <-. reflexivity.
  - rewrite iterate_snoc in Hn.
    destruct (iterate cfg env n 1 w0) as [wn|] eqn:En; [|discriminate]. simpl in Hn.
    assert (Hl : buffer_length wn = Z.of_nat n).
    { eapply (first_cycle_separate cfg env); [| |exact H0|exact En];
        [lia|intros; apply Hd; lia]. }
    destruct (train_iteration_fields cfg _ _ _ _ Hn) as (_ & _ & _ & _ & Hloss).
    assert (Hno : flushes cfg wn (env (1 + Z.of_nat n)) = false).
    { unfold flushes. rewrite Hl, Hd by lia. rewrite orb_false_r.
      apply Z.eqb_neq. rewrite Z.mod_small by lia. lia. }
    rewrite Hno in Hloss. rewrite Hloss. apply IH; [lia|intros; apply Hd; lia|reflexivity].
Qed.

(** X13. Worker 2 reads the variable [loss] at iteration 100.  When the flush
    threshold is above 100 and no episode ends in the first 100 steps,
    nothing has assigned it, and [train] raises ([UnboundLocalError]) there
    if it runs that far. *)
Theorem unbound_loss_raises
    (env : Z -> observation) (shared : SharedAdam.optimizer) (w0 : worker) :
  init cfg 2 shared = Some w0 ->
  100 < BUFFER_UPDATE_FREQ cfg ->
  (forall i, 1 <= i <= 100 -> done (env i) = false) ->
  100 < TRAIN_ITERATIONS cfg ->
  train cfg env w0 = None.
Proof.
  intros H0 Hf Hd Ht. unfold train.
  replace (Z.to_nat (TRAIN_ITERATIONS cfg - 1))
    with (99 + S (Z.to_nat (TRAIN_ITERATIONS cfg - 101)))%nat by lia.
  rewrite iterate_add.
  destruct (iterate cfg env 99 1 w0) as [w|] eqn:E99; [|reflexivity].
  change (iterate cfg env (S (Z.to_nat (TRAIN_ITERATIONS cfg - 101))) (1 + Z.of_nat 99) w = None).
  change (1 + Z.of_nat 99) with 100.
  change (train_iteration cfg (env 100) 100 w
          ≫= (fun w' => iterate cfg env (Z.to_nat (TRAIN_ITERATIONS cfg - 101)) (100 + 1) w')
          = None).
  destruct (train_iteration cfg (env 100) 100 w) as [w'|] eqn:E; [|reflexivity].
  exfalso.
  assert (Hl : buffer_length w = 99).
  { apply (first_cycle_separate cfg env 2 shared w0 w 99); auto; [lia|].
    intros; apply Hd; lia. }
  assert (Hloss : loss w = None).
  { apply (first_cycle_loss env 2 shared w0 w 99); auto; [lia|]. intros; apply Hd; lia. }
  destruct (reachable_fields cfg _ _ _ _ _ _ H0 E99) as (_ & _ & Eid).
  destruct (train_iteration_fields cfg _ _ _ _ E) as (_ & Eid' & _ & _ & Hl').
  assert (Hno : flushes cfg w (env 100) = false).
  { unfold flushes. rewrite Hl, Hd by lia. rewrite orb_false_r.
    apply Z.eqb_neq. rewrite Z.mod_small by lia. lia. }
  rewrite Hno in Hl'.
  destruct (train_iteration_logged _ _ _ _ E eq_refl) as [l Hsome]; [congruence|].
  congruence.
Qed.

(** X14. [eplen] counts the steps since the last step that ended an episode:
    after [n] iterations of which the [j]-th was the last terminal one
    ([j = 0] when there was none), it is [n - j]. *)
Theorem eplen_counts_steps
    (env : Z -> observation) (i0 : Z) (shared : SharedAdam.optimizer)
    (w0 w : worker) (n j : nat) :
  init cfg i0 shared = Some w0 ->
  iterate cfg env n 1 w0 = Some w ->
  (j <= n)%nat ->
  j = 0%nat \/ done (env (Z.of_nat j)) = true ->
  (forall i, Z.of_nat j < i <= Z.of_nat n -> done (env i) = false) ->
  eplen w = Z.of_nat n - Z.of_nat j.
Proof.
  intros H0. revert w. induction n as [|n IH]; intros w Hn Hj Hlast Hafter.
  - simpl in Hn. injection Hn as <-. replace j with 0%nat by lia.
    unfold init in H0. destruct (linspace _ _ _); [|discriminate]. simpl in H0.
    injection H0 as <-. reflexivity.
  - rewrite iterate_snoc in Hn.
    destruct (iterate cfg env n 1 w0) as [wn|] eqn:En; [|discriminate]. simpl in Hn.
    destruct (train_iteration_fields cfg _ _ _ _ Hn) as (_ & _ & _ & He & _).
    rewrite He. destruct (decide (j = S n)) as [->|Hne].
    + destruct Hlast as [|Hd]; [lia|].
      replace (1 + Z.of_nat n) with (Z.of_nat (S n)) by lia. rewrite Hd. lia.
    + rewrite Hafter by lia.
      rewrite (IH wn eq_refl) by (try lia; try assumption; intros; apply Hafter; lia). lia.
Qed.

End Logging.

(** ** Checkpoint names *)

Section Paths.

Import ActorCriticWorker.

Variable cfg : config.

Lemma string_app_inv_head (s a b : string) :
  (s ++ a = s ++ b)%string -> a = b.
Proof.
  induction s as [|c s IH]; intros H; [exact H|].
  change (String c (s ++ a) = String c (s ++ b))%string in H. injection H as H. auto.
Qed.

Lemma string_length_app (a b : string) :
  String.length (a ++ b) = (String.length a + String.length b)%nat.
Proof.
  induction a as [|c a IH]; [reflexivity|].
  change (S (String.length (a ++ b)) = S (String.length a + String.length b)).
  rewrite IH. reflexivity.
Qed.

Lemma string_app_inv_tail (a b t : string) :
  (a ++ t = b ++ t)%string -> a = b.
Proof.
  revert b. induction a as [|c a IH]; intros [|c' b] H.
  - reflexivity.
  - apply (f_equal String.length) in H. rewrite !string_length_app in H. simpl in H. lia.
  - apply (f_equal String.length) in H. rewrite !string_length_app in H. simpl in H. lia.
  - change (String c (a ++ t) = String c' (b ++ t))%string in H.
    injection H as -> H. f_equal. apply IH, H.
Qed.

Lemma read_index_zeros (a : nat) (s : string) :
  read_index (zeros a ++ s) = read_index s.
Proof.
  unfold read_index. induction a as [|a IH]; [reflexivity|].
  change (zeros (S a) ++ s)%string with (String "0" (zeros a ++ s)).
  simpl. destruct (NilEmpty.uint_of_string (zeros a ++ s)%string) as [d|];
    destruct (NilEmpty.uint_of_string s) as [d'|]; simpl in *; try discriminate; auto.
Qed.

Lemma read_index_str (i : Z) : 0 <= i -> read_index (str i) = Some i.
Proof.
  intros Hi. unfold read_index, str. destruct i as [|p|p]; [reflexivity| |lia].
  simpl. assert (Hn := Unsigned.to_uint_nonnil p).
  replace (NilZero.string_of_uint (Pos.to_uint p))
    with (NilEmpty.string_of_uint (Pos.to_uint p))
    by (destruct (Pos.to_uint p); [contradiction|reflexivity..]).
  rewrite NilEmpty.usu. simpl. unfold Z.of_uint. rewrite Unsigned.of_to. reflexivity.
Qed.

(** X15. The iteration index can be read back from the padded number in the name
    of a checkpoint, so the checkpoints of two different iterations go to
    two different files. *)
Theorem checkpoint_path_injective (i j : Z) :
  0 <= i -> 0 <= j ->
  read_index (zfill 7 (str i)) = Some i /\
  (checkpoint_path cfg i = checkpoint_path cfg j -> i = j).
Proof.
  intros Hi Hj.
  assert (R : forall k, 0 <= k -> read_index (zfill 7 (str k)) = Some k).
  { intros k Hk. rewrite zfill_nonneg by exact Hk. rewrite read_index_zeros.
    apply read_index_str, Hk. }
  split; [apply R, Hi|].
  unfold checkpoint_path. intros H.
  apply string_app_inv_head in H. apply (string_app_inv_head "/") in H.
  apply string_app_inv_tail in H.
  pose proof (R i Hi) as Ri. rewrite H, (R j Hj) in Ri. congruence.
Qed.

End Paths.

(** ** The shape of the exploration schedule *)

Section ScheduleShape.

Import ActorCriticWorker.

Variable cfg : config.

(** X16. For a horizon of at least two samples the exploration rate of
    iteration [i] is the linear interpolation
    [initial + min (i, horizon - 1) * (final - initial) / (horizon - 1)]:
    it reaches the final rate at iteration [horizon - 1] and lies between
    the two rates throughout, whichever of them is the larger. *)
Theorem epsilon_linear (i0 : Z) (shared : SharedAdam.optimizer) (w : worker) (i : Z) :
  2 <= FINAL_EXPLORATION_FRAME cfg ->
  init cfg i0 shared = Some w ->
  0 <= i ->
  exists e,
    eps_at cfg (epsilon w) i = Some e /\
    e = (INITIAL_EXPLORATION cfg
         + IZR (Z.min i (FINAL_EXPLORATION_FRAME cfg - 1))
           * ((FINAL_EXPLORATION cfg - INITIAL_EXPLORATION cfg)
              / IZR (FINAL_EXPLORATION_FRAME cfg - 1)))%R /\
    (Rmin (INITIAL_EXPLORATION cfg) (FINAL_EXPLORATION cfg) <= e
     <= Rmax (INITIAL_EXPLORATION cfg) (FINAL_EXPLORATION cfg))%R.
Proof.
  intros Hn H0 Hi.
  destruct (init_inv cfg _ _ _ H0) as (_ & _ & _ & _ & El).
  set (N := FINAL_EXPLORATION_FRAME cfg) in *.
  set (a := INITIAL_EXPLORATION cfg) in *. set (b := FINAL_EXPLORATION cfg) in *.
  set (m := Z.min i (N - 1)).
  destruct (linspace_lookup a b N (Z.to_nat m) Hn ltac:(lia)) as (eps & El' & Hlen & Hk).
  rewrite El in El'. injection El' as <-.
  eexists. split.
  - rewrite eps_at_lookup by assumption. exact Hk.
  - rewrite INR_IZR_INZ, Z2Nat.id by lia. split; [reflexivity|].
    assert (Hpos : (0 < IZR (N - 1))%R) by (apply IZR_lt; lia).
    assert (H0m : (0 <= IZR m)%R) by (apply IZR_le; lia).
    assert (HmN : (IZR m <= IZR (N - 1))%R) by (apply IZR_le; lia).
    set (t := (IZR m / IZR (N - 1))%R).
    assert (Ht : (0 <= t <= 1)%R).
    { unfold t. split.
      - apply Rmult_le_pos; [exact H0m|]. left. apply Rinv_0_lt_compat, Hpos.
      - apply Rmult_le_reg_r with (IZR (N - 1)); [exact Hpos|].
        unfold Rdiv. rewrite Rmult_assoc, Rinv_l by lra. lra. }
    replace (a + IZR m * ((b - a) / IZR (N - 1)))%R with (a + t * (b - a))%R
      by (unfold t; field; lra).
    unfold Rmin, Rmax. destruct (Rle_dec a b); nra.
Qed.

(** X17. The degenerate horizons.  A negative one makes [__init__] raise; with
    zero the schedule is empty and every iteration raises at the lookup;
    with one the schedule has the initial rate only and never anneals. *)
Theorem epsilon_degenerate (i0 : Z) (shared : SharedAdam.optimizer) :
  (FINAL_EXPLORATION_FRAME cfg < 0 -> init cfg i0 shared = None) /\
  (FINAL_EXPLORATION_FRAME cfg = 0 ->
   exists w, init cfg i0 shared = Some w /\
             forall o i, train_iteration cfg o i w = None) /\
  (FINAL_EXPLORATION_FRAME cfg = 1 ->
   exists w, init cfg i0 shared = Some w /\
             forall i, 0 <= i ->
                       eps_at cfg (epsilon w) i = Some (INITIAL_EXPLORATION cfg)).
Proof.
  split; [|split]; intros Hn; unfold init, linspace.
  - destruct (Z.ltb_spec (FINAL_EXPLORATION_FRAME cfg) 0); [reflexivity|lia].
  - rewrite Hn. simpl. eexists. split; [reflexivity|]. intros o i.
    assert (G : forall j, getitem (@nil R) j = None).
    { intros j. unfold getitem. change (Z.of_nat (length (@nil R))) with 0.
      destruct (Z.ltb_spec j (- 0)), (Z.leb_spec 0 j); try reflexivity; lia. }
    unfold train_iteration, eps_at. simpl epsilon. rewrite G. reflexivity.
  - rewrite Hn. simpl. eexists. split; [reflexivity|]. intros i Hi.
    unfold eps_at. simpl. rewrite Hn. rewrite Z.min_r by lia. unfold getitem. simpl.
    f_equal. lra.
Qed.

End ScheduleShape.

(** ** The losses of the first cycle *)

Section FirstCycleLosses.

Import ActorCriticWorker.

Variable cfg : config.

Lemma lookup_item (l : list scalar) (xs : list R) (k : nat) (s : scalar) :
  item <$> l = Fin <$> xs -> l !! k = Some s ->
  exists x, xs !! k = Some x /\ item s = Fin x.
Proof.
  intros E Hs. apply (f_equal (fun l => l !! k)) in E.
  rewrite !list_lookup_fmap, Hs in E. simpl in E.
  destruct (xs !! k) as [x|]; [|discriminate]. injection E as E. eauto.
Qed.

(** The loop over the indices below [k], started from accumulators that
    hold the sums over the indices from [k] on. *)
Lemma loop_sums (d : gmap string nat) (h : list (list scalar))
    (lv lr : nat) (vs rs : list scalar) (xs rr : list R) (b : R) (value_1 : scalar)
    (k : nat) (acc acc' : scalar * scalar * scalar) :
  d !! "value"%string = Some lv -> d !! "reward"%string = Some lr ->
  h !! lv = Some (vs ++ [value_1]) -> h !! lr = Some rs ->
  item <$> vs = Fin <$> xs -> item <$> rs = Fin <$> rr -> item value_1 = Fin b ->
  length xs = length rr -> (k <= length xs)%nat ->
  item (acc.1.1) = Fin (squared_gaps (drop k xs) b) ->
  (exists xk, (xs ++ [b]) !! k = Some xk /\
              item (acc.2) = Fin (discounted_return (DISCOUNT cfg) (drop k rr) b - xk)) ->
  for_each (loss_body cfg d h value_1) acc (reversed_range (Z.of_nat k)) = Some acc' ->
  item (acc'.1.1) = Fin (squared_gaps xs b) /\
  exists x0, (xs ++ [b]) !! 0%nat = Some x0 /\
             item (acc'.2) = Fin (discounted_return (DISCOUNT cfg) rr b - x0).
Proof.
  intros Dv Dr Hv Hr Ev Er Eb Hlen. revert acc.
  induction k as [|k IH]; intros acc Hk Hsq Hg H.
  - simpl in H. injection H as <-. rewrite !drop_0 in *. split; [exact Hsq|exact Hg].
  - replace (Z.of_nat (S k)) with (Z.of_nat k + 1) in H by lia.
    rewrite reversed_range_succ in H by lia.
    simpl in H.
    destruct (loss_body cfg d h value_1 acc (Z.of_nat k)) as [acc1|] eqn:Eb1; [|discriminate].
    simpl in H. destruct acc as [[a1 a2] a3].
    destruct (loss_body_inv cfg _ _ _ _ _ _ _ _ Eb1)
      as (r & v & vn & lp & e & Gr & Gv & Gvn & _ & _ & ->).
    assert (Lvs : length vs = length xs).
    { apply (f_equal length) in Ev. rewrite !length_fmap in Ev. exact Ev. }
    assert (Lrs : length rs = length rr).
    { apply (f_equal length) in Er. rewrite !length_fmap in Er. exact Er. }
    destruct (buffer_get_some d h "reward" lr rs (Z.of_nat k) Dr Hr) as [Gr' _]; [lia|].
    destruct (buffer_get_some d h "value" lv (vs ++ [value_1]) (Z.of_nat k) Dv Hv) as [Gv' _];
      [rewrite length_app; simpl; lia|].
    destruct (buffer_get_some d h "value" lv (vs ++ [value_1]) (Z.of_nat k + 1) Dv Hv)
      as [Gvn' _]; [rewrite length_app; simpl; lia|].
    rewrite Gr', Nat2Z.id in Gr. rewrite Gv', Nat2Z.id in Gv.
    rewrite Gvn' in Gvn. replace (Z.to_nat (Z.of_nat k + 1)) with (S k) in Gvn by lia.
    destruct (lookup_item _ _ _ _ Er Gr) as (rk & Hrk & Ir).
    rewrite lookup_app_l in Gv by lia.
    destruct (lookup_item _ _ _ _ Ev Gv) as (xk & Hxk & Iv).
    assert (Ivn : exists xn, (xs ++ [b]) !! S k = Some xn /\ item vn = Fin xn).
    { destruct (decide (S k < length xs)%nat) as [Hlt|Hge].
      - rewrite lookup_app_l in Gvn by lia.
        destruct (lookup_item _ _ _ _ Ev Gvn) as (xn & Hxn & In).
        exists xn. rewrite lookup_app_l by lia. auto.
      - rewrite lookup_app_r in Gvn by lia.
        replace (S k - length vs)%nat with 0%nat in Gvn by lia. injection Gvn as <-.
        exists b. rewrite lookup_app_r by lia.
        replace (S k - length xs)%nat with 0%nat by lia. auto. }
    destruct Ivn as (xn & Hxn & In).
    destruct Hg as (xk' & Hxk' & Ig). rewrite Hxn in Hxk'. injection Hxk' as <-.
    simpl in Hsq, Ig.
    apply (IH _ ltac:(lia)) in H; [exact H| |].
    + simpl. rewrite Hsq, Eb, Iv. simpl. f_equal.
      rewrite (drop_S xs xk k Hxk). simpl. unfold squared_gaps. reflexivity.
    + exists xk. split; [rewrite lookup_app_l by lia; exact Hxk|].
      simpl. rewrite Ig, Ir, In, Iv. simpl. f_equal.
      rewrite (drop_S rr rk k Hrk). simpl. ring.
Qed.

End FirstCycleLosses.

Section FirstCycleTheorems.

Import ActorCriticWorker.

Variable cfg : config.

Lemma losses_first_cycle (w : worker) (vs lps rs es : list scalar) (xs rr : list R)
    (b : R) (value_1 : scalar) (h : list (list scalar)) (lv lp gae : scalar) :
  separate w vs lps rs es ->
  Z.of_nat (length vs) = buffer_length w ->
  Z.of_nat (length rs) = buffer_length w ->
  item <$> vs = Fin <$> xs -> item <$> rs = Fin <$> rr -> item value_1 = Fin b ->
  losses cfg (buffer w) (store w) (buffer_length w) value_1 = Some (h, (lv, lp, gae)) ->
  item lv = Fin (squared_gaps xs b) /\
  exists x0, (xs ++ [b]) !! 0%nat = Some x0 /\
             item gae = Fin (discounted_return (DISCOUNT cfg) rr b - x0).
Proof.
  intros (l1 & l2 & l3 & l4 & Dv & _ & Dr & _ & Hnd & Sv & _ & Sr & _) Lv Lr Ev Er Eb H.
  apply NoDup_cons in Hnd as [N1 _]. assert (Nvr : l1 <> l3) by set_solver.
  unfold losses in H. rewrite Dv in H. simpl in H.
  rewrite (append_some _ _ _ _ Sv) in H. simpl in H.
  destruct (for_each _ _ _) as [acc|] eqn:Eloop; [|discriminate]. simpl in H.
  injection H as <- ->.
  assert (Lxs : length vs = length xs).
  { apply (f_equal length) in Ev. rewrite !length_fmap in Ev. exact Ev. }
  assert (Lrr : length rs = length rr).
  { apply (f_equal length) in Er. rewrite !length_fmap in Er. exact Er. }
  rewrite <- Lv, Lxs in Eloop.
  pose proof (loop_sums cfg (buffer w) (<[l1:=vs ++ [value_1]]> (store w)) l1 l3 vs rs xs rr b value_1 (length xs)
                (number 0, number 0, number 0) (lv, lp, gae) Dv Dr) as L.
  simpl in L. apply L; clear L; try assumption; try lia.
  - apply list_lookup_insert_eq. eapply lookup_lt_Some, Sv.
  - rewrite list_lookup_insert_ne by exact Nvr. exact Sr.
  - rewrite drop_all. reflexivity.
  - exists b. split.
    + rewrite lookup_app_r by lia. rewrite Nat.sub_diag. reflexivity.
    + rewrite drop_ge by lia. simpl. f_equal. lra.
Qed.

(** X18. In a buffer whose keys hold four lists, as it is until the first
    flush, the advantage accumulator that [optimize_model] ends with is the
    discounted return of the buffered rewards, bootstrapped with [value_1],
    minus the value estimate of the first buffered step. *)
Theorem gae_is_return_minus_value (w : worker) (vs lps rs es : list scalar)
    (xs rr : list R) (b : R) (value_1 : scalar) (h : list (list scalar))
    (lv lp gae : scalar) :
  separate w vs lps rs es ->
  Z.of_nat (length vs) = buffer_length w ->
  Z.of_nat (length rs) = buffer_length w ->
  item <$> vs = Fin <$> xs -> item <$> rs = Fin <$> rr -> item value_1 = Fin b ->
  losses cfg (buffer w) (store w) (buffer_length w) value_1 = Some (h, (lv, lp, gae)) ->
  exists x0, (xs ++ [b]) !! 0%nat = Some x0 /\
             item gae = Fin (discounted_return (DISCOUNT cfg) rr b - x0).
Proof. intros. eapply losses_first_cycle; eassumption. Qed.

(** X19. In such a buffer the value loss that [optimize_model] accumulates is
    the sum over the buffered steps of [(value_1 - value_i)^2]: the rewards
    and the discount do not enter it. *)
Theorem value_loss_is_squared_gaps (w : worker) (vs lps rs es : list scalar)
    (xs rr : list R) (b : R) (value_1 : scalar) (h : list (list scalar))
    (lv lp gae : scalar) :
  separate w vs lps rs es ->
  Z.of_nat (length vs) = buffer_length w ->
  Z.of_nat (length rs) = buffer_length w ->
  item <$> vs = Fin <$> xs -> item <$> rs = Fin <$> rr -> item value_1 = Fin b ->
  losses cfg (buffer w) (store w) (buffer_length w) value_1 = Some (h, (lv, lp, gae)) ->
  item lv = Fin (squared_gaps xs b).
Proof. intros. eapply losses_first_cycle; eassumption. Qed.

End FirstCycleTheorems.

(** ** The heads of the network *)

Section Heads.

Import ActorCriticNetwork.
Local Open Scope R_scope.

Lemma sum_cons (x : R) (l : list R) : sum (x :: l) = x + sum l.
Proof. reflexivity. Qed.

Lemma sum_exp_nonneg (y : list R) : 0 <= sum (exp <$> y).
Proof.
  induction y as [|z y IH]; [simpl; lra|].
  rewrite fmap_cons, sum_cons. pose proof (exp_pos z). lra.
Qed.

Lemma sum_exp_pos (y : list R) : y <> [] -> 0 < sum (exp <$> y).
Proof.
  destruct y as [|x y]; [congruence|]. intros _.
  rewrite fmap_cons, sum_cons.
  pose proof (sum_exp_nonneg y). pose proof (exp_pos x). lra.
Qed.

Lemma sum_exp_ge (y : list R) (a : nat) (x : R) :
  y !! a = Some x -> exp x <= sum (exp <$> y).
Proof.
  revert a. induction y as [|z y IH]; intros [|a] H; try discriminate;
    rewrite fmap_cons, sum_cons.
  - injection H as ->. pose proof (sum_exp_nonneg y). lra.
  - specialize (IH _ H). pose proof (exp_pos z). lra.
Qed.

Lemma sum_scaled (c : R) (l : list R) :
  sum ((fun x => x / c) <$> l) = sum l / c.
Proof.
  induction l as [|x l IH]; [simpl; lra|].
  rewrite fmap_cons, !sum_cons, IH. lra.
Qed.

Lemma softmax_sum (y : list R) : y <> [] -> sum (softmax y) = 1.
Proof.
  intros Hy. pose proof (sum_exp_pos y Hy) as Hp. unfold softmax.
  replace ((fun x => exp x / sum (exp <$> y)) <$> y)
    with ((fun x => x / sum (exp <$> y)) <$> (exp <$> y)).
  - rewrite sum_scaled. field. lra.
  - rewrite <- list_fmap_compose. reflexivity.
Qed.

Lemma softmax_lookup (y : list R) (a : nat) (x : R) :
  y !! a = Some x ->
  softmax y !! a = Some (exp x / sum (exp <$> y)) /\
  log_softmax y !! a = Some (x - ln (sum (exp <$> y))).
Proof.
  intros H. unfold softmax, log_softmax. rewrite !list_lookup_fmap, H. split; reflexivity.
Qed.

Lemma log_softmax_exp (y : list R) (x : R) :
  y <> [] -> exp (x - ln (sum (exp <$> y))) = exp x / sum (exp <$> y).
Proof.
  intros Hy. pose proof (sum_exp_pos y Hy) as Hp.
  unfold Rminus. rewrite exp_plus, exp_Ropp, exp_ln by exact Hp. reflexivity.
Qed.

Lemma log_softmax_nonpos (y : list R) (a : nat) (x : R) :
  y !! a = Some x -> x - ln (sum (exp <$> y)) <= 0.
Proof.
  intros H. pose proof (sum_exp_ge y a x H) as Hle.
  pose proof (exp_pos x) as Hx.
  assert (x <= ln (sum (exp <$> y))); [|lra].
  rewrite <- (ln_exp x) at 1.
  destruct Hle as [Hlt | Heq].
  - left. apply ln_increasing; assumption.
  - right. rewrite Heq. reflexivity.
Qed.

Lemma entropy_terms (y z : list R) :
  (forall a x, z !! a = Some x -> exists a', y !! a' = Some x) ->
  sum (zip_with Rmult ((fun x => exp x / sum (exp <$> y)) <$> z)
                      ((fun x => x - ln (sum (exp <$> y))) <$> z)) <= 0.
Proof.
  induction z as [|x z IH]; intros Hin; [simpl; lra|].
  destruct (Hin 0%nat x eq_refl) as [a' Ha'].
  assert (Hz : sum (zip_with Rmult ((fun x => exp x / sum (exp <$> y)) <$> z)
                      ((fun x => x - ln (sum (exp <$> y))) <$> z)) <= 0).
  { apply IH. intros a x' Hx'. apply (Hin (S a) x' Hx'). }
  pose proof (log_softmax_nonpos y a' x Ha') as Hl.
  assert (Hy : y <> []) by (intros ->; discriminate).
  pose proof (sum_exp_pos y Hy) as Hs. pose proof (exp_pos x) as Hx.
  assert (Hp : 0 < exp x / sum (exp <$> y)) by (apply Rdiv_lt_0_compat; assumption).
  rewrite !fmap_cons. change (zip_with Rmult (?a :: ?l) (?b :: ?k))
    with (a * b :: zip_with Rmult l k).
  rewrite sum_cons.
  assert (exp x / sum (exp <$> y) * (x - ln (sum (exp <$> y))) <= 0); [|lra].
  replace 0 with (exp x / sum (exp <$> y) * 0) by lra.
  apply Rmult_le_compat_l; lra.
Qed.

Lemma entropy_nonneg (y : list R) : 0 <= entropy y.
Proof.
  unfold entropy, softmax, log_softmax.
  pose proof (entropy_terms y y) as H.
  assert (forall a x, y !! a = Some x -> exists a', y !! a' = Some x) by eauto.
  specialize (H H0). lra.
Qed.

Lemma sum_app (l k : list R) : sum (l ++ k) = sum l + sum k.
Proof. induction l as [|x l IH]; simpl; [lra|]. rewrite IH. lra. Qed.

(** Gibbs' inequality against the uniform distribution, term by term. *)
Lemma entropy_upper_terms (s n : R) (z : list R) :
  0 < s -> 0 < n ->
  - sum (zip_with Rmult ((fun x => exp x / s) <$> z) ((fun x => x - ln s) <$> z))
    - ln n * sum ((fun x => exp x / s) <$> z)
  <= INR (length z) / n - sum ((fun x => exp x / s) <$> z).
Proof.
  intros Hs Hn. induction z as [|x z IH].
  - simpl. lra.
  - change (length (x :: z)) with (S (length z)). rewrite S_INR.
    rewrite !fmap_cons.
    change (zip_with Rmult (?a :: ?l) (?b :: ?k)) with (a * b :: zip_with Rmult l k).
    rewrite !sum_cons.
    set (T := sum (zip_with Rmult ((fun x => exp x / s) <$> z)
                                  ((fun x => x - ln s) <$> z))) in *.
    set (P := sum ((fun x => exp x / s) <$> z)) in *.
    set (p := exp x / s).
    assert (Hp : 0 < p) by (apply Rdiv_lt_0_compat; [apply exp_pos | exact Hs]).
    assert (Hl : x - ln s = ln p).
    { unfold p, Rdiv.
      rewrite ln_mult; [|apply exp_pos|apply Rinv_0_lt_compat; exact Hs].
      rewrite ln_exp, ln_Rinv by exact Hs. lra. }
    rewrite Hl.
    assert (Ht : 0 < / (n * p)) by (apply Rinv_0_lt_compat, Rmult_lt_0_compat; assumption).
    pose proof (exp_ineq1_le (ln (/ (n * p)))) as Hi.
    rewrite exp_ln in Hi by exact Ht.
    rewrite ln_Rinv in Hi by (apply Rmult_lt_0_compat; assumption).
    rewrite ln_mult in Hi by assumption.
    assert (Hm : p * (- ln n - ln p) <= p * (/ (n * p) - 1)).
    { apply Rmult_le_compat_l; lra. }
    assert (Hq : p * (/ (n * p) - 1) = / n - p) by (field; lra).
    set (L := ln p) in *. set (N := ln n) in *.
    assert (Hd : (INR (length z) + 1) / n = INR (length z) / n + / n) by (field; lra).
    rewrite Hd. lra.
Qed.

Lemma entropy_upper (y : list R) : y <> [] -> entropy y <= ln (INR (length y)).
Proof.
  intros Hy. pose proof (sum_exp_pos y Hy) as Hs.
  assert (Hn : 0 < INR (length y)).
  { apply lt_0_INR. destruct y; [congruence | simpl; lia]. }
  pose proof (entropy_upper_terms _ _ y Hs Hn) as H.
  pose proof (softmax_sum y Hy) as H1. unfold softmax in H1.
  unfold entropy, softmax, log_softmax. rewrite H1 in H.
  replace (INR (length y) / INR (length y)) with 1 in H by (field; lra).
  lra.
Qed.

(** X20. Whatever [forward] returns is sound: the action is one of the
    [length y] actions, the log probability is the logarithm of the
    softmax probability of that action and is at most 0, the probabilities
    sum to 1, the entropy lies between 0 and [ln (length y)], and the value
    is the critic's output. *)
Theorem forward_returns_distribution (y : list R) (v eps u : R) (sampled : nat)
    (coin : bool) (action : nat) (e log_prob value : R) :
  (2 <= length y)%nat ->
  forward y v eps u sampled coin = Some (action, e, log_prob, value) ->
  (action < length y)%nat /\
  (exists p, softmax y !! action = Some p /\ 0 < p <= 1 /\ log_prob = ln p) /\
  log_prob <= 0 /\
  sum (softmax y) = 1 /\
  e = entropy y /\ 0 <= e <= ln (INR (length y)) /\
  value = v.
Proof.
  unfold forward, gather. intros _ H.
  destruct (if Rle_dec u eps then choice (length y) coin else Some sampled)
    as [a|] eqn:Ea; [|discriminate]. simpl in H.
  destruct (log_softmax y !! a) as [l|] eqn:El; [|discriminate]. simpl in H.
  injection H as -> <- -> <-.
  assert (Hlt : (action < length y)%nat).
  { apply lookup_lt_Some in El. unfold log_softmax in El.
    rewrite length_fmap in El. exact El. }
  destruct (lookup_lt_is_Some_2 y action Hlt) as [x Hx].
  assert (Hy : y <> []) by (intros ->; discriminate).
  destruct (softmax_lookup y action x Hx) as [Hp Hl].
  rewrite Hl in El. injection El as <-.
  pose proof (sum_exp_pos y Hy) as Hs. pose proof (exp_pos x) as Hex.
  pose proof (sum_exp_ge y action x Hx) as Hge.
  split; [exact Hlt|]. split; [|split; [|split; [|split; [|split]]]].
  - exists (exp x / sum (exp <$> y)). split; [exact Hp|]. split.
    + split; [apply Rdiv_lt_0_compat; assumption|].
      apply (Rmult_le_reg_r (sum (exp <$> y))); [exact Hs|].
      unfold Rdiv. rewrite Rmult_assoc, Rinv_l by lra. lra.
    + rewrite <- log_softmax_exp by exact Hy. rewrite ln_exp. reflexivity.
  - eapply log_softmax_nonpos, Hx.
  - apply softmax_sum, Hy.
  - reflexivity.
  - split; [apply entropy_nonneg | apply entropy_upper, Hy].
  - reflexivity.
Qed.

(** X21. The exploration override draws from a distribution over two actions:
    when the draw [u] is at most [eps], [forward] raises unless the actor
    has exactly two outputs, and then returns action 0 or 1 whatever was
    sampled; with [u] above [eps] (always so for the default [eps = -1],
    [random.random()] being at least 0) it returns the sampled action. *)
Theorem forward_exploration (y : list R) (v eps u : R) (sampled : nat) (coin : bool) :
  (u <= eps -> length y <> 2%nat -> forward y v eps u sampled coin = None) /\
  (u <= eps -> length y = 2%nat ->
     exists l, forward y v eps u sampled coin
               = Some (if coin then 1%nat else 0%nat, entropy y, l, v)) /\
  (eps < u -> (2 <= length y)%nat -> (sampled < length y)%nat ->
     exists l, forward y v eps u sampled coin = Some (sampled, entropy y, l, v)).
Proof.
  unfold forward, gather, choice. repeat split.
  - intros Hu Hn. destruct (Rle_dec u eps); [|lra].
    apply Nat.eqb_neq in Hn. rewrite Hn. reflexivity.
  - intros Hu Hn. destruct (Rle_dec u eps); [|lra]. rewrite Hn. simpl.
    assert (Hlt : ((if coin then 1 else 0) < length (log_softmax y))%nat).
    { unfold log_softmax. rewrite length_fmap, Hn. destruct coin; lia. }
    destruct (lookup_lt_is_Some_2 _ _ Hlt) as [l Hl]. rewrite Hl. simpl. eauto.
  - intros Hu _ Hn. destruct (Rle_dec u eps); [lra|]. simpl.
    assert (Hlt : (sampled < length (log_softmax y))%nat).
    { unfold log_softmax. rewrite length_fmap. exact Hn. }
    destruct (lookup_lt_is_Some_2 _ _ Hlt) as [l Hl]. rewrite Hl. simpl. eauto.
Qed.

End Heads.

(** ** Instances of the theorems on the optimizer of [Examples] *)

Section OptimizerInstances.

Import ActorCriticWorker.

Lemma defaults_valid : SharedAdam.valid_group EdgeCases.defaults.
Proof. split; simpl; lra. Qed.

Lemma two_calls_fit : Forall (fun gs => fits gs [[Fin 1]; [Fin 1]]) Examples.two_calls.
Proof. repeat constructor. Qed.

Lemma step_frame_witness :
  exists opt',
    SharedAdam.step Examples.first_has_gradient = Some opt' /\
    Forall2 (fun g g' => SharedAdam.lr g' = SharedAdam.lr g)
            Examples.first_has_gradient opt'.
Proof.
  destruct (step_total _ first_has_gradient_wf) as (opt' & E & _).
  exists opt'. split; [exact E|].
  eapply Forall2_impl; [exact (step_frame _ _ E)|].
  intros g g' H. exact (proj1 H).
Defined.

Lemma counter_counts_gradients_witness :
  exists opt p q,
    apply_calls Examples.two_calls Examples.two_tensors = Some opt /\
    SharedAdam.parameters opt = [p; q] /\
    SharedAdam.state_step p = 2%nat /\ SharedAdam.state_step q = 1%nat.
Proof.
  destruct (apply_calls_one_group [[Fin 1]; [Fin 1]] Examples.two_calls
              Examples.two_tensors two_calls_fit (init_one_group _ 1))
    as (opt & E & (g & -> & _ & Hs)).
  apply Forall2_cons_inv_r in Hs as (p & l & _ & Hs & Ep).
  apply Forall2_cons_inv_r in Hs as (q & l' & _ & Hs & ->).
  apply Forall2_nil_inv_r in Hs as ->.
  assert (Hall : Forall (fun gs : list (option tensor) => length gs = length [[Fin 1]; [Fin 1]])
                        Examples.two_calls) by (repeat constructor).
  exists [g], p, q. split; [exact E|].
  assert (Epar : SharedAdam.parameters [g] = [p; q]).
  { unfold SharedAdam.parameters. simpl. rewrite app_nil_r. exact Ep. }
  assert (Hfew : Z.of_nat (length Examples.two_calls) <= 2 ^ 24) by (simpl; lia).
  split; [exact Epar|]. split.
  - apply (counter_counts_gradients [[Fin 1]; [Fin 1]] 1 Examples.two_calls [g] 0 p
             Hfew Hall E).
    rewrite Epar. reflexivity.
  - apply (counter_counts_gradients [[Fin 1]; [Fin 1]] 1 Examples.two_calls [g] 1 q
             Hfew Hall E).
    rewrite Epar. reflexivity.
Defined.

Lemma pushes_never_raise_witness :
  exists opt,
    apply_calls Examples.two_calls Examples.two_tensors = Some opt /\
    length <$> SharedAdam.state_dict opt = [1%nat; 1%nat].
Proof.
  exact (pushes_never_raise [[Fin 1]; [Fin 1]] 1 Examples.two_calls two_calls_fit).
Defined.

Lemma step_moving_averages_witness :
  exists p',
    SharedAdam.step_param EdgeCases.defaults EdgeCases.fresh_with_gradient = Some p' /\
    SharedAdam.state_exp_avg p' !! 0%nat = Some (Fin (0.9 * 0 + (1 - 0.9) * 1)) /\
    SharedAdam.state_exp_avg_sq p' !! 0%nat
    = Some (Fin (0.999 * 0 + (1 - 0.999) * (1 * 1))).
Proof.
  destruct (step_param_total EdgeCases.defaults EdgeCases.fresh_with_gradient
              defaults_valid eq_refl) as (p' & E & _).
  exists p'. split; [exact E|].
  exact (step_moving_averages EdgeCases.defaults EdgeCases.fresh_with_gradient p'
           [Fin 1] 0 0 0 1 eq_refl eq_refl E eq_refl eq_refl eq_refl).
Defined.

Lemma first_step_bounded_witness :
  exists p' y,
    SharedAdam.step_param EdgeCases.defaults EdgeCases.fresh_with_gradient = Some p' /\
    SharedAdam.data p' !! 0%nat = Some (Fin y) /\ (Rabs (y - 1) <= 1)%R.
Proof.
  destruct (step_param_total EdgeCases.defaults EdgeCases.fresh_with_gradient
              defaults_valid eq_refl) as (p' & E & _).
  destruct (first_step_bounded EdgeCases.defaults EdgeCases.fresh_with_gradient p'
              [Fin 1] 0 1 1 defaults_valid eq_refl) as (y & Hy & Hb);
    try reflexivity; try exact E; try (simpl; lra).
  exists p', y. auto.
Defined.

End OptimizerInstances.

(** ** Instances on the run of [example_run] *)

Section WorkerInstances.

Import ActorCriticWorker.

Lemma buffer_reads_never_raise_witness :
  exists w0 w2 w',
    init Examples.cfg 0 Examples.two_tensors = Some w0 /\
    iterate Examples.cfg Examples.env 3 1 w0 = Some w2 /\
    collect w2 Examples.calm_step = Some w' /\
    is_Some (losses Examples.cfg (buffer w') (store w') (buffer_length w') (number 0)).
Proof.
  destruct example_run as (w0 & w1 & w2 & w3 & H0 & Hf & H1 & H2 & Hnf & H3 & H4 & Ht).
  destruct (buffer_reads_never_raise Examples.cfg Examples.env 0 Examples.two_tensors
              w0 w2 3 Examples.calm_step H0 H4) as (w' & Ec & _ & Hl).
  exists w0, w2, w'. auto.
Defined.

Lemma first_cycle_keeps_sequences_witness :
  exists w0 w,
    init Examples.cfg 0 Examples.two_tensors = Some w0 /\
    iterate Examples.cfg EdgeCases.calm_env 2 1 w0 = Some w /\
    buffer_length w = 2.
Proof.
  eexists _, _. split; [vm_compute; reflexivity|]. split; [vm_compute; reflexivity|].
  refine (proj2 (first_cycle_keeps_sequences Examples.cfg EdgeCases.calm_env 0
                   Examples.two_tensors _ _ 2 _ _ _ _)).
  - simpl. lia.
  - intros i _. reflexivity.
  - vm_compute. reflexivity.
  - vm_compute. reflexivity.
Defined.

Lemma reads_after_flush_witness :
  exists w0 w1 w2,
    init Examples.cfg 0 Examples.two_tensors = Some w0 /\
    train_iteration Examples.cfg (Examples.env 1) 1 w0 = Some w1 /\
    collect w1 Examples.calm_step = Some w2 /\
    buffer_get (buffer w2) (store w2) "reward" 0 = Some (value Examples.calm_step).
Proof.
  destruct example_run as (w0 & w1 & w2 & w3 & H0 & Hf & H1 & H2 & Hnf & H3 & H4 & Ht).
  assert (Hc : consistent w1).
  { apply (reachable_consistent Examples.cfg Examples.env 0 Examples.two_tensors w0 w1 1 H0).
    simpl. rewrite H1. reflexivity. }
  destruct (collect_total w1 Examples.calm_step Hc) as (w' & Ec).
  exists w0, w1, w'. split; [exact H0|]. split; [exact H1|]. split; [exact Ec|].
  refine (proj1 (reads_after_flush Examples.cfg (Examples.env 1) Examples.calm_step 1
                   w0 w1 w' "reward" Hf H1 Ec _)).
  apply list_elem_of_In. simpl. auto.
Defined.

Lemma local_copy_in_sync_witness :
  exists w0 w2,
    init Examples.cfg 0 Examples.two_tensors = Some w0 /\
    iterate Examples.cfg Examples.env 3 1 w0 = Some w2 /\
    net w2 = SharedAdam.state_dict (shared_opt w2).
Proof.
  destruct example_run as (w0 & w1 & w2 & w3 & H0 & Hf & H1 & H2 & Hnf & H3 & H4 & Ht).
  exists w0, w2. split; [exact H0|]. split; [exact H4|].
  exact (proj1 (local_copy_in_sync Examples.cfg Examples.env 0 Examples.two_tensors
                  w0 w2 3 H0 H4)).
Defined.

Lemma zero_frequency_raises_witness :
  exists w0,
    init EdgeCases.cfg_no_flush 0 Examples.two_tensors = Some w0 /\
    train EdgeCases.cfg_no_flush Examples.env w0 = None.
Proof.
  eexists. split; [vm_compute; reflexivity|].
  exact (proj2 (zero_frequency_raises EdgeCases.cfg_no_flush Examples.env _
                  (or_introl eq_refl))).
Defined.

Lemma unbound_loss_raises_witness :
  exists w0,
    init EdgeCases.cfg_sparse 2 Examples.two_tensors = Some w0 /\
    train EdgeCases.cfg_sparse EdgeCases.calm_env w0 = None.
Proof.
  eexists. split; [vm_compute; reflexivity|].
  apply (unbound_loss_raises EdgeCases.cfg_sparse EdgeCases.calm_env Examples.two_tensors).
  - vm_compute. reflexivity.
  - simpl. lia.
  - intros i _. reflexivity.
  - simpl. lia.
Defined.

Lemma eplen_counts_steps_witness :
  exists w0 w2,
    init Examples.cfg 0 Examples.two_tensors = Some w0 /\
    iterate Examples.cfg Examples.env 3 1 w0 = Some w2 /\
    eplen w2 = 2.
Proof.
  destruct example_run as (w0 & w1 & w2 & w3 & H0 & Hf & H1 & H2 & Hnf & H3 & H4 & Ht).
  exists w0, w2. split; [exact H0|]. split; [exact H4|].
  apply (eplen_counts_steps Examples.cfg Examples.env 0 Examples.two_tensors w0 w2 3 1 H0 H4).
  - lia.
  - right. reflexivity.
  - intros i Hi. unfold Examples.env. destruct (Z.eqb_spec i 1); [lia|reflexivity].
Defined.

Lemma checkpoint_path_injective_witness :
  read_index (zfill 7 (str 42)) = Some 42.
Proof.
  apply (proj1 (checkpoint_path_injective Examples.cfg 42 42 ltac:(lia) ltac:(lia))).
Defined.

Lemma epsilon_linear_witness :
  exists w e,
    init Examples.cfg 0 Examples.two_tensors = Some w /\
    eps_at Examples.cfg (epsilon w) 2 = Some e /\
    e = (1 + IZR 2 * ((0.1 - 1) / IZR 3))%R.
Proof.
  evar (w : worker).
  assert (H0 : init Examples.cfg 0 Examples.two_tensors = Some w)
    by (unfold w; vm_compute; reflexivity).
  destruct (epsilon_linear Examples.cfg 0 Examples.two_tensors w 2) as (e & He & Hv & _);
    [simpl; lia | exact H0 | lia |].
  exists w, e. split; [exact H0|]. split; [exact He|exact Hv].
Defined.

Lemma epsilon_degenerate_witness :
  exists w,
    init EdgeCases.cfg_constant 0 Examples.two_tensors = Some w /\
    forall i, 0 <= i -> eps_at EdgeCases.cfg_constant (epsilon w) i = Some 1%R.
Proof.
  exact (proj2 (proj2 (epsilon_degenerate EdgeCases.cfg_constant 0 Examples.two_tensors))
           eq_refl).
Defined.

Lemma first_collect_separate :
  exists w,
    init Examples.cfg 0 Examples.two_tensors ≫= (fun w => collect w Examples.calm_step)
      = Some w /\
    buffer_length w = 1 /\
    separate w [value Examples.calm_step] [log_prob Examples.calm_step]
               [reward Examples.calm_step] [entropy Examples.calm_step].
Proof.
  destruct (init Examples.cfg 0 Examples.two_tensors) as [w0|] eqn:E0;
    [|vm_compute in E0; discriminate].
  destruct (init_separate Examples.cfg _ _ _ E0) as [Hs Hl].
  destruct (collect_separate w0 Examples.calm_step _ _ _ _ Hs) as (w & Ec & Hw).
  exists w. split; [exact Ec|]. split; [|exact Hw].
  destruct (collect_inv _ _ _ Ec)
    as (lv & la & lr & le & h1 & h2 & h3 & _ & _ & _ & _ & _ & _ & _ & _ & _ & Hw' & _).
  rewrite Hw', Hl. reflexivity.
Qed.

Lemma gae_is_return_minus_value_witness :
  exists w gae,
    init Examples.cfg 0 Examples.two_tensors ≫= (fun w => collect w Examples.calm_step)
      = Some w /\
    snd <$> (snd <$> losses Examples.cfg (buffer w) (store w) (buffer_length w)
                       (next_value Examples.calm_step)) = Some gae /\
    item gae = Fin (1 + 0.99 * 0.25 - 0.5).
Proof.
  destruct first_collect_separate as (w & Ew & Hl & Hs).
  destruct (losses_some Examples.cfg w (next_value Examples.calm_step)) as ([h [[lv lp] gae]] & El).
  { split; [lia|]. left. eexists _, _, _, _. split; [exact Hs|]. rewrite Hl. auto. }
  exists w, gae. split; [exact Ew|]. rewrite El. split; [reflexivity|].
  destruct (gae_is_return_minus_value Examples.cfg w _ _ _ _ [0.5%R] [1%R] 0.25%R
              (next_value Examples.calm_step) h lv lp gae Hs)
    as (x0 & Hx & Hg); try reflexivity; try exact El; try (rewrite Hl; reflexivity).
  injection Hx as <-. exact Hg.
Defined.

Lemma value_loss_is_squared_gaps_witness :
  exists w lv,
    init Examples.cfg 0 Examples.two_tensors ≫= (fun w => collect w Examples.calm_step)
      = Some w /\
    fst <$> (fst <$> (snd <$> losses Examples.cfg (buffer w) (store w) (buffer_length w)
                                (next_value Examples.calm_step))) = Some lv /\
    item lv = Fin (0 + (0.25 - 0.5) * (0.25 - 0.5)).
Proof.
  destruct first_collect_separate as (w & Ew & Hl & Hs).
  destruct (losses_some Examples.cfg w (next_value Examples.calm_step)) as ([h [[lv lp] gae]] & El).
  { split; [lia|]. left. eexists _, _, _, _. split; [exact Hs|]. rewrite Hl. auto. }
  exists w, lv. split; [exact Ew|]. rewrite El. split; [reflexivity|].
  apply (value_loss_is_squared_gaps Examples.cfg w _ _ _ _ [0.5%R] [1%R] 0.25%R
           (next_value Examples.calm_step) h lv lp gae Hs);
    try reflexivity; try exact El; try (rewrite Hl; reflexivity).
Defined.

End WorkerInstances.

(** ** Instances on the network heads *)

Section HeadInstances.

Import ActorCriticNetwork.

Lemma forward_returns_distribution_witness :
  exists l,
    forward EdgeCases.even_logits 1 (-1) 0 0 false
    = Some (0%nat, entropy EdgeCases.even_logits, l, 1%R) /\
    (l <= 0)%R /\ sum (softmax EdgeCases.even_logits) = 1%R.
Proof.
  assert (E : forward EdgeCases.even_logits 1 (-1) 0 0 false
              = Some (0%nat, entropy EdgeCases.even_logits,
                      (0 - ln (sum (exp <$> EdgeCases.even_logits)))%R, 1%R)).
  { unfold forward. destruct (Rle_dec 0 (-1)); [lra|]. reflexivity. }
  eexists. split; [exact E|].
  destruct (forward_returns_distribution EdgeCases.even_logits 1 (-1) 0 0 false _ _ _ _
              ltac:(simpl; lia) E) as (_ & _ & Hl & Hs & _).
  split; [exact Hl|exact Hs].
Defined.

Lemma forward_exploration_witness :
  forward [0%R; 0%R; 0%R] 1 1 0 0 false = None.
Proof.
  apply (proj1 (forward_exploration [0%R; 0%R; 0%R] 1 1 0 0 false)).
  - lra.
  - simpl. lia.
Defined.

End HeadInstances.

(** ** The policy loss of the first cycle *)

Section FirstCyclePolicy.

Import ActorCriticWorker.

Variable cfg : config.

(** The value that follows step [k] in the list under ['value'] once the
    bootstrap value has been appended. *)
Lemma next_value_head (vs : list scalar) (value_1 vn : scalar) (k : nat) :
  (k < length vs)%nat ->
  (vs ++ [value_1]) !! S k = Some vn ->
  default value_1 (head (drop (S k) vs)) = vn.
Proof.
  intros Hk H. destruct (decide (S k < length vs)%nat) as [Hlt|Hge].
  - rewrite lookup_app_l in H by lia. rewrite (drop_S _ _ _ H). reflexivity.
  - rewrite lookup_app_r in H by lia.
    replace (S k - length vs)%nat with 0%nat in H by lia. injection H as <-.
    rewrite drop_ge by lia. reflexivity.
Qed.

(** The loop over the indices below [k], started from the accumulators of
    the specification over the steps from [k] on. *)
Lemma loop_policy (d : gmap string nat) (h : list (list scalar))
    (lv la lr le : nat) (vs lps rs es : list scalar) (value_1 : scalar)
    (k : nat) (acc acc' : scalar * scalar * scalar) :
  d !! "value"%string = Some lv -> d !! "action_prob"%string = Some la ->
  d !! "reward"%string = Some lr -> d !! "entropy"%string = Some le ->
  h !! lv = Some (vs ++ [value_1]) -> h !! la = Some lps ->
  h !! lr = Some rs -> h !! le = Some es ->
  length lps = length vs -> length rs = length vs -> length es = length vs ->
  (k <= length vs)%nat ->
  (acc.1.2, acc.2)
  = policy_loss_spec cfg (drop k rs) (drop k vs) (drop k lps) (drop k es) value_1 ->
  for_each (loss_body cfg d h value_1) acc (reversed_range (Z.of_nat k)) = Some acc' ->
  (acc'.1.2, acc'.2) = policy_loss_spec cfg rs vs lps es value_1.
Proof.
  intros Dv Da Dr De Hv Ha Hr He La Lr Le. revert acc.
  induction k as [|k IH]; intros acc Hk Hacc H.
  - simpl in H. injection H as <-. rewrite !drop_0 in Hacc. exact Hacc.
  - replace (Z.of_nat (S k)) with (Z.of_nat k + 1) in H by lia.
    rewrite reversed_range_succ in H by lia.
    simpl in H.
    destruct (loss_body cfg d h value_1 acc (Z.of_nat k)) as [acc1|] eqn:Eb1; [|discriminate].
    simpl in H. destruct acc as [[a1 a2] a3].
    destruct (loss_body_inv cfg _ _ _ _ _ _ _ _ Eb1)
      as (r & v & vn & lp & e & Gr & Gv & Gvn & Glp & Ge & ->).
    destruct (buffer_get_some d h "reward" lr rs (Z.of_nat k) Dr Hr) as [Gr' _]; [lia|].
    destruct (buffer_get_some d h "action_prob" la lps (Z.of_nat k) Da Ha) as [Glp' _]; [lia|].
    destruct (buffer_get_some d h "entropy" le es (Z.of_nat k) De He) as [Ge' _]; [lia|].
    destruct (buffer_get_some d h "value" lv (vs ++ [value_1]) (Z.of_nat k) Dv Hv) as [Gv' _];
      [rewrite length_app; simpl; lia|].
    destruct (buffer_get_some d h "value" lv (vs ++ [value_1]) (Z.of_nat k + 1) Dv Hv)
      as [Gvn' _]; [rewrite length_app; simpl; lia|].
    rewrite Gr', Nat2Z.id in Gr. rewrite Glp', Nat2Z.id in Glp.
    rewrite Ge', Nat2Z.id in Ge. rewrite Gv', Nat2Z.id in Gv.
    rewrite Gvn' in Gvn. replace (Z.to_nat (Z.of_nat k + 1)) with (S k) in Gvn by lia.
    rewrite lookup_app_l in Gv by lia.
    apply (IH _ ltac:(lia)) in H; [exact H|].
    rewrite (drop_S rs r k Gr), (drop_S vs v k Gv), (drop_S lps lp k Glp),
      (drop_S es e k Ge).
    simpl in Hacc. simpl. rewrite <- Hacc.
    rewrite (next_value_head vs value_1 vn k ltac:(lia) Gvn). reflexivity.
Qed.

(** X22. While the four keys hold four lists, as they do until the first
    flush, the loop of [optimize_model] is the accumulation of the
    specification: it ends with the policy loss and the advantage
    accumulator that the specification's recurrences give over the buffered
    rewards, values, log-probabilities and entropies and the bootstrap
    value, detached factor included. *)
Theorem first_cycle_policy_loss (w : worker) (vs lps rs es : list scalar)
    (value_1 : scalar) (h : list (list scalar)) (lv pl gae : scalar) :
  separate w vs lps rs es ->
  Z.of_nat (length vs) = buffer_length w ->
  length lps = length vs -> length rs = length vs -> length es = length vs ->
  losses cfg (buffer w) (store w) (buffer_length w) value_1 = Some (h, (lv, pl, gae)) ->
  view (buffer w) h "value" = Some (vs ++ [value_1]) /\
  (pl, gae) = policy_loss_spec cfg rs vs lps es value_1.
Proof.
  intros (l1 & l2 & l3 & l4 & Dv & Da & Dr & De & Hnd & Sv & Sa & Sr & Se) Lv La Lr Le H.
  assert (N12 : l1 <> l2) by (apply NoDup_cons in Hnd as [N _]; set_solver).
  assert (N13 : l1 <> l3) by (apply NoDup_cons in Hnd as [N _]; set_solver).
  assert (N14 : l1 <> l4) by (apply NoDup_cons in Hnd as [N _]; set_solver).
  unfold losses in H. rewrite Dv in H. simpl in H.
  rewrite (append_some _ _ _ _ Sv) in H. simpl in H.
  destruct (for_each _ _ _) as [acc|] eqn:Eloop; [|discriminate]. simpl in H.
  injection H as <- ->.
  assert (Hv : <[l1:=vs ++ [value_1]]> (store w) !! l1 = Some (vs ++ [value_1])).
  { apply list_lookup_insert_eq. eapply lookup_lt_Some, Sv. }
  split.
  - unfold view. rewrite Dv. simpl. exact Hv.
  - rewrite <- Lv in Eloop.
    apply (loop_policy (buffer w) (<[l1:=vs ++ [value_1]]> (store w)) l1 l2 l3 l4
             vs lps rs es value_1 (length vs) (number 0, number 0, number 0) (lv, pl, gae)
             Dv Da Dr De Hv); try assumption; try lia.
    + rewrite list_lookup_insert_ne by exact N12. exact Sa.
    + rewrite list_lookup_insert_ne by exact N13. exact Sr.
    + rewrite list_lookup_insert_ne by exact N14. exact Se.
    + rewrite !drop_ge by lia. reflexivity.
Qed.

End FirstCyclePolicy.

Section FirstCyclePolicyInstance.

Import ActorCriticWorker.

Lemma first_cycle_policy_loss_witness :
  exists w h lv pl gae,
    init Examples.cfg 0 Examples.two_tensors ≫= (fun w => collect w Examples.calm_step)
      = Some w /\
    losses Examples.cfg (buffer w) (store w) (buffer_length w)
           (next_value Examples.calm_step) = Some (h, (lv, pl, gae)) /\
    (pl, gae) = policy_loss_spec Examples.cfg
                  [reward Examples.calm_step] [value Examples.calm_step]
                  [log_prob Examples.calm_step] [entropy Examples.calm_step]
                  (next_value Examples.calm_step).
Proof.
  destruct first_collect_separate as (w & Ew & Hl & Hs).
  destruct (losses_some Examples.cfg w (next_value Examples.calm_step))
    as ([h [[lv pl] gae]] & El).
  { split; [lia|]. left. eexists _, _, _, _. split; [exact Hs|]. rewrite Hl. auto. }
  exists w, h, lv, pl, gae. split; [exact Ew|]. split; [exact El|].
  apply (proj2 (first_cycle_policy_loss Examples.cfg w _ _ _ _
                  (next_value Examples.calm_step) h lv pl gae Hs
                  ltac:(rewrite Hl; reflexivity) eq_refl eq_refl eq_refl El)).
Defined.

End FirstCyclePolicyInstance.
